(** * The circuit diagram assembler (src/advancedCircuitAssembler.ts)

    A shallow embedding of the [AdvancedCircuitAssembler] class: the pin
    table, the artwork normalisation, the grid layout, the connection
    resolver, the SVG renderer and the name resolver that feeds them,
    followed by the properties the specification states about them and by
    further properties of the code: of the escaping chain, the loading of
    artwork, the grid of the layout, the resolution of descriptions, the
    document and the name of the file it is written to
    (src/server.ts), and of the resolver and the canvas of the earlier
    revision of the assembler.

    Conventions of the embedding.
    - A JavaScript string is a [string] holding its UTF-8 bytes.  Substring
      search, splitting and replacement on well-formed UTF-8 agree with the
      same operations on code points, so [includes], [split] and the
      regular-expression scanners below work on bytes.
    - A JavaScript number is a rational ([Q]): the arithmetic is taken
      exactly, without the rounding, infinities and NaN of binary64.  The
      one place where the program tests for NaN ([parseFloat(w) || 150]) is
      modelled with an [option].  The rational model therefore covers the
      runs in which every number is finite, and states their results
      before rounding; a size token that [parseFloat] reads as [Infinity]
      (such as [1e999]) has no counterpart in it.  Where the difference
      shows, the same source lines are also embedded in binary64: the
      normalisation of oversized artwork is written over the class
      [Arithmetic], and the module [Binary64] holds the size the parser
      keeps and the canvas of the renderer on floating-point numbers,
      with the NaN of [Math.max] and [Math.min].
    - A [Map] is an association list in insertion order: [Map_set] on a
      present key overwrites the value and keeps the position.
    - Built-ins of the runtime whose full definition lives in the language
      standard (Unicode lower-casing, the regular-expression compiler,
      number parsing and printing, square roots) are the fields of the
      class [JSRuntime]; every general theorem holds for all runtimes, and
      [nodeRuntime] is an instance used to evaluate examples. *)

From Stdlib Require Import String Ascii List Bool Arith NArith ZArith QArith Qminmax Qabs Lia Lqa Floats.
Import ListNotations.

Local Open Scope string_scope.
Local Open Scope list_scope.

(** ** Strings *)

Module JSString.

Definition code (c : ascii) : N := N_of_ascii c.

Definition isDigit (c : ascii) : bool :=
  ((48 <=? code c) && (code c <=? 57))%N.

Definition isUpper (c : ascii) : bool :=
  ((65 <=? code c) && (code c <=? 90))%N.

Definition isLower (c : ascii) : bool :=
  ((97 <=? code c) && (code c <=? 122))%N.

(** [\w] of a regular expression: [A-Za-z0-9_]. *)
Definition isWordChar (c : ascii) : bool :=
  isDigit c || isUpper c || isLower c || (code c =? 95)%N.

(** Case folding of one character as [/i] performs it without the [u]
    flag: only the ASCII letters have a partner below 128. *)
Definition foldCase (c : ascii) : ascii :=
  if isUpper c then ascii_of_N (code c + 32) else c.

Fixpoint drop (n : nat) (s : string) : string :=
  match n, s with
  | O, _ => s
  | S _, EmptyString => EmptyString
  | S k, String _ r => drop k r
  end.

(** [s.startsWith(p)]. *)
Fixpoint startsWith (p s : string) : bool :=
  match p, s with
  | EmptyString, _ => true
  | String _ _, EmptyString => false
  | String a p', String b s' => Ascii.eqb a b && startsWith p' s'
  end.

(** [startsWith] up to [/i] case folding; [p] is given in lower case. *)
Fixpoint startsWith_ci (p s : string) : bool :=
  match p, s with
  | EmptyString, _ => true
  | String _ _, EmptyString => false
  | String a p', String b s' => Ascii.eqb a (foldCase b) && startsWith_ci p' s'
  end.

(** [s.includes(sub)]. *)
Fixpoint includes (s sub : string) : bool :=
  startsWith sub s ||
  match s with
  | EmptyString => false
  | String _ r => includes r sub
  end.

(** Byte length of the white-space character ([\s], the set [trim]
    strips) at the head of [s]; [0] when [s] starts with none. *)
Definition ws_len (s : string) : nat :=
  match s with
  | EmptyString => O
  | String a r =>
    let ca := code a in
    if ((9 <=? ca) && (ca <=? 13) || (ca =? 32))%N then 1%nat
    else match r with
    | EmptyString => O
    | String b r' =>
      let cb := code b in
      if ((ca =? 194) && (cb =? 160))%N then 2%nat  (* U+00A0 *)
      else match r' with
      | EmptyString => O
      | String c _ =>
        let cc := code c in
        if ((ca =? 225) && (cb =? 154) && (cc =? 128)      (* U+1680 *)
            || (ca =? 226) && (cb =? 128) &&
               ((128 <=? cc) && (cc <=? 138)               (* U+2000-200A *)
                || (cc =? 168) || (cc =? 169)              (* U+2028, U+2029 *)
                || (cc =? 175))                            (* U+202F *)
            || (ca =? 226) && (cb =? 129) && (cc =? 159)   (* U+205F *)
            || (ca =? 227) && (cb =? 128) && (cc =? 128)   (* U+3000 *)
            || (ca =? 239) && (cb =? 187) && (cc =? 191))%N (* U+FEFF *)
        then 3%nat else O
      end
    end
  end.

Fixpoint trimStart_go (fuel : nat) (s : string) : string :=
  match fuel with
  | O => s
  | S f =>
    match ws_len s with
    | O => s
    | n => trimStart_go f (drop n s)
    end
  end.

Definition trimStart (s : string) : string := trimStart_go (String.length s) s.

Definition isBlank (s : string) : bool :=
  match trimStart s with EmptyString => true | _ => false end.

Fixpoint trimEnd (s : string) : string :=
  match s with
  | EmptyString => EmptyString
  | String c r => if isBlank s then EmptyString else String c (trimEnd r)
  end.

(** [s.trim()]. *)
Definition trim (s : string) : string := trimEnd (trimStart s).

(** [s.split(d)] for a non-empty literal [d].  [skip] counts the bytes of
    a delimiter just recognised that are still to be jumped over, [cur]
    is the part being collected. *)
Fixpoint split_go (d s : string) (skip : nat) (cur : string) : list string :=
  match s with
  | EmptyString => [cur]
  | String c r =>
    match skip with
    | S k => split_go d r k cur
    | O =>
      if startsWith d s
      then cur :: split_go d r (String.length d - 1) EmptyString
      else split_go d r O (cur ++ String c EmptyString)
    end
  end.

Definition split (d s : string) : list string := split_go d s O EmptyString.

(** [s.split(/\s+/)]. *)
Fixpoint split_ws_go (fuel : nat) (s cur : string) : list string :=
  match fuel with
  | O => [cur]
  | S f =>
    match s with
    | EmptyString => [cur]
    | String c r =>
      match ws_len s with
      | O => split_ws_go f r (cur ++ String c EmptyString)
      | _ => cur :: split_ws_go f (trimStart s) EmptyString
      end
    end
  end.

Definition split_ws (s : string) : list string :=
  split_ws_go (S (String.length s)) s EmptyString.

(** [s.replace(/w\s*/gi, '')] for a literal [w] given in lower case: every
    occurrence of [w], whatever its case, goes together with the white
    space that follows it. *)
Fixpoint removeWord_go (fuel : nat) (w s : string) : string :=
  match fuel with
  | O => s
  | S f =>
    match s with
    | EmptyString => EmptyString
    | String c r =>
      if startsWith_ci w s
      then removeWord_go f w (trimStart (drop (String.length w) s))
      else String c (removeWord_go f w r)
    end
  end.

Definition removeWord_gi (w s : string) : string :=
  removeWord_go (S (String.length s)) w s.

(** [s.replace(/lit/g, by)] for a non-empty literal [lit]. *)
Fixpoint replaceAll_go (lit by_ s : string) (skip : nat) : string :=
  match s with
  | EmptyString => EmptyString
  | String c r =>
    match skip with
    | S k => replaceAll_go lit by_ r k
    | O =>
      if startsWith lit s
      then by_ ++ replaceAll_go lit by_ r (String.length lit - 1)
      else String c (replaceAll_go lit by_ r O)
    end
  end.

Definition replaceAll (lit by_ s : string) : string := replaceAll_go lit by_ s O.

(** [s.match(/\d+/)]: the first maximal run of digits, if any. *)
Fixpoint takeDigits (s : string) : string :=
  match s with
  | EmptyString => EmptyString
  | String c r => if isDigit c then String c (takeDigits r) else EmptyString
  end.

Fixpoint matchDigits (s : string) : option string :=
  match s with
  | EmptyString => None
  | String c r => if isDigit c then Some (takeDigits s) else matchDigits r
  end.

(** [s.match(/c\d+/i)] is not null, for a lower-case letter [c]. *)
Fixpoint hasLetterDigits (c : ascii) (s : string) : bool :=
  match s with
  | EmptyString => false
  | String a r =>
    (Ascii.eqb c (foldCase a) &&
     match r with String b _ => isDigit b | EmptyString => false end)
    || hasLetterDigits c r
  end.

(** [s.replace(/\s+/g, '_')]. *)
Fixpoint underscoreSpaces_go (fuel : nat) (s : string) : string :=
  match fuel with
  | O => s
  | S f =>
    match s with
    | EmptyString => EmptyString
    | String c r =>
      match ws_len s with
      | O => String c (underscoreSpaces_go f r)
      | _ => String "_" (underscoreSpaces_go f (trimStart s))
      end
    end
  end.

Definition underscoreSpaces (s : string) : string :=
  underscoreSpaces_go (S (String.length s)) s.

(** [s.replace(/[^\w]/g, '')]. *)
Fixpoint keepWordChars (s : string) : string :=
  match s with
  | EmptyString => EmptyString
  | String c r => if isWordChar c then String c (keepWordChars r) else keepWordChars r
  end.

(** [s.replace(/[()]/g, '')]. *)
Fixpoint removeParens (s : string) : string :=
  match s with
  | EmptyString => EmptyString
  | String c r =>
    if ((code c =? 40) || (code c =? 41))%N then removeParens r
    else String c (removeParens r)
  end.

(** [s.replace(/[()ω]/g, '')]; the small omega is the byte pair 207 137. *)
Fixpoint removeParensOmega (s : string) : string :=
  match s with
  | EmptyString => EmptyString
  | String c r =>
    if ((code c =? 40) || (code c =? 41))%N then removeParensOmega r
    else match r with
    | String d r' =>
      if ((code c =? 207) && (code d =? 137))%N then removeParensOmega r'
      else String c (removeParensOmega r)
    | EmptyString => String c EmptyString
    end
  end.

(** [s.replace(/_+/g, '_')]: of each run of underscores the last stays. *)
Fixpoint collapseUnderscores (s : string) : string :=
  match s with
  | EmptyString => EmptyString
  | String c r =>
    if (code c =? 95)%N &&
       match r with String d _ => (code d =? 95)%N | EmptyString => false end
    then collapseUnderscores r
    else String c (collapseUnderscores r)
  end.

(** Everything before the first [stop] character, and what follows it. *)
Fixpoint breakAt (stop : ascii -> bool) (s : string) : string * option string :=
  match s with
  | EmptyString => (EmptyString, None)
  | String c r =>
    if stop c then (EmptyString, Some r)
    else let '(a, b) := breakAt stop r in (String c a, b)
  end.

Definition endsWith (suffix s : string) : bool :=
  (String.length suffix <=? String.length s)%nat &&
  String.eqb (drop (String.length s - String.length suffix) s) suffix.

End JSString.
Import JSString.

(** ** The runtime *)

(** What a JavaScript call can complete with: a value, or a thrown error.
    The only error the assembler's own code can provoke is the
    [SyntaxError] of the [RegExp] constructor. *)
Inductive JSError : Type := SyntaxError.

Inductive Completion (A : Type) : Type :=
| Normal (a : A)
| Throw (e : JSError).
Arguments Normal {A} a.
Arguments Throw {A} e.

Definition bind {A B : Type} (c : Completion A) (k : A -> Completion B) : Completion B :=
  match c with
  | Normal a => k a
  | Throw e => Throw e
  end.

Notation "x <- c ;; k" := (bind c (fun x => k))
  (at level 61, c at next level, right associativity).

Class JSRuntime : Type := {
  (** [String.prototype.toLowerCase]. *)
  toLowerCase : string -> string;
  (** [subject.replace(new RegExp(source, 'gi'), '')]; [None] when the
      constructor rejects [source]. *)
  RegExp_gi_remove : string -> string -> option string;
  (** [parseFloat]; [None] is NaN.  The result is a finite number: a
      literal too large for binary64, which the runtime reads as
      [Infinity], is outside this model (see [Binary64.parsedSize]). *)
  parseFloat : string -> option Q;
  (** Number-to-string conversion, as template literals apply it. *)
  Number_toString : Q -> string;
  (** [Math.sqrt]. *)
  Math_sqrt : Q -> Q
}.

(** ** Data model *)

(** [Map<string, V>]: entries in insertion order. *)
Definition Map (V : Type) : Type := list (string * V).

Fixpoint Map_get {V : Type} (m : Map V) (k : string) : option V :=
  match m with
  | [] => None
  | (k', v) :: r => if String.eqb k' k then Some v else Map_get r k
  end.

Definition Map_has {V : Type} (m : Map V) (k : string) : bool :=
  match Map_get m k with Some _ => true | None => false end.

Fixpoint Map_set {V : Type} (m : Map V) (k : string) (v : V) : Map V :=
  match m with
  | [] => [(k, v)]
  | (k', v') :: r =>
    if String.eqb k' k then (k, v) :: r else (k', v') :: Map_set r k v
  end.

(** [{ x: number; y: number }]. *)
Module Pos.
Record t : Type := mk { x : Q; y : Q }.
End Pos.

(** [interface ComponentSVGData]. *)
Module ComponentSVGData.
Record t : Type := mk {
  name : string;
  svgContent : string;
  width : Q;
  height : Q;
  pins : Map Pos.t
}.
End ComponentSVGData.

(** The object [layoutComponents] stores per placed component. *)
Module Placed.
Record t : Type := mk {
  component : ComponentSVGData.t;
  x : Q;
  y : Q;
  absolutePins : Map Pos.t
}.
End Placed.

(** One end of a wire: [{ component; pin; x; y }]. *)
Module Endpoint.
Record t : Type := mk {
  component : string;
  pin : string;
  x : Q;
  y : Q
}.
End Endpoint.

(** [interface ConnectionWire]. *)
Module ConnectionWire.
Record t : Type := mk {
  from : Endpoint.t;
  to : Endpoint.t;
  color : string;
  label : string
}.
End ConnectionWire.

Definition Qgtb (a b : Q) : bool := negb (Qle_bool a b).
Definition Qltb (a b : Q) : bool := negb (Qle_bool b a).

(** The operations on [number] with which [parseSVG] normalises an
    oversized artwork.  [exact] takes them in the rationals, the number
    model of the embedding; [binary64] takes them in the floating-point
    format of the runtime ([Math.min] as it is on numbers that are not
    NaN). *)
Class Arithmetic (number : Type) : Type := {
  literal : Z -> number;
  multiply : number -> number -> number;
  divide : number -> number -> number;
  greaterThan : number -> number -> bool;
  Math_min : number -> number -> number
}.

#[export] Instance exact : Arithmetic Q := {|
  literal := inject_Z;
  multiply := Qmult;
  divide := Qdiv;
  greaterThan := Qgtb;
  Math_min := Qmin
|}.

#[export] Instance binary64 : Arithmetic float := {|
  literal := fun z => PrimFloat.of_uint63 (Uint63.of_Z z);
  multiply := PrimFloat.mul;
  divide := PrimFloat.div;
  greaterThan := fun a b => PrimFloat.ltb b a;
  Math_min := fun a b => if PrimFloat.ltb b a then b else a
|}.

Section Scaling.

Context {number : Type} {A : Arithmetic number}.

Definition MAX_WIDTH : number := literal 200.
Definition MAX_HEIGHT : number := literal 200.

(** The test that guards the normalisation. *)
Definition oversized (width height : number) : bool :=
  greaterThan width MAX_WIDTH || greaterThan height MAX_HEIGHT.

(** The factor by which [parseSVG] shrinks an oversized artwork. *)
Definition scaleFactor (width height : number) : number :=
  let scaleX :=
    if greaterThan width MAX_WIDTH then divide MAX_WIDTH width else literal 1 in
  let scaleY :=
    if greaterThan height MAX_HEIGHT then divide MAX_HEIGHT height else literal 1 in
  Math_min scaleX scaleY.

(** The width and height [parseSVG] returns for an artwork of intrinsic
    size [width] by [height]. *)
Definition normalisedSize (width height : number) : number * number :=
  if oversized width height then
    let scale := scaleFactor width height in
    (multiply width scale, multiply height scale)
  else (width, height).

End Scaling.

Section Assembler.

Context {RT : JSRuntime}.

(** ** Pin table *)

Definition getComponentPinPositions
    (componentName : string) (width height : Q) : Map Pos.t :=
  let pins : Map Pos.t := [] in
  let name := toLowerCase componentName in
  if includes name "arduino" then
    let pins := Map_set pins "VIN" (Pos.mk 0 (height * 0.2)) in
    let pins := Map_set pins "GND" (Pos.mk 0 (height * 0.4)) in
    let pins := Map_set pins "5V" (Pos.mk 0 (height * 0.3)) in
    let pins := Map_set pins "3.3V" (Pos.mk 0 (height * 0.35)) in
    let pins := Map_set pins "D13" (Pos.mk width (height * 0.3)) in
    let pins := Map_set pins "D12" (Pos.mk width (height * 0.4)) in
    let pins := Map_set pins "D11" (Pos.mk width (height * 0.5)) in
    let pins := Map_set pins "D10" (Pos.mk width (height * 0.6)) in
    let pins := Map_set pins "A0" (Pos.mk width (height * 0.7)) in
    let pins := Map_set pins "A1" (Pos.mk width (height * 0.8)) in
    pins
  else if includes name "led" then
    let pins := Map_set pins "Anode" (Pos.mk (width / 2) 0) in
    let pins := Map_set pins "+" (Pos.mk (width / 2) 0) in
    let pins := Map_set pins "Cathode" (Pos.mk (width / 2) height) in
    let pins := Map_set pins "-" (Pos.mk (width / 2) height) in
    pins
  else if includes name "resistor" then
    let pins := Map_set pins "A" (Pos.mk 0 (height / 2)) in
    let pins := Map_set pins "B" (Pos.mk width (height / 2)) in
    let pins := Map_set pins "1" (Pos.mk 0 (height / 2)) in
    let pins := Map_set pins "2" (Pos.mk width (height / 2)) in
    pins
  else if includes name "battery" then
    let pins := Map_set pins "+" (Pos.mk (width / 2) 0) in
    let pins := Map_set pins "positive" (Pos.mk (width / 2) 0) in
    let pins := Map_set pins "-" (Pos.mk (width / 2) height) in
    let pins := Map_set pins "negative" (Pos.mk (width / 2) height) in
    pins
  else if includes name "hc-sr04" || includes name "ultrasonic" then
    let pins := Map_set pins "VCC" (Pos.mk 0 (height * 0.2)) in
    let pins := Map_set pins "TRIG" (Pos.mk 0 (height * 0.4)) in
    let pins := Map_set pins "ECHO" (Pos.mk 0 (height * 0.6)) in
    let pins := Map_set pins "GND" (Pos.mk 0 (height * 0.8)) in
    pins
  else if includes name "switch" || includes name "button" then
    let pins := Map_set pins "1" (Pos.mk 0 (height / 2)) in
    let pins := Map_set pins "2" (Pos.mk width (height / 2)) in
    let pins := Map_set pins "A" (Pos.mk 0 (height / 2)) in
    let pins := Map_set pins "B" (Pos.mk width (height / 2)) in
    pins
  else
    let pins := Map_set pins "TOP" (Pos.mk (width / 2) 0) in
    let pins := Map_set pins "BOTTOM" (Pos.mk (width / 2) height) in
    let pins := Map_set pins "LEFT" (Pos.mk 0 (height / 2)) in
    let pins := Map_set pins "RIGHT" (Pos.mk width (height / 2)) in
    pins.

(** ** Artwork: intrinsic size and normalisation *)

Definition isQuote (c : ascii) : bool :=
  ((code c =? 34) || (code c =? 39))%N.

(** Leftmost match of [key], one quote, and whatever [capture] accepts of
    the text after the quote; the result is the captured group. *)
Fixpoint matchAfter (key : string) (capture : string -> option string)
    (s : string) : option string :=
  match s with
  | EmptyString => None
  | String _ r =>
    let here :=
      if startsWith key s then
        match drop (String.length key) s with
        | String q rest => if isQuote q then capture rest else None
        | EmptyString => None
        end
      else None in
    match here with
    | Some v => Some v
    | None => matchAfter key capture r
    end
  end.

(** Group 1 of the [viewBox] pattern of [parseSVG]: [viewBox=], a quote
    (single or double), one or more characters that are not quotes
    (the group), a quote. *)
Definition viewBoxMatch (svgContent : string) : option string :=
  matchAfter "viewBox="
    (fun rest =>
       match breakAt isQuote rest with
       | (EmptyString, _) => None
       | (run, Some _) => Some run
       | (_, None) => None
       end) svgContent.

(** Group 1 of the [width] and [height] patterns of [parseSVG]: the key,
    a quote, one or more digits (the group). *)
Definition digitsMatch (key svgContent : string) : option string :=
  matchAfter key
    (fun rest =>
       match takeDigits rest with
       | EmptyString => None
       | d => Some d
       end) svgContent.

(** [parseFloat(t) || 150], with [t] possibly [undefined]. *)
Definition parseFloatOr150 (t : option string) : Q :=
  match t with
  | None => 150
  | Some t =>
    match parseFloat t with
    | None => 150
    | Some q => if Qeq_bool q 0 then 150 else q
    end
  end.

(** The first half of [parseSVG]: width and height of the artwork. *)
Definition intrinsicSize (svgContent : string) : Q * Q :=
  match viewBoxMatch svgContent with
  | Some v =>
    (* const [, , , w, h] = viewBoxMatch[1].split(/\s+/) *)
    let parts := split_ws v in
    (parseFloatOr150 (nth_error parts 3), parseFloatOr150 (nth_error parts 4))
  | None =>
    match digitsMatch "width=" svgContent, digitsMatch "height=" svgContent with
    | Some w, Some h => (parseFloatOr150 (Some w), parseFloatOr150 (Some h))
    | _, _ => (150, 150)
    end
  end.

Definition scalePins (scale : Q) (pins : Map Pos.t) : Map Pos.t :=
  fold_left
    (fun scaledPins '(pinName, pos) =>
       Map_set scaledPins pinName
         (Pos.mk (Pos.x pos * scale) (Pos.y pos * scale)))
    pins [].

(** [parseSVG], on the rationals: the products are exact, where the
    program rounds them to binary64, and the sizes are finite
    ([normalisedSize] on [binary64] and [Binary64.parsedSize] give the
    size in floating point). *)
Definition parseSVG (componentName svgContent : string) : ComponentSVGData.t :=
  let '(width, height) := intrinsicSize svgContent in
  let pins := getComponentPinPositions componentName width height in
  if oversized width height then
    let scale := scaleFactor width height in
    ComponentSVGData.mk componentName svgContent
      (width * scale) (height * scale) (scalePins scale pins)
  else
    ComponentSVGData.mk componentName svgContent width height pins.

(** ** Layout engine *)

Definition calculateAbsolutePins (pins : Map Pos.t) (offsetX offsetY : Q)
    : Map Pos.t :=
  fold_left
    (fun absolutePins '(pinName, position) =>
       Map_set absolutePins pinName
         (Pos.mk (offsetX + Pos.x position) (offsetY + Pos.y position)))
    pins [].

Definition place (data : ComponentSVGData.t) (x y : Q) : Placed.t :=
  Placed.mk data x y (calculateAbsolutePins (ComponentSVGData.pins data) x y).

Definition spacingX : Q := 250.
Definition spacingY : Q := 200.

(** A non-empty string is truthy. *)
Definition truthy (s : string) : bool := negb (String.eqb s "").

(** The second loop of [layoutComponents]; the state is the layout built
    so far, the current column and the row inside it. *)
Fixpoint placeOthers (loadedComponents : Map ComponentSVGData.t)
    (arduinoComponent : option string) (currentY : Q)
    (componentsUsed : list string)
    (layout : Map Placed.t) (currentX row : Q) : Map Placed.t :=
  match componentsUsed with
  | [] => layout
  | componentName :: rest =>
    let continue_ :=
      placeOthers loadedComponents arduinoComponent currentY rest in
    if match arduinoComponent with
       | Some a => String.eqb componentName a
       | None => false
       end
    then continue_ layout currentX row
    else
      match Map_get loadedComponents componentName with
      | None => continue_ layout currentX row
      | Some componentData =>
        let layout :=
          Map_set layout componentName
            (place componentData currentX (currentY + row * spacingY)) in
        let row := row + 1 in
        if Qle_bool 3 row
        then continue_ layout (currentX + spacingX) 0
        else continue_ layout currentX row
      end
  end.

Definition layoutComponents (loadedComponents : Map ComponentSVGData.t)
    (componentsUsed : list string) : Map Placed.t :=
  let arduinoComponent :=
    find (fun c => includes (toLowerCase c) "arduino") componentsUsed in
  let currentX : Q := 150 in
  let currentY : Q := 200 in
  let '(layout, currentX) :=
    match arduinoComponent with
    | Some a =>
      match truthy a, Map_get loadedComponents a with
      | true, Some arduinoData =>
        (Map_set [] a (place arduinoData currentX currentY),
         currentX + spacingX)
      | _, _ => ([], currentX)
      end
    | None => ([], currentX)
    end in
  placeOthers loadedComponents arduinoComponent currentY componentsUsed
    layout currentX 0.

(** ** Connection resolver *)

Definition significantWords : list string :=
  ["arduino"; "nano"; "led"; "resistor"; "battery"; "sensor"; "hc-sr04";
   "ultrasonic"].

(** [s.split(' ')[0]]. *)
Definition firstWord (s : string) : string := hd "" (split " " s).

(** The three matching strategies of [findConnectionPoint]; the result is
    the final value of [foundMatch]. *)
Definition componentMatches (pointStr componentName : string) : bool :=
  let strategy1 := includes (toLowerCase pointStr) (toLowerCase componentName) in
  let strategy2 :=
    existsb (fun word => includes (toLowerCase pointStr) word &&
                         includes (toLowerCase componentName) word)
            significantWords in
  let cleanSearch := removeParens (toLowerCase pointStr) in
  let cleanComponent := removeParens (toLowerCase componentName) in
  let strategy3 :=
    includes cleanSearch (firstWord cleanComponent) ||
    includes cleanComponent (firstWord cleanSearch) in
  strategy1 || strategy2 || strategy3.

(** The candidate pin name: the description without the component name
    and the qualifier words.  The component name is compiled as a regular
    expression, which can fail. *)
Definition extractPinName (pointStr componentName : string) : Completion string :=
  match RegExp_gi_remove componentName pointStr with
  | None => Throw SyntaxError
  | Some pinName =>
    let pinName := trim pinName in
    let pinName := trim (removeWord_gi "arduino" pinName) in
    let pinName := trim (removeWord_gi "nano" pinName) in
    let pinName := trim (removeWord_gi "led" pinName) in
    let pinName := trim (removeWord_gi "(red)" pinName) in
    let pinName := trim (removeWord_gi "(green)" pinName) in
    let pinName := trim (removeWord_gi "red" pinName) in
    let pinName := trim (removeWord_gi "green" pinName) in
    Normal pinName
  end.

(** Test of the first pin loop: equal, or one contains the other, all in
    lower case. *)
Definition pinNameMatches (pinName pin : string) : bool :=
  String.eqb (toLowerCase pinName) (toLowerCase pin) ||
  includes (toLowerCase pinName) (toLowerCase pin) ||
  includes (toLowerCase pin) (toLowerCase pinName).

(** Test of the second pin loop: both carry digits and their first digit
    groups coincide. *)
Definition pinDigitsMatch (pinName pin : string) : bool :=
  match matchDigits pin, matchDigits pinName with
  | Some pinDigits, Some searchDigits => String.eqb pinDigits searchDigits
  | _, _ => false
  end.

(** The pin chosen inside a matched component: by name, else by number,
    else the first entry of the table. *)
Definition choosePin (pinName : string) (absolutePins : Map Pos.t)
    : option (string * Pos.t) :=
  match find (fun '(pin, _) => pinNameMatches pinName pin) absolutePins with
  | Some found => Some found
  | None =>
    match find (fun '(pin, _) => pinDigitsMatch pinName pin) absolutePins with
    | Some found => Some found
    | None => hd_error absolutePins
    end
  end.

Fixpoint findConnectionPoint (pointStr : string) (layout : Map Placed.t)
    : Completion (option Endpoint.t) :=
  match layout with
  | [] => Normal None
  | (componentName, layoutData) :: rest =>
    if componentMatches pointStr componentName then
      pinName <- extractPinName pointStr componentName ;;
      match choosePin pinName (Placed.absolutePins layoutData) with
      | Some (pin, position) =>
        Normal (Some (Endpoint.mk componentName pin
                        (Pos.x position) (Pos.y position)))
      | None => findConnectionPoint pointStr rest
      end
    else findConnectionPoint pointStr rest
  end.

Definition getWireColor (connection : string) : string :=
  let conn := toLowerCase connection in
  if includes conn "vin" || includes conn "5v" || includes conn "3.3v" ||
     includes conn "vcc" || includes conn "power" || includes conn "+"
  then "#FF0000"
  else if includes conn "gnd" || includes conn "ground" || includes conn "-"
  then "#000000"
  else if includes conn "signal" || includes conn "trig" || includes conn "echo"
  then "#FFFF00"
  else if hasLetterDigits "d" conn then "#00FF00"
  else if hasLetterDigits "a" conn then "#0088FF"
  else "#888888".

(** The guard at the top of the loop of [parseConnections]. *)
Definition isNonConnection (connection : string) : bool :=
  includes (toLowerCase connection) "upload" ||
  includes (toLowerCase connection) "code" ||
  includes (toLowerCase connection) "program".

(** One turn of the loop of [parseConnections]: the wire pushed for
    [connection], if any. *)
Definition connectionWire (connection : string) (layout : Map Placed.t)
    : Completion (option ConnectionWire.t) :=
  if isNonConnection connection then Normal None
  else
    match map trim (split "→" connection) with
    | [part0; part1] =>
      fromPoint <- findConnectionPoint part0 layout ;;
      toPoint <- findConnectionPoint part1 layout ;;
      match fromPoint, toPoint with
      | Some fromPoint, Some toPoint =>
        Normal (Some (ConnectionWire.mk fromPoint toPoint
                        (getWireColor connection) connection))
      | _, _ => Normal None
      end
    | _ => Normal None
    end.

Fixpoint parseConnections_from (wires : list ConnectionWire.t)
    (connections : list string) (layout : Map Placed.t)
    : Completion (list ConnectionWire.t) :=
  match connections with
  | [] => Normal wires
  | connection :: rest =>
    pushed <- connectionWire connection layout ;;
    match pushed with
    | Some wire => parseConnections_from (wires ++ [wire]) rest layout
    | None => parseConnections_from wires rest layout
    end
  end.

Definition parseConnections (connections : list string)
    (layout : Map Placed.t) : Completion (list ConnectionWire.t) :=
  parseConnections_from [] connections layout.

End Assembler.

(** ** Renderer *)

(** The templates of the renderer are full of double quotes.  They are
    written below with a backquote in place of each double quote (a
    template literal cannot contain a backquote), and [q] puts the double
    quotes back; [nl] is the line feed that ends each template line. *)
Definition nl : string := String (ascii_of_nat 10) EmptyString.
Definition dq : string := String (ascii_of_nat 34) EmptyString.

Fixpoint q (s : string) : string :=
  match s with
  | EmptyString => EmptyString
  | String c r =>
    String (if (code c =? 96)%N then ascii_of_nat 34 else c) (q r)
  end.

(** The chain of six [replace] calls that [drawWire] applies to the label
    and [embedComponentSVG] to the component name. *)
Definition escapeMarkup (s : string) : string :=
  let s := replaceAll "&" "&amp;" s in
  let s := replaceAll "Ω" "&#937;" s in
  let s := replaceAll "<" "&lt;" s in
  let s := replaceAll ">" "&gt;" s in
  let s := replaceAll dq "&quot;" s in
  let s := replaceAll "'" "&apos;" s in
  s.

(** [s.replace(/open[^>]*>/g, '')], and with [closeQ] set
    [s.replace(/open[^>]*\?>/g, '')]: from [open] to the first [>], which
    in the second form has to follow a question mark. *)
Fixpoint removeTag_go (fuel : nat) (open : string) (closeQ : bool) (s : string)
    : string :=
  match fuel with
  | O => s
  | S f =>
    match s with
    | EmptyString => EmptyString
    | String c r =>
      let matched :=
        if startsWith open s then
          match breakAt (fun c => (code c =? 62)%N) (drop (String.length open) s) with
          | (inside, Some after) =>
            if negb closeQ || endsWith "?" inside then Some after else None
          | (_, None) => None
          end
        else None in
      match matched with
      | Some after => removeTag_go f open closeQ after
      | None => String c (removeTag_go f open closeQ r)
      end
    end
  end.

Definition removeTag (open : string) (closeQ : bool) (s : string) : string :=
  removeTag_go (S (String.length s)) open closeQ s.

Section Renderer.

Context {RT : JSRuntime}.

Local Open Scope string_scope.

Definition drawWire (wire : ConnectionWire.t) : string :=
  let from := ConnectionWire.from wire in
  let to := ConnectionWire.to wire in
  let color := ConnectionWire.color wire in
  let dx := Endpoint.x to - Endpoint.x from in
  let dy := Endpoint.y to - Endpoint.y from in
  let distance := Math_sqrt (dx * dx + dy * dy) in
  let path : string :=
    if Qltb (Qabs dy) 50 then
      let curvature := distance * 0.25 in
      "M " ++ Number_toString (Endpoint.x from) ++ " " ++ Number_toString (Endpoint.y from) ++ " C " ++ Number_toString (Endpoint.x from + curvature) ++ " " ++ Number_toString (Endpoint.y from) ++ ", " ++ Number_toString (Endpoint.x to - curvature) ++ " " ++ Number_toString (Endpoint.y to) ++ ", " ++ Number_toString (Endpoint.x to) ++ " " ++ Number_toString (Endpoint.y to)
    else if Qltb (Qabs dx) 50 then
      let curvature := distance * 0.25 in
      "M " ++ Number_toString (Endpoint.x from) ++ " " ++ Number_toString (Endpoint.y from) ++ " C " ++ Number_toString (Endpoint.x from) ++ " " ++ Number_toString (Endpoint.y from + curvature) ++ ", " ++ Number_toString (Endpoint.x to) ++ " " ++ Number_toString (Endpoint.y to - curvature) ++ ", " ++ Number_toString (Endpoint.x to) ++ " " ++ Number_toString (Endpoint.y to)
    else
      let midY := (Endpoint.y from + Endpoint.y to) / 2 in
      "M " ++ Number_toString (Endpoint.x from) ++ " " ++ Number_toString (Endpoint.y from) ++ " L " ++ Number_toString (Endpoint.x from) ++ " " ++ Number_toString midY ++ " L " ++ Number_toString (Endpoint.x to) ++ " " ++ Number_toString midY ++ " L " ++ Number_toString (Endpoint.x to) ++ " " ++ Number_toString (Endpoint.y to) in
  let safeLabel := escapeMarkup (ConnectionWire.label wire) in
  (nl ++
   "    <!-- Wire: " ++ safeLabel ++ " -->" ++ nl ++
   "    " ++ nl ++
   "    <!-- Wire glow effect -->" ++ nl ++
   q "    <path d=`" ++ path ++ q "` " ++ nl ++
   q "          stroke=`" ++ color ++ q "` " ++ nl ++
   q "          stroke-width=`8` " ++ nl ++
   q "          fill=`none`" ++ nl ++
   q "          stroke-linecap=`round`" ++ nl ++
   q "          opacity=`0.15`" ++ nl ++
   q "          filter=`blur(3px)`/>" ++ nl ++
   "    " ++ nl ++
   "    <!-- Wire shadow -->" ++ nl ++
   q "    <path d=`" ++ path ++ q "` " ++ nl ++
   q "          stroke=`#00000020` " ++ nl ++
   q "          stroke-width=`5` " ++ nl ++
   q "          fill=`none`" ++ nl ++
   q "          stroke-linecap=`round`" ++ nl ++
   q "          transform=`translate(2, 2)`/>" ++ nl ++
   "    " ++ nl ++
   "    <!-- Main wire -->" ++ nl ++
   q "    <path d=`" ++ path ++ q "` " ++ nl ++
   q "          stroke=`" ++ color ++ q "` " ++ nl ++
   q "          stroke-width=`4` " ++ nl ++
   q "          fill=`none`" ++ nl ++
   q "          stroke-linecap=`round`" ++ nl ++
   q "          stroke-linejoin=`round`/>" ++ nl ++
   "    " ++ nl ++
   "    <!-- Connection dots with glow -->" ++ nl ++
   q "    <circle cx=`" ++ Number_toString (Endpoint.x from) ++ q "` cy=`" ++ Number_toString (Endpoint.y from) ++ q "` r=`8` fill=`" ++ color ++ q "` opacity=`0.3`/>" ++ nl ++
   q "    <circle cx=`" ++ Number_toString (Endpoint.x from) ++ q "` cy=`" ++ Number_toString (Endpoint.y from) ++ q "` r=`5` fill=`" ++ color ++ q "` stroke=`#FFF` stroke-width=`2`/>" ++ nl ++
   "    " ++ nl ++
   q "    <circle cx=`" ++ Number_toString (Endpoint.x to) ++ q "` cy=`" ++ Number_toString (Endpoint.y to) ++ q "` r=`8` fill=`" ++ color ++ q "` opacity=`0.3`/>" ++ nl ++
   q "    <circle cx=`" ++ Number_toString (Endpoint.x to) ++ q "` cy=`" ++ Number_toString (Endpoint.y to) ++ q "` r=`5` fill=`" ++ color ++ q "` stroke=`#FFF` stroke-width=`2`/>" ++ nl)%string.

Definition embedComponentSVG (componentName : string) (layoutData : Placed.t)
    : string :=
  let component := Placed.component layoutData in
  let x := Placed.x layoutData in
  let y := Placed.y layoutData in
  let svgContent := ComponentSVGData.svgContent component in
  let svgContent := removeTag "<?xml" true svgContent in
  let svgContent := removeTag "<!DOCTYPE" false svgContent in
  let svgContent := removeTag "<svg" false svgContent in
  let svgContent := replaceAll "</svg>" "" svgContent in
  let svgContent := trim svgContent in
  let safeComponentName := escapeMarkup componentName in
  let cleanId := keepWordChars (underscoreSpaces componentName) in
  (* [ComponentSVGData] has no field [originalWidth] or [originalHeight]:
     each quotient is NaN and [|| 1] turns it into 1. *)
  let scaleX := Number_toString 1 in
  let scaleY := Number_toString 1 in
  (nl ++
   "  <!-- Component: " ++ safeComponentName ++ " -->" ++ nl ++
   q "  <g id=`" ++ cleanId ++ q "` transform=`translate(" ++ Number_toString x ++ ", " ++ Number_toString y ++ q ")`>" ++ nl ++
   "    <!-- Component Background (subtle) -->" ++ nl ++
   q "    <rect x=`-5` y=`-5` width=`" ++ Number_toString (ComponentSVGData.width component + 10) ++ q "` height=`" ++ Number_toString (ComponentSVGData.height component + 10) ++ q "` " ++ nl ++
   q "          fill=`#FFFFFF` stroke=`#DDD` stroke-width=`1` rx=`5` opacity=`0.5`/>" ++ nl ++
   "    " ++ nl ++
   "    <!-- Actual Component SVG -->" ++ nl ++
   "   <!-- Actual Component SVG (scaled if needed) -->" ++ nl ++
   q "    <g transform=`scale(" ++ scaleX ++ ", " ++ scaleY ++ q ")`>" ++ nl ++
   "      " ++ svgContent ++ nl ++
   "    </g>" ++ nl ++
   "    <!-- Component Label -->" ++ nl ++
   q "    <text x=`" ++ Number_toString (ComponentSVGData.width component / 2) ++ q "` y=`" ++ Number_toString (ComponentSVGData.height component + 20) ++ q "` " ++ nl ++
   q "          font-size=`12` font-family=`Arial` font-weight=`bold`" ++ nl ++
   q "          text-anchor=`middle` fill=`#333`>" ++ nl ++
   "      " ++ safeComponentName ++ nl ++
   "    </text>" ++ nl ++
   "  </g>" ++ nl)%string.

(** The canvas: the bounding box of the placements, padded and capped.
    On the rationals [Math.max] and [Math.min] are [Qmax] and [Qmin];
    [Binary64.canvasSize] is the same loop on floating-point numbers,
    where they give NaN as soon as one argument is NaN. *)
Definition canvasSize (layout : Map Placed.t) : Q * Q :=
  let '(maxX, maxY) :=
    fold_left
      (fun '(maxX, maxY) '(_, layoutData) =>
         (Qmax maxX (Placed.x layoutData +
                     ComponentSVGData.width (Placed.component layoutData)),
          Qmax maxY (Placed.y layoutData +
                     ComponentSVGData.height (Placed.component layoutData))))
      layout (0, 0) in
  (Qmin (maxX + 200) 2000, Qmin (maxY + 250) 1500).

Definition pinLabel (pinName : string) (position : Pos.t) : string :=
  (q "    <circle cx=`" ++ Number_toString (Pos.x position) ++ q "` cy=`" ++ Number_toString (Pos.y position) ++ q "` r=`4` fill=`#FF6B6B` stroke=`#FFF` stroke-width=`1.5`/>" ++ nl ++
   q "    <text x=`" ++ Number_toString (Pos.x position + 10) ++ q "` y=`" ++ Number_toString (Pos.y position - 5) ++ q "` font-size=`10` fill=`#666`>" ++ pinName ++ "</text>" ++ nl)%string.

Definition assembleFinalSVG (circuitName : string) (layout : Map Placed.t)
    (wires : list ConnectionWire.t) : string :=
  let '(canvasWidth, canvasHeight) := canvasSize layout in
  let svg : string :=
    q "<?xml version=`1.0` encoding=`UTF-8`?>" ++ nl ++
    q "<svg width=`" ++ Number_toString canvasWidth ++ q "` height=`" ++ Number_toString canvasHeight ++ q "` xmlns=`http://www.w3.org/2000/svg`>" ++ nl ++
    "  " ++ nl ++
    "  <!-- Background -->" ++ nl ++
    q "  <rect width=`100%` height=`100%` fill=`#FAFAFA`/>" ++ nl ++
    "  " ++ nl ++
    "  <!-- Grid Pattern -->" ++ nl ++
    "  <defs>" ++ nl ++
    q "    <pattern id=`grid` width=`20` height=`20` patternUnits=`userSpaceOnUse`>" ++ nl ++
    q "      <path d=`M 20 0 L 0 0 0 20` fill=`none` stroke=`#E0E0E0` stroke-width=`0.5`/>" ++ nl ++
    "    </pattern>" ++ nl ++
    "  </defs>" ++ nl ++
    q "  <rect width=`100%` height=`100%` fill=`url(#grid)`/>" ++ nl ++
    "  " ++ nl ++
    "  <!-- Title -->" ++ nl ++
    q "  <rect x=`10` y=`10` width=`" ++ Number_toString (canvasWidth - 20) ++ q "` height=`60` fill=`#FFFFFF` stroke=`#333` stroke-width=`2` rx=`10`/>" ++ nl ++
    q "  <text x=`" ++ Number_toString (canvasWidth / 2) ++ q "` y=`45` font-size=`28` font-family=`Arial, sans-serif` " ++ nl ++
    q "  font-weight=`bold` text-anchor=`middle` fill=`#333`>" ++ nl ++
    "  " ++ circuitName ++ nl ++
    "  </text>" ++ nl ++
    "  " ++ nl ++
    "  <!-- Components Layer -->" ++ nl ++
    q "  <g id=`components`>" ++ nl ++
    "  " in
  let svg :=
    fold_left
      (fun svg '(componentName, layoutData) =>
         svg ++ embedComponentSVG componentName layoutData)%string
      layout svg in
  let svg : string :=
    svg ++
    "  </g>" ++ nl ++
    "  " ++ nl ++
    "  <!-- Wires Layer -->" ++ nl ++
    q "  <g id=`wires`>" ++ nl ++
    "  " in
  let svg := fold_left (fun svg wire => svg ++ drawWire wire)%string wires svg in
  let svg : string :=
    svg ++
    "  </g>" ++ nl ++
    "  " ++ nl ++
    "  <!-- Pin Labels -->" ++ nl ++
    q "  <g id=`pin-labels`>" ++ nl in
  let svg :=
    fold_left
      (fun svg '(componentName, layoutData) =>
         fold_left
           (fun svg '(pinName, position) => svg ++ pinLabel pinName position)%string
           (Placed.absolutePins layoutData) svg)
      layout svg in
  let svg : string :=
    svg ++
    "  </g>" ++ nl ++
    "  " ++ nl ++
    "  <!-- Legend -->" ++ nl ++
    q "  <g id=`legend` transform=`translate(20, " ++ Number_toString (canvasHeight - 120) ++ q ")`>" ++ nl ++
    q "    <rect x=`-10` y=`-10` width=`400` height=`110` fill=`#FFFFFF` stroke=`#333` stroke-width=`2` rx=`5`/>" ++ nl ++
    q "    <text x=`0` y=`5` font-size=`14` font-weight=`bold` fill=`#333`>Wire Color Guide:</text>" ++ nl ++
    "    " ++ nl ++
    q "    <line x1=`0` y1=`25` x2=`50` y2=`25` stroke=`#FF0000` stroke-width=`4`/>" ++ nl ++
    q "    <text x=`60` y=`30` font-size=`12` fill=`#333`>Power (VIN, 5V, VCC)</text>" ++ nl ++
    "    " ++ nl ++
    q "    <line x1=`0` y1=`45` x2=`50` y2=`45` stroke=`#000000` stroke-width=`4`/>" ++ nl ++
    q "    <text x=`60` y=`50` font-size=`12` fill=`#333`>Ground (GND)</text>" ++ nl ++
    "    " ++ nl ++
    q "    <line x1=`200` y1=`25` x2=`250` y2=`25` stroke=`#00FF00` stroke-width=`4`/>" ++ nl ++
    q "    <text x=`260` y=`30` font-size=`12` fill=`#333`>Digital Pins</text>" ++ nl ++
    "    " ++ nl ++
    q "    <line x1=`200` y1=`45` x2=`250` y2=`45` stroke=`#0088FF` stroke-width=`4`/>" ++ nl ++
    q "    <text x=`260` y=`50` font-size=`12` fill=`#333`>Analog Pins</text>" ++ nl ++
    "    " ++ nl ++
    q "    <line x1=`0` y1=`65` x2=`50` y2=`65` stroke=`#FFFF00` stroke-width=`4`/>" ++ nl ++
    q "    <text x=`60` y=`70` font-size=`12` fill=`#333`>Signal</text>" ++ nl ++
    "    " ++ nl ++
    q "    <line x1=`200` y1=`65` x2=`250` y2=`65` stroke=`#888888` stroke-width=`4`/>" ++ nl ++
    q "    <text x=`260` y=`70` font-size=`12` fill=`#333`>Other</text>" ++ nl ++
    "  </g>" ++ nl ++
    "  " ++ nl ++
    "  <!-- Footer -->" ++ nl ++
    q "  <text x=`" ++ Number_toString (canvasWidth / 2) ++ q "` y=`" ++ Number_toString (canvasHeight - 10) ++ q "` font-size=`10` " ++ nl ++
    q "        font-family=`Arial` text-anchor=`middle` fill=`#999`>" ++ nl ++
    "    Generated by Advanced Circuit Assembler • Using Real Component SVGs" ++ nl ++
    "  </text>" ++ nl ++
    "  " ++ nl ++
    "</svg>" in
  svg.

End Renderer.

(** ** Well-formed markup *)

(** A scanner for the part of XML that the renderer writes: the XML
    declaration and other processing instructions, comments, start tags
    with quoted attributes, empty-element tags, end tags, character data
    and references.  It checks that tags nest and balance around a single
    root element, that a comment holds no double hyphen, that character
    data and attribute values hold no raw [<] and no [&] other than the
    start of a predefined or numeric reference, and that character data
    holds no control character.  Document type declarations and CDATA
    sections, which the renderer never writes, are not accepted. *)
Module Markup.

Inductive mode : Type :=
| Content (brackets : nat)  (* character data; closing brackets just read *)
| TagOpen                   (* after "<" *)
| PI (qmark : bool)         (* inside "<?"; was the last character "?" *)
| Bang                      (* after "<!" *)
| BangDash                  (* after "<!-" *)
| Comment (dashes : nat)    (* inside a comment; hyphens just read *)
| StartName (name : string)
| Attrs (name : string)
| AttrName (name : string)
| AttrEq (name : string)
| AttrValue (name : string) (quote : ascii)
| AttrRef (name : string) (quote : ascii) (ref : string)
| AfterValue (name : string)
| SelfClose (name : string)
| EndName (name : string)
| EndSpace (name : string)
| Ref (ref : string).

Record state : Type := mkState {
  stack : list string;   (* open elements, innermost first *)
  rootDone : bool;       (* the root element has been closed *)
  current : mode
}.

Definition init : state := mkState [] false (Content 0).

Definition isSpace (c : ascii) : bool :=
  ((code c =? 32) || (code c =? 9) || (code c =? 10) || (code c =? 13))%N.

Definition isNameStart (c : ascii) : bool :=
  isUpper c || isLower c || (code c =? 95)%N || (code c =? 58)%N.

Definition isNameChar (c : ascii) : bool :=
  isNameStart c || isDigit c || (code c =? 45)%N || (code c =? 46)%N.

Definition isHex (c : ascii) : bool :=
  isDigit c || ((65 <=? code c) && (code c <=? 70))%N
            || ((97 <=? code c) && (code c <=? 102))%N.

Fixpoint all (p : ascii -> bool) (s : string) : bool :=
  match s with
  | EmptyString => true
  | String c r => p c && all p r
  end.

(** What may stand between [&] and [;]. *)
Definition validRef (r : string) : bool :=
  String.eqb r "amp" || String.eqb r "lt" || String.eqb r "gt" ||
  String.eqb r "quot" || String.eqb r "apos" ||
  match r with
  | String h (String x (String d ds)) =>
    (code h =? 35)%N &&
    (((code x =? 120)%N && all isHex (String d ds)) || all isDigit (String x (String d ds)))
  | String h (String d EmptyString) => (code h =? 35)%N && isDigit d
  | _ => false
  end.

Definition snoc (s : string) (c : ascii) : string := (s ++ String c EmptyString)%string.

(** Entering an element. *)
Definition push (st : state) (name : string) : option state :=
  if rootDone st then None
  else Some (mkState (name :: stack st) false (Content 0)).

(** Leaving the innermost element, which has to be [name]. *)
Definition pop (st : state) (name : string) : option state :=
  match stack st with
  | top :: rest =>
    if String.eqb top name
    then Some (mkState rest (match rest with [] => true | _ => false end) (Content 0))
    else None
  | [] => None
  end.

(** An empty-element tag: entered and left at once. *)
Definition pushPop (st : state) : option state :=
  if rootDone st then None
  else Some (mkState (stack st)
               (match stack st with [] => true | _ => false end) (Content 0)).

Definition goto (st : state) (m : mode) : option state :=
  Some (mkState (stack st) (rootDone st) m).

Definition step (st : state) (c : ascii) : option state :=
  let n := code c in
  match current st with
  | Content brackets =>
    if (n =? 60)%N then goto st TagOpen
    else match stack st with
    | [] => if isSpace c then goto st (Content 0) else None
    | _ :: _ =>
      if (n =? 38)%N then goto st (Ref EmptyString)
      else if (n =? 93)%N then goto st (Content (S brackets))
      else if (n =? 62)%N then
        if (2 <=? brackets)%nat then None else goto st (Content 0)
      else if (n <? 32)%N && negb (isSpace c) then None
      else goto st (Content 0)
    end
  | TagOpen =>
    if (n =? 63)%N then goto st (PI false)
    else if (n =? 33)%N then goto st Bang
    else if (n =? 47)%N then goto st (EndName EmptyString)
    else if isNameStart c then goto st (StartName (String c EmptyString))
    else None
  | PI qmark =>
    if (n =? 63)%N then goto st (PI true)
    else if (n =? 62)%N && qmark then goto st (Content 0)
    else goto st (PI false)
  | Bang => if (n =? 45)%N then goto st BangDash else None
  | BangDash => if (n =? 45)%N then goto st (Comment 0) else None
  | Comment dashes =>
    if (n =? 45)%N then
      if (2 <=? dashes)%nat then None else goto st (Comment (S dashes))
    else if (2 <=? dashes)%nat then
      if (n =? 62)%N then goto st (Content 0) else None
    else goto st (Comment 0)
  | StartName name =>
    if isNameChar c then goto st (StartName (snoc name c))
    else if isSpace c then goto st (Attrs name)
    else if (n =? 62)%N then push st name
    else if (n =? 47)%N then goto st (SelfClose name)
    else None
  | Attrs name =>
    if isSpace c then goto st (Attrs name)
    else if (n =? 62)%N then push st name
    else if (n =? 47)%N then goto st (SelfClose name)
    else if isNameStart c then goto st (AttrName name)
    else None
  | AttrName name =>
    if isNameChar c then goto st (AttrName name)
    else if (n =? 61)%N then goto st (AttrEq name)
    else None
  | AttrEq name =>
    if (n =? 34)%N || (n =? 39)%N then goto st (AttrValue name c) else None
  | AttrValue name quote =>
    if Ascii.eqb c quote then goto st (AfterValue name)
    else if (n =? 60)%N then None
    else if (n =? 38)%N then goto st (AttrRef name quote EmptyString)
    else goto st (AttrValue name quote)
  | AttrRef name quote ref =>
    if (n =? 59)%N then
      if validRef ref then goto st (AttrValue name quote) else None
    else if isNameChar c || (n =? 35)%N then goto st (AttrRef name quote (snoc ref c))
    else None
  | AfterValue name =>
    if isSpace c then goto st (Attrs name)
    else if (n =? 62)%N then push st name
    else if (n =? 47)%N then goto st (SelfClose name)
    else None
  | SelfClose name => if (n =? 62)%N then pushPop st else None
  | EndName name =>
    if isNameChar c then goto st (EndName (snoc name c))
    else if isSpace c then goto st (EndSpace name)
    else if (n =? 62)%N then pop st name
    else None
  | EndSpace name =>
    if isSpace c then goto st (EndSpace name)
    else if (n =? 62)%N then pop st name
    else None
  | Ref ref =>
    if (n =? 59)%N then
      if validRef ref then goto st (Content 0) else None
    else if isNameChar c || (n =? 35)%N then goto st (Ref (snoc ref c))
    else None
  end.

Fixpoint run (st : state) (s : string) : option state :=
  match s with
  | EmptyString => Some st
  | String c r =>
    match step st c with
    | Some st' => run st' r
    | None => None
    end
  end.

Definition accepting (st : state) : bool :=
  match current st, stack st with
  | Content _, [] => rootDone st
  | _, _ => false
  end.

Definition wellFormed (document : string) : bool :=
  match run init document with
  | Some st => accepting st
  | None => false
  end.

End Markup.

(** ** A runtime to evaluate examples with *)

(** [nodeRuntime] implements the built-ins on the inputs the examples use:
    - [toLowerCase] folds the ASCII letters and the capital omega, the one
      other cased letter of the alias table;
    - [RegExp_gi_remove] compiles a source made of literal characters and
      parenthesised groups, which covers labels written with letters,
      digits, spaces, hyphens and parentheses; a source with unbalanced
      parentheses is a [SyntaxError], as in the runtime, and a source that
      carries another operator of the pattern language is answered in the
      same way, which errs on the side of failure;
    - [parseFloat] reads a signed decimal literal with optional fraction
      and exponent, and gives its exact value: where the runtime rounds
      the literal to binary64, and reads one beyond its range as
      [Infinity], the instance keeps the rational;
    - [Number_toString] prints integers and finite decimals exactly and
      cuts other values after sixteen fractional digits;
    - [Math_sqrt] is exact on squares and otherwise correct to sixteen
      decimal places. *)
Module Node.

Fixpoint toLowerCase (s : string) : string :=
  match s with
  | EmptyString => EmptyString
  | String a r =>
    match r with
    | String b r' =>
      if ((code a =? 206) && (code b =? 169))%N
      then String (ascii_of_N 207) (String (ascii_of_N 137) (toLowerCase r'))
      else String (foldCase a) (toLowerCase r)
    | EmptyString => String (foldCase a) EmptyString
    end
  end.

(** Characters with a meaning of their own in a pattern, parentheses
    apart. *)
Definition isOperator (c : ascii) : bool :=
  existsb (fun o => (code c =? o)%N)
    [92; 94; 36; 46; 42; 43; 63; 91; 93; 123; 125; 124]%N.

(** Parentheses balance: [depth] groups are open. *)
Fixpoint balanced (depth : nat) (s : string) : bool :=
  match s with
  | EmptyString => Nat.eqb depth 0
  | String c r =>
    if (code c =? 40)%N then balanced (S depth) r
    else if (code c =? 41)%N then
      match depth with
      | O => false
      | S d => balanced d r
      end
    else balanced depth r
  end.

(** Every occurrence of the literal [lit], up to case, removed. *)
Fixpoint removeLiteral_go (fuel : nat) (lit s : string) : string :=
  match fuel with
  | O => s
  | S f =>
    match s with
    | EmptyString => EmptyString
    | String c r =>
      if startsWith (toLowerCase lit) (toLowerCase s)
      then removeLiteral_go f lit (drop (String.length lit) s)
      else String c (removeLiteral_go f lit r)
    end
  end.

Definition RegExp_gi_remove (source subject : string) : option string :=
  if Markup.all (fun c => negb (isOperator c)) source && balanced 0 source then
    match removeParens source with
    | EmptyString => Some subject
    | lit => Some (removeLiteral_go (S (String.length subject)) lit subject)
    end
  else None.

Fixpoint digitsValue (acc : Z) (s : string) : Z :=
  match s with
  | EmptyString => acc
  | String c r => digitsValue (10 * acc + Z.of_N (code c - 48)) r
  end.

Definition parseFloat (s : string) : option Q :=
  let s := trimStart s in
  let '(negative, s) :=
    match s with
    | String c r =>
      if (code c =? 45)%N then (true, r)
      else if (code c =? 43)%N then (false, r)
      else (false, s)
    | EmptyString => (false, s)
    end in
  let whole := takeDigits s in
  let s := drop (String.length whole) s in
  let '(fraction, s) :=
    match s with
    | String c r =>
      if (code c =? 46)%N
      then (takeDigits r, drop (String.length (takeDigits r)) r)
      else (EmptyString, s)
    | EmptyString => (EmptyString, s)
    end in
  if Nat.eqb (String.length whole + String.length fraction) 0 then None
  else
    let exponent : Z :=
      match s with
      | String e r =>
        if (code (foldCase e) =? 101)%N then
          let '(negativeExp, r) :=
            match r with
            | String c r' =>
              if (code c =? 45)%N then (true, r')
              else if (code c =? 43)%N then (false, r')
              else (false, r)
            | EmptyString => (false, r)
            end in
          match takeDigits r with
          | EmptyString => 0%Z
          | d => if negativeExp then (- digitsValue 0 d)%Z else digitsValue 0 d
          end
        else 0%Z
      | EmptyString => 0%Z
      end in
    let mantissa :=
      inject_Z (digitsValue 0 (whole ++ fraction)) /
      inject_Z (10 ^ Z.of_nat (String.length fraction)) in
    let magnitude :=
      if (0 <=? exponent)%Z
      then mantissa * inject_Z (10 ^ exponent)
      else mantissa / inject_Z (10 ^ (- exponent)) in
    Some (Qred (if negative then - magnitude else magnitude)).

Fixpoint natDigits (fuel : nat) (n : Z) (acc : string) : string :=
  match fuel with
  | O => acc
  | S f =>
    let acc := String (ascii_of_N (Z.to_N (48 + n mod 10))) acc in
    if (n <? 10)%Z then acc else natDigits f (n / 10) acc
  end.

(** Decimal digits of a natural number. *)
Definition printNat (n : Z) : string :=
  natDigits (S (Z.to_nat (Z.log2 n))) n EmptyString.

(** Digits of [num / den] after the decimal point, for [0 <= num < den]. *)
Fixpoint fractionDigits (fuel : nat) (num den : Z) : string :=
  match fuel with
  | O => EmptyString
  | S f =>
    if (num =? 0)%Z then EmptyString
    else
      String (ascii_of_N (Z.to_N (48 + (10 * num) / den)))
             (fractionDigits f ((10 * num) mod den) den)
  end.

Definition Number_toString (v : Q) : string :=
  let v := Qred v in
  let num := Z.abs (Qnum v) in
  let den := Zpos (Qden v) in
  let sign := if (Qnum v <? 0)%Z then "-" else "" in
  let whole := printNat (num / den) in
  match fractionDigits 16 (num mod den) den with
  | EmptyString => sign ++ whole
  | digits => sign ++ whole ++ "." ++ digits
  end.

Definition Math_sqrt (v : Q) : Q :=
  let v := Qred v in
  let den := Zpos (Qden v) in
  Qred (Qmake (Z.sqrt (Qnum v * den * 10 ^ 32)) (Z.to_pos (den * 10 ^ 16))).

End Node.

#[export] Instance nodeRuntime : JSRuntime := {|
  toLowerCase := Node.toLowerCase;
  RegExp_gi_remove := Node.RegExp_gi_remove;
  parseFloat := Node.parseFloat;
  Number_toString := Node.Number_toString;
  Math_sqrt := Node.Math_sqrt
|}.

(** ** The whole request *)

(** The directory of component artwork as the assembler sees it: the names
    of the folders, in the order [readdir] lists them, and for each folder
    the text of the first file whose name ends in [.svg], if the folder has
    one and it can be read. *)
Record FileSystem : Type := {
  folders : list string;
  svgFile : string -> option string
}.

(** [componentNameMap]; [None] is the [null] of the labels that have no
    artwork. *)
Definition componentNameMap : Map (option string) :=
  [("Arduino Nano", Some "arduino_nano");
   ("Arduino", Some "arduino_nano");
   ("Arduino Uno", Some "arduino_uno");
   ("HC-SR04 Ultrasonic Sensor", Some "hc_sr04");
   ("HC-SR04", Some "hc_sr04");
   ("Ultrasonic Sensor", Some "hc_sr04");
   ("LED (Red)", Some "led_red");
   ("Red LED", Some "led_red");
   ("LED Red", Some "led_red");
   ("LED (Green)", Some "led_green");
   ("Green LED", Some "led_green");
   ("LED Green", Some "led_green");
   ("Two 220Ω Resistors", Some "resistor_220");
   ("Resistor (220Ω)", Some "resistor_220");
   ("220Ω Resistor", Some "resistor_220");
   ("220 Ohm Resistor", Some "resistor_220");
   ("Resistor", Some "resistor_220");
   ("9V Battery", Some "battery_9v");
   ("Battery", Some "battery_9v");
   ("9V", Some "battery_9v");
   ("Jumper Wires", None);
   ("Wires", None);
   ("Connecting Wires", None)].

(** Property names every object inherits: [in] finds them in
    [componentNameMap] too, with a value that is no string, and the failed
    call of [toLowerCase] on it is caught and answered with [null]. *)
Definition inheritedProperties : list string :=
  ["constructor"; "hasOwnProperty"; "isPrototypeOf"; "propertyIsEnumerable";
   "toLocaleString"; "toString"; "valueOf"; "__proto__";
   "__defineGetter__"; "__defineSetter__"; "__lookupGetter__";
   "__lookupSetter__"].

Section Request.

Context {RT : JSRuntime}.

Definition findComponentFolder (folders : list string) (componentName : string)
    : option string :=
  if existsb (String.eqb componentName) inheritedProperties then None
  else
    let mapped :=
      match Map_get componentNameMap componentName with
      | Some None => None
      | Some (Some mappedName) => if truthy mappedName then Some mappedName else None
      | None => Some componentName
      end in
    match mapped with
    | None => None
    | Some componentName =>
      let normalized :=
        trim (collapseUnderscores
                (removeParensOmega
                   (replaceAll "-" "_"
                      (underscoreSpaces (toLowerCase componentName))))) in
      find (fun folder =>
              let folderNormalized :=
                collapseUnderscores (replaceAll "-" "_" (toLowerCase folder)) in
              String.eqb folderNormalized normalized ||
              includes folderNormalized normalized ||
              includes normalized folderNormalized)
           folders
    end.

(** The artwork [loadComponentSVGs] reads for a label; [None] in the cases
    in which its loop moves on without storing anything: the label is
    mapped to [null], no folder is found for it, or the folder gives no SVG
    text. *)
Definition artworkFor (fs : FileSystem) (componentName : string) : option string :=
  match Map_get componentNameMap componentName with
  | Some None => None
  | _ =>
    match findComponentFolder (folders fs) componentName with
    | None => None
    | Some componentFolderName =>
      if truthy componentFolderName then svgFile fs componentFolderName else None
    end
  end.

Definition loadComponentSVGs (fs : FileSystem)
    (componentsUsed : list string) (loadedComponents : Map ComponentSVGData.t)
    : Map ComponentSVGData.t :=
  fold_left
    (fun loadedComponents componentName =>
       match artworkFor fs componentName with
       | Some svgContent =>
         Map_set loadedComponents componentName
           (parseSVG componentName svgContent)
       | None => loadedComponents
       end)
    componentsUsed loadedComponents.

(** [generateCircuit], up to the document it returns; writing the
    document to [outputPath] is left out.  [loadedComponents] is the
    cache of the instance as the call finds it. *)
Definition generateCircuit (fs : FileSystem)
    (loadedComponents : Map ComponentSVGData.t)
    (circuitName : string) (componentsUsed connections : list string)
    : Completion string :=
  let loadedComponents :=
    loadComponentSVGs fs componentsUsed loadedComponents in
  let layout := layoutComponents loadedComponents componentsUsed in
  wires <- parseConnections connections layout ;;
  Normal (assembleFinalSVG circuitName layout wires).

End Request.

(** ** The usage example of the source file *)

Module Example.

Definition artwork : string := "<svg width='100' height='80'><rect/></svg>".

(** One folder per artwork key of [componentNameMap], each with the same
    small drawing. *)
Definition fileSystem : FileSystem := {|
  folders := ["arduino_nano"; "arduino_uno"; "battery_9v"; "hc_sr04";
              "led_green"; "led_red"; "resistor_220"];
  svgFile := fun _ => Some artwork
|}.

Definition componentsUsed : list string :=
  ["Arduino Nano"; "LED (Red)"; "Resistor (220Ω)"; "9V Battery"].

Definition connections : list string :=
  ["Battery + → Arduino VIN";
   "Battery - → Arduino GND";
   "Arduino D13 → Resistor A";
   "Resistor B → LED Anode";
   "LED Cathode → Arduino GND"].

Definition loadedComponents : Map ComponentSVGData.t :=
  loadComponentSVGs fileSystem componentsUsed [].

Definition layout : Map Placed.t :=
  layoutComponents loadedComponents componentsUsed.

(** Two LEDs, as [layoutComponents] places them when they are the only
    components of a request. *)
Definition led (componentName : string) (x y : Q) : Placed.t :=
  place (parseSVG componentName artwork) x y.

Definition twoLeds : Map Placed.t :=
  [("LED (Red)", led "LED (Red)" 150 200);
   ("LED (Green)", led "LED (Green)" 150 (200 + 1 * 200))].

(** Two drawings whose size is not kept by the normalisation in binary64:
    one 265 wide, and one whose [viewBox] ends in a width beyond the range
    of binary64 ([parseSVG] reads the fourth token as the width and the
    fifth, missing here, as the height). *)
Definition wide : string := "<svg width='265' height='100'><rect/></svg>".

Definition unbounded : string := "<svg viewBox='0 0 100 1e999'><rect/></svg>".

End Example.

(** ** The vocabulary of the specification *)

(** *** Text *)

(** [sub] occurs in [s]. *)
Definition occursIn (sub s : string) : Prop :=
  exists before after : string, s = (before ++ sub ++ after)%string.

(** [s] holds the letter [letter], in either case, with a digit after it:
    the pattern of a pin such as D13 or A0. *)
Definition pinPatternIn (letter : ascii) (s : string) : Prop :=
  exists (before : string) (l d : ascii) (after : string),
    s = (before ++ String l (String d after))%string /\
    foldCase l = letter /\ isDigit d = true.

(** [document] starts with [prefix]. *)
Definition startsWithText (prefix document : string) : Prop :=
  exists rest, document = (prefix ++ rest)%string.

(** *** Wire colours *)

Definition powerKeywords : list string := ["vin"; "5v"; "3.3v"; "vcc"; "power"; "+"].
Definition groundKeywords : list string := ["gnd"; "ground"; "-"].
Definition signalKeywords : list string := ["signal"; "trig"; "echo"].

(** Some keyword of the group occurs in the text. *)
Definition mentions (keywords : list string) (conn : string) : Prop :=
  exists k, In k keywords /\ occursIn k conn.

(** The classification as the specification words it: the groups are tried
    in order and the first that applies decides. *)
Inductive classified (conn : string) : string -> Prop :=
| IsPower :
    mentions powerKeywords conn -> classified conn "#FF0000"
| IsGround :
    ~ mentions powerKeywords conn ->
    mentions groundKeywords conn -> classified conn "#000000"
| IsSignal :
    ~ mentions powerKeywords conn -> ~ mentions groundKeywords conn ->
    mentions signalKeywords conn -> classified conn "#FFFF00"
| IsDigital :
    ~ mentions powerKeywords conn -> ~ mentions groundKeywords conn ->
    ~ mentions signalKeywords conn ->
    pinPatternIn "d" conn -> classified conn "#00FF00"
| IsAnalog :
    ~ mentions powerKeywords conn -> ~ mentions groundKeywords conn ->
    ~ mentions signalKeywords conn -> ~ pinPatternIn "d" conn ->
    pinPatternIn "a" conn -> classified conn "#0088FF"
| IsOther :
    ~ mentions powerKeywords conn -> ~ mentions groundKeywords conn ->
    ~ mentions signalKeywords conn -> ~ pinPatternIn "d" conn ->
    ~ pinPatternIn "a" conn -> classified conn "#888888".

(** *** Pin table *)

(** A pin lies inside the box of its component. *)
Definition insideBox (width height : Q) (entry : string * Pos.t) : Prop :=
  0 <= Pos.x (snd entry) <= width /\ 0 <= Pos.y (snd entry) <= height.

(** The seven layouts of the pin table, by the keyword that selects them. *)
Inductive componentClass : Type :=
| Board | Led | Resistor | Battery | Ultrasonic | Switch | Generic.

Definition pinNames (c : componentClass) : list string :=
  match c with
  | Board => ["VIN"; "GND"; "5V"; "3.3V"; "D13"; "D12"; "D11"; "D10"; "A0"; "A1"]
  | Led => ["Anode"; "+"; "Cathode"; "-"]
  | Resistor => ["A"; "B"; "1"; "2"]
  | Battery => ["+"; "positive"; "-"; "negative"]
  | Ultrasonic => ["VCC"; "TRIG"; "ECHO"; "GND"]
  | Switch => ["1"; "2"; "A"; "B"]
  | Generic => ["TOP"; "BOTTOM"; "LEFT"; "RIGHT"]
  end.

(** The class a label falls in, by the order of the tests. *)
Definition classOf {RT : JSRuntime} (componentName : string) : componentClass :=
  let name := toLowerCase componentName in
  if includes name "arduino" then Board
  else if includes name "led" then Led
  else if includes name "resistor" then Resistor
  else if includes name "battery" then Battery
  else if includes name "hc-sr04" || includes name "ultrasonic" then Ultrasonic
  else if includes name "switch" || includes name "button" then Switch
  else Generic.

(** What scaling by [s] makes of one pin, and that dividing by [s] undoes it. *)
Definition scaledBy (s : Q) (original scaled : string * Pos.t) : Prop :=
  fst scaled = fst original /\
  Pos.x (snd scaled) = Pos.x (snd original) * s /\
  Pos.y (snd scaled) = Pos.y (snd original) * s /\
  Pos.x (snd scaled) / s == Pos.x (snd original) /\
  Pos.y (snd scaled) / s == Pos.y (snd original).

(** *** Layout and connections *)

(** The placed component a description is matched to: the first entry of
    the layout, in insertion order, that one of the three strategies
    accepts. *)
Definition matchedComponent {RT : JSRuntime} (pointStr : string)
    (layout : Map Placed.t) : option (string * Placed.t) :=
  find (fun '(componentName, _) => componentMatches pointStr componentName) layout.

(** The guarantee [layoutComponents] gives on each entry: its absolute
    pins are the component's pins moved by the placement offset. *)
Definition wellPlaced (layoutData : Placed.t) : Prop :=
  Placed.absolutePins layoutData =
  calculateAbsolutePins
    (ComponentSVGData.pins (Placed.component layoutData))
    (Placed.x layoutData) (Placed.y layoutData).

Definition wellPlacedLayout (layout : Map Placed.t) : Prop :=
  NoDup (map fst layout) /\
  forall componentName layoutData,
    In (componentName, layoutData) layout -> wellPlaced layoutData.

(** The wires a line contributes: one or none. *)
Definition contribution {RT : JSRuntime} (layout : Map Placed.t)
    (connection : string) : list ConnectionWire.t :=
  match connectionWire connection layout with
  | Normal (Some wire) => [wire]
  | _ => []
  end.

(** No component name of the layout is rejected by the [RegExp]
    constructor. *)
Definition compilable {RT : JSRuntime} (layout : Map Placed.t) : Prop :=
  forall componentName layoutData subject,
    In (componentName, layoutData) layout ->
    RegExp_gi_remove componentName subject <> None.

(** *** Canvas and markup *)

Definition rightEdge (layoutData : Placed.t) : Q :=
  Placed.x layoutData + ComponentSVGData.width (Placed.component layoutData).

Definition bottomEdge (layoutData : Placed.t) : Q :=
  Placed.y layoutData + ComponentSVGData.height (Placed.component layoutData).

(** [extent] is the far side of the bounding box of the placements along
    one axis, the box having its near corner at the origin: no edge lies
    beyond it, and it is the origin or one of the edges. *)
Definition boundingExtent (edge : Placed.t -> Q) (layout : Map Placed.t)
    (extent : Q) : Prop :=
  0 <= extent /\
  (forall componentName layoutData,
      In (componentName, layoutData) layout -> edge layoutData <= extent) /\
  (extent == 0 \/
   exists componentName layoutData,
     In (componentName, layoutData) layout /\ extent == edge layoutData).

(** Characters that need no escaping in character data. *)
Definition plainChar (c : ascii) : bool :=
  negb (code c =? 60)%N && negb (code c =? 38)%N && negb (code c =? 62)%N &&
  ((32 <=? code c)%N || Markup.isSpace c).

Definition plainText (s : string) : Prop := Markup.all plainChar s = true.

(** The text of the empty canvas before and after the title, cut out of
    the document rendered for a title that is a single NUL. *)
Definition emptyCanvasParts : string * option string :=
  Eval vm_compute in
    breakAt (fun c => (code c =? 0)%N)
            (assembleFinalSVG (String Ascii.zero EmptyString) [] []).

Definition beforeTitle : string := fst emptyCanvasParts.

Definition afterTitle : string :=
  match snd emptyCanvasParts with
  | Some s => s
  | None => EmptyString
  end.

(** *** Escaping *)

(** One reserved character, escaped. *)
Definition escapeChar (c : ascii) : string :=
  if (code c =? 38)%N then "&amp;"
  else if (code c =? 60)%N then "&lt;"
  else if (code c =? 62)%N then "&gt;"
  else if (code c =? 34)%N then "&quot;"
  else if (code c =? 39)%N then "&apos;"
  else String c EmptyString.

(** The text escaped in one pass from left to right: the capital omega
    (bytes 206 169) becomes a numeric reference, the five reserved
    characters become their entities, everything else stays. *)
Fixpoint escaped (s : string) : string :=
  match s with
  | EmptyString => EmptyString
  | String a r =>
    match r with
    | String b r' =>
      if ((code a =? 206) && (code b =? 169))%N then "&#937;" ++ escaped r'
      else escapeChar a ++ escaped r
    | EmptyString => escapeChar a
    end
  end.

(** No control character other than tab, line feed and carriage return. *)
Definition printable (s : string) : Prop :=
  Markup.all (fun c => (32 <=? code c)%N || Markup.isSpace c) s = true.

(** The four passes that follow the omega pass. *)
Definition laterPasses (s : string) : string :=
  replaceAll "'" "&apos;"
    (replaceAll dq "&quot;" (replaceAll ">" "&gt;" (replaceAll "<" "&lt;" s))).

(** ** The caller: the file the diagram is written to (src/server.ts) *)

(** The name of the file the request handler has [generateCircuit] write
    the diagram to, inside the output directory: white space becomes an
    underscore, every character that is not a letter, a digit or an
    underscore goes, and [.svg] is added. *)
Definition diagramFilename (circuitName : string) : string :=
  (keepWordChars (underscoreSpaces circuitName) ++ ".svg")%string.

(** *** Reading references back *)

(** What a reader of the document makes of escaped text: each of the five
    predefined entity references and the numeric reference of the capital
    omega stands for its character.  [skip] counts the bytes of a reference
    just recognised that are still to be jumped over. *)
Fixpoint unescape_go (s : string) (skip : nat) : string :=
  match s with
  | EmptyString => EmptyString
  | String c r =>
    match skip with
    | S k => unescape_go r k
    | O =>
      if startsWith "&amp;" s then String "&" (unescape_go r 4)
      else if startsWith "&lt;" s then String "<" (unescape_go r 3)
      else if startsWith "&gt;" s then String ">" (unescape_go r 3)
      else if startsWith "&quot;" s then String (ascii_of_nat 34) (unescape_go r 5)
      else if startsWith "&apos;" s then String "'" (unescape_go r 5)
      else if startsWith "&#937;" s then ("Ω" ++ unescape_go r 5)%string
      else String c (unescape_go r 0)
    end
  end.

Definition unescape (s : string) : string := unescape_go s 0.

(** A character that is none of [<], [>], the double and the single
    quote. *)
Definition notReserved (c : ascii) : bool :=
  negb (code c =? 60)%N && negb (code c =? 62)%N &&
  negb (code c =? 34)%N && negb (code c =? 39)%N.

(** *** The grid *)

(** Two placements are a grid step apart along one of the axes. *)
Definition apart (a b : Placed.t) : Prop :=
  Placed.x a + spacingX <= Placed.x b \/ Placed.x b + spacingX <= Placed.x a \/
  Placed.y a + spacingY <= Placed.y b \/ Placed.y b + spacingY <= Placed.y a.

(** The rectangles of two placed components share no inner point. *)
Definition disjoint (a b : Placed.t) : Prop :=
  rightEdge a <= Placed.x b \/ rightEdge b <= Placed.x a \/
  bottomEdge a <= Placed.y b \/ bottomEdge b <= Placed.y a.

(** [d] sits in a cell of the grid that the second loop of
    [layoutComponents] has left behind when it stands at column
    [currentX], row [row]. *)
Definition placedBefore (currentY currentX row : Q) (d : Placed.t) : Prop :=
  Placed.x d + spacingX <= currentX \/
  (Placed.x d == currentX /\ Placed.y d + spacingY <= currentY + row * spacingY).

(** What the second loop of [layoutComponents] keeps true of the layout
    built so far. *)
Definition gridInvariant (loaded : Map ComponentSVGData.t)
    (currentY currentX row : Q) (layout : Map Placed.t) : Prop :=
  (row == 0 \/ row == 1 \/ row == 2) /\
  150 <= currentX /\
  (forall n d, In (n, d) layout ->
     placedBefore currentY currentX row d /\
     150 <= Placed.x d /\
     (Placed.y d == currentY \/ Placed.y d == currentY + 1 * spacingY \/
      Placed.y d == currentY + 2 * spacingY) /\
     Map_get loaded n = Some (Placed.component d)) /\
  (forall n1 d1 n2 d2,
     In (n1, d1) layout -> In (n2, d2) layout -> n1 <> n2 -> apart d1 d2).

(** Every pin of the table lies inside the box of the component. *)
Definition pinsInside (data : ComponentSVGData.t) : Prop :=
  Forall (insideBox (ComponentSVGData.width data) (ComponentSVGData.height data))
         (ComponentSVGData.pins data).

(** *** Numbers in a view box *)

(** A character of a plain decimal numeral: a digit, the point or the
    minus sign. *)
Definition isNumberChar (c : ascii) : bool :=
  isDigit c || (code c =? 46)%N || (code c =? 45)%N.

(** A non-empty run of such characters. *)
Definition numeral (t : string) : Prop :=
  t <> EmptyString /\ Markup.all isNumberChar t = true.

(** A pin lies on the border of the box of its component. *)
Definition onBorder (width height : Q) (entry : string * Pos.t) : Prop :=
  Pos.x (snd entry) == 0 \/ Pos.x (snd entry) == width \/
  Pos.y (snd entry) == 0 \/ Pos.y (snd entry) == height.

(** *** Fragments of well-formed markup *)

(** A character that may stand in an attribute value between double
    quotes as it is. *)
Definition attrChar (c : ascii) : bool :=
  negb (code c =? 34)%N && negb (code c =? 60)%N && negb (code c =? 38)%N.

Definition attrSafe (s : string) : Prop := Markup.all attrChar s = true.

(** Read in the content of the element on top of [stack], the fragment
    leaves the scanner where it was: what it opens it closes. *)
Definition neutral (stack : list string) (fragment : string) : Prop :=
  forall k, exists k',
    Markup.run (Markup.mkState stack false (Markup.Content k)) fragment =
    Some (Markup.mkState stack false (Markup.Content k')).

(** From the state [st] the scanner reads [text] and ends in the content
    of the element on top of [stack]. *)
Definition lands (st : Markup.state) (text : string)
    (stack : list string) (rootDone : bool) : Prop :=
  exists k,
    Markup.run st text = Some (Markup.mkState stack rootDone (Markup.Content k)).

(** A piece of a template that can follow text in element content: it is
    not empty and does not begin with [>] or a closing bracket, the two
    characters at which the scanner looks back at what it has read. *)
Definition opensPiece (piece : string) : bool :=
  match piece with
  | String c _ => negb (code c =? 62)%N && negb (code c =? 93)%N
  | EmptyString => false
  end.

(** What [embedComponentSVG] keeps of the artwork: the text without the
    XML declaration, the document type, the opening and the closing [svg]
    tag, trimmed. *)
Definition innerArtwork (svgContent : string) : string :=
  trim (replaceAll "</svg>" ""
          (removeTag "<svg" false
             (removeTag "<!DOCTYPE" false (removeTag "<?xml" true svgContent)))).

(** The text of a comment: no two hyphens in a row. *)
Fixpoint hyphensApart (afterHyphen : bool) (s : string) : bool :=
  match s with
  | EmptyString => true
  | String c r =>
    if (code c =? 45)%N then negb afterHyphen && hyphensApart true r
    else hyphensApart false r
  end.

(** A fragment that is well nested on its own: neutral inside any
    element. *)
Definition balanced (fragment : string) : Prop :=
  forall open stack, neutral (open :: stack) fragment.

(** ** Sizes and canvas in binary64 *)

(** The numbers of the program are binary64.  This module embeds, on
    floating-point numbers, the lines of [parseSVG] that fix the size of
    an artwork and the lines of [assembleFinalSVG] that fix the canvas, so
    that they can be evaluated where the rational model has no value:
    on an infinite size and on NaN. *)
Module Binary64.

Local Open Scope float_scope.

(** [x || 150] on the number [x] that [parseFloat] returned: NaN, [0]
    and [-0] are falsy ([parseFloat(undefined)] is NaN). *)
Definition or150 (x : float) : float :=
  if PrimFloat.is_nan x || PrimFloat.is_zero x then 150 else x.

(** The width and height [parseSVG] returns when [parseFloat] reads [w]
    and [h] off the artwork. *)
Definition parsedSize (w h : float) : float * float :=
  normalisedSize (or150 w) (or150 h).

(** [Math.max] and [Math.min] of two numbers: NaN when either is NaN, and
    [-0] counts as smaller than [+0]. *)
Definition Math_max (a b : float) : float :=
  if PrimFloat.is_nan a || PrimFloat.is_nan b then nan
  else if a <? b then b
  else if b <? a then a
  else if PrimFloat.is_zero a then a + b
  else a.

Definition Math_min (a b : float) : float :=
  if PrimFloat.is_nan a || PrimFloat.is_nan b then nan
  else if a <? b then a
  else if b <? a then b
  else if PrimFloat.is_zero a then - (- a + - b)
  else a.

(** What the canvas loop reads of a layout entry: [layoutData.x],
    [layoutData.y], [layoutData.component.width] and
    [layoutData.component.height]. *)
Record Box : Type := mkBox {
  x : float;
  y : float;
  width : float;
  height : float
}.

(** [canvasWidth] and [canvasHeight] of [assembleFinalSVG]. *)
Definition canvasSize (layout : list Box) : float * float :=
  let '(maxX, maxY) :=
    fold_left
      (fun '(maxX, maxY) layoutData =>
         (Math_max maxX (x layoutData + width layoutData),
          Math_max maxY (y layoutData + height layoutData)))
      layout (0, 0) in
  (Math_min (maxX + 200) 2000, Math_min (maxY + 250) 1500).

End Binary64.

(** ** The earlier revision of the assembler *)

(** The repository also holds the assembler as it was before labels were
    matched case aside and by words, artwork was normalised and the canvas
    was capped.  The pin table, the wire colours, the layout engine and the
    loop of [parseConnections] are the same text in both; the resolver and
    the canvas of the earlier revision are these. *)
Module Earlier.

(** [s.replace(sub, '')] with a string for a pattern: the first occurrence
    of [sub] goes. *)
Fixpoint removeFirst (sub s : string) : string :=
  if startsWith sub s then drop (String.length sub) s
  else match s with
  | EmptyString => EmptyString
  | String c r => String c (removeFirst sub r)
  end.

(** Test of the pin loop: one name contains the other, as written. *)
Definition pinNameMatches (pinName pin : string) : bool :=
  includes pinName pin || includes pin pinName.

(** The pin chosen inside a matched component: by name, else the first
    entry of the table. *)
Definition choosePin (pinName : string) (absolutePins : Map Pos.t)
    : option (string * Pos.t) :=
  match find (fun '(pin, _) => pinNameMatches pinName pin) absolutePins with
  | Some found => Some found
  | None => hd_error absolutePins
  end.

Fixpoint findConnectionPoint (pointStr : string) (layout : Map Placed.t)
    : option Endpoint.t :=
  match layout with
  | [] => None
  | (componentName, layoutData) :: rest =>
    if includes pointStr componentName then
      let pinName := trim (removeFirst componentName pointStr) in
      match choosePin pinName (Placed.absolutePins layoutData) with
      | Some (pin, position) =>
        Some (Endpoint.mk componentName pin (Pos.x position) (Pos.y position))
      | None => findConnectionPoint pointStr rest
      end
    else findConnectionPoint pointStr rest
  end.

(** The canvas: the bounding box of the placements, padded. *)
Definition canvasSize (layout : Map Placed.t) : Q * Q :=
  let '(maxX, maxY) :=
    fold_left
      (fun '(maxX, maxY) '(_, layoutData) =>
         (Qmax maxX (Placed.x layoutData +
                     ComponentSVGData.width (Placed.component layoutData)),
          Qmax maxY (Placed.y layoutData +
                     ComponentSVGData.height (Placed.component layoutData))))
      layout (0, 0) in
  (maxX + 100, maxY + 150).

End Earlier.

(** * Properties *)

(** ** The string primitives meet their descriptions *)

Lemma startsWith_spec (p s : string) :
  startsWith p s = true <-> exists after, s = (p ++ after)%string.
Proof.
  revert s. induction p as [|a p IH]; intros s; simpl.
  - split; [intros _; now exists s | reflexivity].
  - destruct s as [|b s].
    + split; [discriminate | intros [after H]; discriminate].
    + rewrite andb_true_iff, Ascii.eqb_eq, IH. split.
      * intros [-> [after ->]]. now exists after.
      * intros [after H]. injection H as -> ->. split; [reflexivity | now exists after].
Qed.

Lemma includes_spec (s sub : string) :
  includes s sub = true <-> occursIn sub s.
Proof.
  unfold occursIn. induction s as [|c s IH].
  - simpl. rewrite orb_false_r, startsWith_spec. split.
    + intros [after H]. now exists EmptyString, after.
    + intros [before [after H]]. destruct before; [now exists after | discriminate].
  - cbn [includes]. rewrite orb_true_iff, startsWith_spec, IH. split.
    + intros [[after H] | [before [after H]]].
      * now exists EmptyString, after.
      * exists (String c before), after. simpl. now rewrite H.
    + intros [before [after H]]. destruct before as [|b before].
      * left. now exists after.
      * right. simpl in H. injection H as _ ->. now exists before, after.
Qed.

Lemma hasLetterDigits_spec (letter : ascii) (s : string) :
  hasLetterDigits letter s = true <-> pinPatternIn letter s.
Proof.
  unfold pinPatternIn. induction s as [|a s IH].
  - simpl. split; [discriminate|].
    intros (before & l & d & after & H & _). destruct before; discriminate.
  - cbn [hasLetterDigits]. rewrite orb_true_iff, andb_true_iff, Ascii.eqb_eq, IH.
    split.
    + intros [[Hl Hd] | (before & l & d & after & H & Hl & Hd)].
      * destruct s as [|d after]; [discriminate|].
        exists EmptyString, a, d, after. auto.
      * exists (String a before), l, d, after. simpl. rewrite H. auto.
    + intros (before & l & d & after & H & Hl & Hd).
      destruct before as [|b before]; simpl in H; injection H as -> ->.
      * left. auto.
      * right. exists before, l, d, after. auto.
Qed.

(** ** Wire colours (C2) *)

Lemma mentions_existsb (keywords : list string) (conn : string) :
  existsb (includes conn) keywords = true <-> mentions keywords conn.
Proof.
  unfold mentions. rewrite existsb_exists.
  split; intros [k [Hin H]]; exists k; split; auto; now apply includes_spec.
Qed.

Lemma mentions_dec (keywords : list string) (conn : string) :
  {mentions keywords conn} + {~ mentions keywords conn}.
Proof.
  destruct (existsb (includes conn) keywords) eqn:E.
  - left. now apply mentions_existsb.
  - right. intros H. apply mentions_existsb in H. congruence.
Qed.

Lemma pinPatternIn_dec (letter : ascii) (s : string) :
  {pinPatternIn letter s} + {~ pinPatternIn letter s}.
Proof.
  destruct (hasLetterDigits letter s) eqn:E.
  - left. now apply hasLetterDigits_spec.
  - right. intros H. apply hasLetterDigits_spec in H. congruence.
Qed.

Section WireColour.

Context {RT : JSRuntime}.

Lemma getWireColor_unfold (connection : string) :
  getWireColor connection =
  let conn := toLowerCase connection in
  if existsb (includes conn) powerKeywords then "#FF0000"
  else if existsb (includes conn) groundKeywords then "#000000"
  else if existsb (includes conn) signalKeywords then "#FFFF00"
  else if hasLetterDigits "d" conn then "#00FF00"
  else if hasLetterDigits "a" conn then "#0088FF"
  else "#888888".
Proof.
  unfold getWireColor. cbn [existsb powerKeywords groundKeywords signalKeywords].
  now rewrite !orb_false_r, !orb_assoc.
Qed.

(** C2.  [getWireColor] classifies the lower-cased connection text by
    first match in the order power, ground, signal, digital pin, analog
    pin, other; in particular a text that mentions a ground keyword and
    holds a digital pin pattern, but no power keyword, is black (ground),
    not green. *)
Theorem getWireColor_first_match_wins (connection : string) :
  classified (toLowerCase connection) (getWireColor connection) /\
  (mentions groundKeywords (toLowerCase connection) ->
   pinPatternIn "d" (toLowerCase connection) ->
   ~ mentions powerKeywords (toLowerCase connection) ->
   getWireColor connection = "#000000" /\ getWireColor connection <> "#00FF00").
Proof.
  rewrite getWireColor_unfold. cbv zeta.
  set (conn := toLowerCase connection).
  assert (Hp := mentions_existsb powerKeywords conn).
  assert (Hg := mentions_existsb groundKeywords conn).
  assert (Hs := mentions_existsb signalKeywords conn).
  assert (Hd := hasLetterDigits_spec "d" conn).
  assert (Ha := hasLetterDigits_spec "a" conn).
  assert (F : forall (b : bool) (P : Prop), (b = true <-> P) -> b = false -> ~ P).
  { intros b P H E HP. apply H in HP. congruence. }
  split.
  - destruct (existsb (includes conn) powerKeywords) eqn:Ep.
    { apply IsPower. now apply Hp. }
    destruct (existsb (includes conn) groundKeywords) eqn:Eg.
    { apply IsGround; [eapply F; eauto | now apply Hg]. }
    destruct (existsb (includes conn) signalKeywords) eqn:Es.
    { apply IsSignal; [eapply F; eauto | eapply F; eauto | now apply Hs]. }
    destruct (hasLetterDigits "d" conn) eqn:Ed.
    { apply IsDigital; try (eapply F; now eauto). now apply Hd. }
    destruct (hasLetterDigits "a" conn) eqn:Ea.
    { apply IsAnalog; try (eapply F; now eauto). now apply Ha. }
    apply IsOther; eapply F; eauto.
  - intros G _ NP.
    destruct (existsb (includes conn) powerKeywords) eqn:Ep.
    { exfalso. apply NP. now apply Hp. }
    apply Hg in G. rewrite G. split; [reflexivity | discriminate].
Qed.

End WireColour.

(** The example of the specification: a ground dash next to pin D13. *)
Lemma getWireColor_first_match_wins_witness :
  mentions groundKeywords (toLowerCase "Arduino D13 → Battery -") /\
  pinPatternIn "d" (toLowerCase "Arduino D13 → Battery -") /\
  getWireColor "Arduino D13 → Battery -" = "#000000".
Proof.
  assert (G : mentions groundKeywords (toLowerCase "Arduino D13 → Battery -")).
  { apply mentions_existsb. vm_compute. reflexivity. }
  assert (D : pinPatternIn "d" (toLowerCase "Arduino D13 → Battery -")).
  { apply hasLetterDigits_spec. vm_compute. reflexivity. }
  assert (P : ~ mentions powerKeywords (toLowerCase "Arduino D13 → Battery -")).
  { intros H. apply mentions_existsb in H. vm_compute in H. discriminate. }
  split; [exact G | split; [exact D |]].
  exact (proj1 (proj2 (getWireColor_first_match_wins "Arduino D13 → Battery -") G D P)).
Defined.

(** ** Pin table (C4) *)

Lemma Qhalf_bounds (v : Q) : 0 <= v -> 0 <= v / 2 <= v.
Proof.
  intros H. unfold Qdiv.
  assert (E : / 2 == 1 # 2) by reflexivity.
  rewrite E. lra.
Qed.

Section PinTable.

Context {RT : JSRuntime}.

Lemma getComponentPinPositions_names (componentName : string) (width height : Q) :
  map fst (getComponentPinPositions componentName width height) =
  pinNames (classOf componentName).
Proof.
  unfold getComponentPinPositions, classOf. cbv zeta.
  repeat match goal with
         | |- context [if ?b then _ else _] => destruct b
         end; reflexivity.
Qed.

(** C4.  For every label and every non-negative width and height the pin
    table is non-empty and each of its pins lies in
    [0, width] x [0, height]; the table is the one of the label's class,
    whichever of the seven that is. *)
Theorem getComponentPinPositions_inside
    (componentName : string) (width height : Q) :
  0 <= width -> 0 <= height ->
  getComponentPinPositions componentName width height <> [] /\
  Forall (insideBox width height)
         (getComponentPinPositions componentName width height) /\
  map fst (getComponentPinPositions componentName width height) =
    pinNames (classOf componentName).
Proof.
  intros Hw Hh.
  split; [| split; [| apply getComponentPinPositions_names]].
  - intros E. apply (f_equal (map fst)) in E.
    rewrite getComponentPinPositions_names in E.
    destruct (classOf componentName); discriminate.
  - unfold getComponentPinPositions. cbv zeta.
    repeat match goal with
           | |- context [if ?b then _ else _] => destruct b
           end;
      cbn [Map_set String.eqb Ascii.eqb Bool.eqb];
      pose proof (Qhalf_bounds width Hw); pose proof (Qhalf_bounds height Hh);
      repeat (apply Forall_cons; [split; cbn [snd Pos.x Pos.y]; lra |]);
      apply Forall_nil.
Qed.

End PinTable.

Lemma getComponentPinPositions_inside_witness :
  0 <= 150 /\ 0 <= 120 /\
  Forall (insideBox 150 120) (getComponentPinPositions "HC-SR04" 150 120).
Proof.
  assert (W : 0 <= 150) by (unfold Qle; simpl; lia).
  assert (H : 0 <= 120) by (unfold Qle; simpl; lia).
  split; [exact W | split; [exact H |]].
  exact (proj1 (proj2 (getComponentPinPositions_inside "HC-SR04" 150 120 W H))).
Defined.

(** ** Artwork normalisation (C3) *)

Lemma Qgtb_spec (a b : Q) : Qgtb a b = true <-> b < a.
Proof.
  unfold Qgtb. rewrite negb_true_iff. split.
  - intros E. apply Qnot_le_lt. intros L. apply Qle_bool_iff in L. congruence.
  - intros L. destruct (Qle_bool a b) eqn:E; [| reflexivity].
    apply Qle_bool_iff in E. exfalso. apply (Qlt_not_le _ _ L E).
Qed.

Lemma Qgtb_false (a b : Q) : Qgtb a b = false <-> a <= b.
Proof.
  unfold Qgtb. rewrite negb_false_iff. apply Qle_bool_iff.
Qed.

Lemma Map_set_fresh {V : Type} (m : Map V) (k : string) (v : V) :
  ~ In k (map fst m) -> Map_set m k v = m ++ [(k, v)].
Proof.
  induction m as [|[k' v'] m IH]; intros H; simpl; [reflexivity|].
  destruct (String.eqb_spec k' k) as [->|N].
  - exfalso. apply H. now left.
  - rewrite IH; [reflexivity|]. intros I. apply H. now right.
Qed.

(** Copying a map entry by entry into a fresh map, changing the values on
    the way, keeps the entries in place when the keys are distinct. *)
Lemma fold_Map_set_map {V W : Type} (f : V -> W) (m : Map V) (acc : Map W) :
  NoDup (map fst acc ++ map fst m) ->
  fold_left (fun out '(k, v) => Map_set out k (f v)) m acc =
  acc ++ map (fun '(k, v) => (k, f v)) m.
Proof.
  revert acc. induction m as [|[k v] m IH]; intros acc H; simpl.
  - now rewrite app_nil_r.
  - rewrite Map_set_fresh.
    + rewrite IH.
      * now rewrite <- app_assoc.
      * rewrite map_app. simpl. rewrite <- app_assoc. exact H.
    + simpl in H. apply NoDup_remove_2 in H. intros I. apply H.
      apply in_or_app. now left.
Qed.

Lemma pinNames_NoDup (c : componentClass) : NoDup (pinNames c).
Proof.
  destruct c; simpl;
    repeat (apply NoDup_cons; [simpl; intuition discriminate |]);
    apply NoDup_nil.
Qed.

Lemma Forall2_map_same {A B : Type} (R : A -> B -> Prop) (f : A -> B) (l : list A) :
  (forall a, R a (f a)) -> Forall2 R l (map f l).
Proof.
  intros H. induction l; simpl; constructor; auto.
Qed.

Section Normalisation.

Context {RT : JSRuntime}.

Lemma scalePins_map (componentName : string) (width height s : Q) :
  scalePins s (getComponentPinPositions componentName width height) =
  map (fun '(pinName, pos) => (pinName, Pos.mk (Pos.x pos * s) (Pos.y pos * s)))
      (getComponentPinPositions componentName width height).
Proof.
  unfold scalePins.
  rewrite (fold_Map_set_map (fun pos => Pos.mk (Pos.x pos * s) (Pos.y pos * s))).
  - reflexivity.
  - simpl. rewrite getComponentPinPositions_names. apply pinNames_NoDup.
Qed.

Lemma scaleFactor_bounds (width height : Q) :
  200 < width \/ 200 < height ->
  0 < scaleFactor width height /\ scaleFactor width height <= 1 /\
  width * scaleFactor width height <= 200 /\
  height * scaleFactor width height <= 200.
Proof.
  unfold scaleFactor, MAX_WIDTH, MAX_HEIGHT.
  cbn [literal divide greaterThan Math_min exact].
  change (inject_Z 200) with 200. change (inject_Z 1) with 1. intros Hbig.
  set (scaleX := if Qgtb width 200 then 200 / width else 1).
  set (scaleY := if Qgtb height 200 then 200 / height else 1).
  assert (X : 0 < scaleX /\ scaleX <= 1 /\ width * scaleX <= 200 /\
              (200 < width -> width * scaleX == 200)).
  { unfold scaleX. destruct (Qgtb width 200) eqn:E.
    - apply Qgtb_spec in E.
      assert (P : width * (200 / width) == 200) by (field; lra).
      assert (0 < 200 / width) by (apply Qlt_shift_div_l; lra).
      assert (200 / width <= 1) by (apply Qle_shift_div_r; lra).
      repeat split; first [lra | intros _; exact P].
    - apply Qgtb_false in E. repeat split; lra. }
  assert (Y : 0 < scaleY /\ scaleY <= 1 /\ height * scaleY <= 200 /\
              (200 < height -> height * scaleY == 200)).
  { unfold scaleY. destruct (Qgtb height 200) eqn:E.
    - apply Qgtb_spec in E.
      assert (P : height * (200 / height) == 200) by (field; lra).
      assert (0 < 200 / height) by (apply Qlt_shift_div_l; lra).
      assert (200 / height <= 1) by (apply Qle_shift_div_r; lra).
      repeat split; first [lra | intros _; exact P].
    - apply Qgtb_false in E. repeat split; lra. }
  destruct X as (X0 & X1 & X2 & X3), Y as (Y0 & Y1 & Y2 & Y3).
  pose proof (Q.le_min_l scaleX scaleY) as Ml.
  pose proof (Q.le_min_r scaleX scaleY) as Mr.
  assert (M0 : 0 < Qmin scaleX scaleY) by (apply Q.min_glb_lt; assumption).
  set (s := Qmin scaleX scaleY) in *.
  assert (S1 : s <= 1) by lra.
  repeat split; try assumption.
  - destruct (Qlt_le_dec 0 width) as [Wp | Wn].
    + assert (width * s <= width * scaleX) by (apply Qmult_le_l; assumption).
      lra.
    + assert (width * s <= 0) by nra. lra.
  - destruct (Qlt_le_dec 0 height) as [Hp | Hn].
    + assert (height * s <= height * scaleY) by (apply Qmult_le_l; assumption).
      lra.
    + assert (height * s <= 0) by nra. lra.
Qed.

(** The scaling in exact arithmetic, on finite sizes.  When the intrinsic
    width or height of an artwork exceeds 200, [parseSVG] returns both sides multiplied by the
    one factor [s], the smaller of [200 / width] (or 1 when the width is
    within the bound) and [200 / height] (or 1); both results are at most
    200, every pin coordinate is multiplied by the same [s], and dividing
    a scaled coordinate by [s] gives the original back.  An artwork within
    the bound on both sides is returned as it is. *)
Theorem parseSVG_scaling (componentName svgContent : string) (width height : Q) :
  intrinsicSize svgContent = (width, height) ->
  let data := parseSVG componentName svgContent in
  let pins := getComponentPinPositions componentName width height in
  let s := Qmin (if Qgtb width 200 then 200 / width else 1)
                (if Qgtb height 200 then 200 / height else 1) in
  (200 < width \/ 200 < height ->
     0 < s /\
     ComponentSVGData.width data = width * s /\
     ComponentSVGData.height data = height * s /\
     ComponentSVGData.width data <= 200 /\
     ComponentSVGData.height data <= 200 /\
     Forall2 (scaledBy s) pins (ComponentSVGData.pins data)) /\
  (width <= 200 -> height <= 200 ->
     ComponentSVGData.width data = width /\
     ComponentSVGData.height data = height /\
     ComponentSVGData.pins data = pins).
Proof.
  intros Hsize data pins s. subst data. unfold parseSVG. rewrite Hsize.
  fold pins. split.
  - intros Hbig.
    destruct (scaleFactor_bounds width height Hbig) as (S0 & S1 & SW & SH).
    change (scaleFactor width height) with s in *.
    assert (E : oversized width height = true).
    { apply orb_true_iff. destruct Hbig; [left | right]; now apply Qgtb_spec. }
    rewrite E. cbn [ComponentSVGData.width ComponentSVGData.height ComponentSVGData.pins].
    repeat split; try assumption.
    unfold pins. rewrite scalePins_map. apply Forall2_map_same.
    intros [pinName pos]. unfold scaledBy. cbn [fst snd Pos.x Pos.y].
    repeat split; field; lra.
  - intros Hw Hh.
    assert (E : oversized width height = false).
    { apply orb_false_iff. split; now apply Qgtb_false. }
    rewrite E. cbn. auto.
Qed.

End Normalisation.

Lemma parseSVG_scaling_witness :
  intrinsicSize "<svg width='400' height='100'><rect/></svg>" = (400, 100) /\
  ComponentSVGData.width
    (parseSVG "LED (Red)" "<svg width='400' height='100'><rect/></svg>") <= 200.
Proof.
  assert (I : intrinsicSize "<svg width='400' height='100'><rect/></svg>" = (400, 100))
    by (vm_compute; reflexivity).
  split; [exact I |].
  assert (B : 200 < 400 \/ 200 < 100) by (left; unfold Qlt; simpl; lia).
  exact (proj1 (proj2 (proj2 (proj2
    (proj1 (parseSVG_scaling "LED (Red)" _ 400 100 I) B))))).
Defined.

(** ** Endpoint resolution (C10, C5) *)

Lemma Map_set_In {V : Type} (m : Map V) (k : string) (v : V) (entry : string * V) :
  In entry (Map_set m k v) -> entry = (k, v) \/ In entry m.
Proof.
  induction m as [|[k' v'] m IH]; simpl.
  - intros [<-|[]]. now left.
  - destruct (String.eqb k' k); simpl.
    + intros [<-|H]; [now left | right; now right].
    + intros [<-|H]; [right; now left |].
      destruct (IH H) as [->|I]; [now left | right; now right].
Qed.

Lemma Map_set_keys {V : Type} (m : Map V) (k : string) (v : V) :
  NoDup (map fst m) -> NoDup (map fst (Map_set m k v)).
Proof.
  induction m as [|[k' v'] m IH]; simpl; intros H.
  - constructor; [intros [] | constructor].
  - destruct (String.eqb_spec k' k) as [->|N]; simpl; [exact H|].
    inversion H as [|? ? Hn Hm]; subst. constructor; [| now apply IH].
    intros I. apply in_map_iff in I. destruct I as [[k0 v0] [E I]].
    simpl in E. subst k0. apply Map_set_In in I. destruct I as [I|I].
    + injection I as -> _. now apply N.
    + apply Hn. apply in_map_iff. now exists (k', v0).
Qed.

Lemma Map_get_In {V : Type} (m : Map V) (k : string) (v : V) :
  NoDup (map fst m) -> In (k, v) m -> Map_get m k = Some v.
Proof.
  induction m as [|[k' v'] m IH]; simpl; intros H I; [contradiction|].
  inversion H as [|? ? Hn Hm]; subst.
  destruct I as [E|I].
  - injection E as -> ->. now rewrite String.eqb_refl.
  - destruct (String.eqb_spec k' k) as [->|N]; [| now apply IH].
    exfalso. apply Hn. apply in_map_iff. now exists (k, v).
Qed.

Lemma calculateAbsolutePins_In (pins : Map Pos.t) (offsetX offsetY : Q)
    (pin : string) (position : Pos.t) :
  In (pin, position) (calculateAbsolutePins pins offsetX offsetY) ->
  exists local,
    In (pin, local) pins /\
    position = Pos.mk (offsetX + Pos.x local) (offsetY + Pos.y local).
Proof.
  unfold calculateAbsolutePins.
  assert (G : forall acc,
    In (pin, position)
       (fold_left
          (fun absolutePins '(pinName, position) =>
             Map_set absolutePins pinName
               (Pos.mk (offsetX + Pos.x position) (offsetY + Pos.y position)))
          pins acc) ->
    In (pin, position) acc \/
    exists local,
      In (pin, local) pins /\
      position = Pos.mk (offsetX + Pos.x local) (offsetY + Pos.y local)).
  { induction pins as [|[k v] pins IH]; intros acc H; simpl in H; [now left|].
    destruct (IH _ H) as [I | (local & I & E)].
    - apply Map_set_In in I. destruct I as [I|I]; [| now left].
      injection I as -> ->. right. exists v. split; [now left | reflexivity].
    - right. exists local. split; [now right | exact E]. }
  intros H. destruct (G [] H) as [[]|R]. exact R.
Qed.

Lemma wellPlacedLayout_set (layout : Map Placed.t) (componentName : string)
    (data : ComponentSVGData.t) (x y : Q) :
  wellPlacedLayout layout ->
  wellPlacedLayout (Map_set layout componentName (place data x y)).
Proof.
  intros [K W]. split; [now apply Map_set_keys|].
  intros n d I. apply Map_set_In in I. destruct I as [E|I].
  - injection E as _ ->. reflexivity.
  - now apply (W n).
Qed.

Section Resolution.

Context {RT : JSRuntime}.

Lemma placeOthers_wellPlaced loaded arduino currentY used :
  forall layout currentX row,
    wellPlacedLayout layout ->
    wellPlacedLayout (placeOthers loaded arduino currentY used layout currentX row).
Proof.
  induction used as [|c used IH]; intros layout currentX row W; simpl; [exact W|].
  destruct (match arduino with Some a => String.eqb c a | None => false end);
    [now apply IH|].
  destruct (Map_get loaded c) as [data|]; [| now apply IH].
  destruct (Qle_bool 3 (row + 1)); apply IH; now apply wellPlacedLayout_set.
Qed.

Lemma layoutComponents_wellPlaced loaded used :
  wellPlacedLayout (layoutComponents loaded used).
Proof.
  unfold layoutComponents.
  assert (E : wellPlacedLayout []) by (split; [constructor | intros ? ? []]).
  destruct (find _ used) as [a|]; [| now apply placeOthers_wellPlaced].
  destruct (truthy a); [| now apply placeOthers_wellPlaced].
  destruct (Map_get loaded a) as [data|]; apply placeOthers_wellPlaced; [| exact E].
  now apply (wellPlacedLayout_set []).
Qed.

Lemma choosePin_In (pinName : string) (absolutePins : Map Pos.t)
    (entry : string * Pos.t) :
  choosePin pinName absolutePins = Some entry -> In entry absolutePins.
Proof.
  unfold choosePin.
  destruct (find (fun '(pin, _) => pinNameMatches pinName pin) absolutePins)
    as [e1|] eqn:F1.
  { intros [= <-]. now apply find_some in F1. }
  destruct (find (fun '(pin, _) => pinDigitsMatch pinName pin) absolutePins)
    as [e2|] eqn:F2.
  { intros [= <-]. now apply find_some in F2. }
  destruct absolutePins; simpl; [discriminate|].
  intros [= <-]. now left.
Qed.

(** A returned endpoint is an entry of some placed component's table of
    absolute pins. *)
Lemma findConnectionPoint_In (pointStr : string) (layout : Map Placed.t)
    (point : Endpoint.t) :
  findConnectionPoint pointStr layout = Normal (Some point) ->
  exists layoutData,
    In (Endpoint.component point, layoutData) layout /\
    In (Endpoint.pin point, Pos.mk (Endpoint.x point) (Endpoint.y point))
       (Placed.absolutePins layoutData).
Proof.
  induction layout as [|[componentName layoutData] layout IH]; simpl.
  - discriminate.
  - assert (R : findConnectionPoint pointStr layout = Normal (Some point) ->
                exists d, ((componentName, layoutData) = (Endpoint.component point, d)
                           \/ In (Endpoint.component point, d) layout) /\
                          In (Endpoint.pin point,
                              Pos.mk (Endpoint.x point) (Endpoint.y point))
                             (Placed.absolutePins d)).
    { intros H. destruct (IH H) as (d & I & P). exists d. split; [now right | exact P]. }
    destruct (componentMatches pointStr componentName); [| exact R].
    destruct (extractPinName pointStr componentName) as [pinName|e]; simpl;
      [| discriminate].
    destruct (choosePin pinName (Placed.absolutePins layoutData))
      as [[pin position]|] eqn:C; [| exact R].
    intros [= <-]. exists layoutData. cbn. split; [now left|].
    apply choosePin_In in C. now destruct position.
Qed.

(** C10.  A point returned by [findConnectionPoint] on a layout made by
    [layoutComponents] names a component of the layout and a pin of that
    component's pin table, and its coordinates are the placement offset
    plus the pin's local coordinates, the very entry that
    [calculateAbsolutePins] stored for the pin. *)
Theorem findConnectionPoint_placed_pin
    (loadedComponents : Map ComponentSVGData.t) (componentsUsed : list string)
    (pointStr : string) (point : Endpoint.t) :
  let layout := layoutComponents loadedComponents componentsUsed in
  findConnectionPoint pointStr layout = Normal (Some point) ->
  exists (layoutData : Placed.t) (local : Pos.t),
    Map_get layout (Endpoint.component point) = Some layoutData /\
    In (Endpoint.pin point, local)
       (ComponentSVGData.pins (Placed.component layoutData)) /\
    In (Endpoint.pin point, Pos.mk (Endpoint.x point) (Endpoint.y point))
       (calculateAbsolutePins
          (ComponentSVGData.pins (Placed.component layoutData))
          (Placed.x layoutData) (Placed.y layoutData)) /\
    Endpoint.x point = Placed.x layoutData + Pos.x local /\
    Endpoint.y point = Placed.y layoutData + Pos.y local.
Proof.
  intros layout H.
  destruct (layoutComponents_wellPlaced loadedComponents componentsUsed) as [K W].
  fold layout in K, W.
  destruct (findConnectionPoint_In _ _ _ H) as (layoutData & I & P).
  specialize (W _ _ I). unfold wellPlaced in W. rewrite W in P.
  destruct (calculateAbsolutePins_In _ _ _ _ _ P) as (local & L & E).
  exists layoutData, local.
  injection E as Ex Ey.
  repeat split; auto using Map_get_In.
Qed.

(** C5.  When a description matches a placed component and the pin name
    extracted from it matches none of that component's pins, neither by
    name (equal, or one containing the other, case aside) nor by digits,
    [findConnectionPoint] does not return null: it returns the first pin of
    the component's table, with the absolute coordinates stored for it.
    The component is the one the search stops at, [matchedComponent]. *)
Theorem findConnectionPoint_falls_back_to_first_pin
    (pointStr : string) (layout : Map Placed.t)
    (componentName : string) (layoutData : Placed.t)
    (pinName firstPin : string) (position : Pos.t) :
  matchedComponent pointStr layout = Some (componentName, layoutData) ->
  extractPinName pointStr componentName = Normal pinName ->
  (forall pin p, In (pin, p) (Placed.absolutePins layoutData) ->
                 pinNameMatches pinName pin = false /\
                 pinDigitsMatch pinName pin = false) ->
  hd_error (Placed.absolutePins layoutData) = Some (firstPin, position) ->
  findConnectionPoint pointStr layout =
  Normal (Some (Endpoint.mk componentName firstPin
                  (Pos.x position) (Pos.y position))).
Proof.
  intros Hmatched Hname Hpins Hfirst.
  induction layout as [|[n d] layout IH]; simpl in *; [discriminate|].
  destruct (componentMatches pointStr n) eqn:M; [| exact (IH Hmatched)].
  injection Hmatched as -> ->.
  rewrite Hname. simpl.
  assert (C : choosePin pinName (Placed.absolutePins layoutData) =
              Some (firstPin, position)).
  { unfold choosePin.
    destruct (find (fun '(pin, _) => pinNameMatches pinName pin)
                   (Placed.absolutePins layoutData)) as [[p1 q1]|] eqn:F1.
    { apply find_some in F1. destruct F1 as [I N].
      destruct (Hpins _ _ I) as [N' _]. congruence. }
    destruct (find (fun '(pin, _) => pinDigitsMatch pinName pin)
                   (Placed.absolutePins layoutData)) as [[p2 q2]|] eqn:F2.
    { apply find_some in F2. destruct F2 as [I N].
      destruct (Hpins _ _ I) as [_ N']. congruence. }
    exact Hfirst. }
  now rewrite C.
Qed.

End Resolution.

Lemma findConnectionPoint_placed_pin_witness :
  exists point,
    findConnectionPoint "Arduino D13" Example.layout = Normal (Some point) /\
    Endpoint.pin point = "D13" /\
    Map_get Example.layout (Endpoint.component point) <> None.
Proof.
  assert (H : exists point,
             findConnectionPoint "Arduino D13"
               (layoutComponents Example.loadedComponents Example.componentsUsed) =
             Normal (Some point) /\ Endpoint.pin point = "D13")
    by (vm_compute; eexists; split; reflexivity).
  destruct H as (point & H & P).
  exists point. split; [exact H | split; [exact P |]].
  destruct (findConnectionPoint_placed_pin _ _ _ _ H) as (layoutData & local & G & _).
  unfold Example.layout. rewrite G. discriminate.
Defined.

Lemma findConnectionPoint_falls_back_to_first_pin_witness :
  exists layoutData position,
    matchedComponent "LED (Green) X" Example.twoLeds = Some ("LED (Red)", layoutData) /\
    hd_error (Placed.absolutePins layoutData) = Some ("Anode", position) /\
    findConnectionPoint "LED (Green) X" Example.twoLeds =
    Normal (Some (Endpoint.mk "LED (Red)" "Anode" (Pos.x position) (Pos.y position))).
Proof.
  pose (layoutData := Example.led "LED (Red)" 150 200).
  pose (position :=
          match hd_error (Placed.absolutePins layoutData) with
          | Some (_, p) => p
          | None => Pos.mk 0 0
          end).
  assert (M : matchedComponent "LED (Green) X" Example.twoLeds =
              Some ("LED (Red)", layoutData)) by (vm_compute; reflexivity).
  assert (F : hd_error (Placed.absolutePins layoutData) = Some ("Anode", position))
    by (vm_compute; reflexivity).
  assert (N : map fst (Placed.absolutePins layoutData) = ["Anode"; "+"; "Cathode"; "-"])
    by (vm_compute; reflexivity).
  exists layoutData, position. split; [exact M | split; [exact F |]].
  apply (findConnectionPoint_falls_back_to_first_pin
           "LED (Green) X" Example.twoLeds "LED (Red)" layoutData "X" "Anode" position).
  - exact M.
  - vm_compute. reflexivity.
  - intros pin p I. apply (in_map fst) in I. rewrite N in I. simpl in I.
    destruct I as [<-|[<-|[<-|[<-|[]]]]]; split; vm_compute; reflexivity.
  - exact F.
Defined.

(** C5 does not hold of every placed component that the description
    matches.  On the two LEDs the description
    [LED (Green) X] matches [LED (Green)], and the pin name extracted for
    it, [X], matches none of its pins by name or by digits; yet the
    search stopped at [LED (Red)], the first entry it matches, and the
    point returned is the first pin of that component, not of
    [LED (Green)]. *)
Lemma findConnectionPoint_fallback_of_first_match :
  let layoutData := Example.led "LED (Green)" 150 (200 + 1 * 200) in
  Map_get Example.twoLeds "LED (Green)" = Some layoutData /\
  componentMatches "LED (Green) X" "LED (Green)" = true /\
  extractPinName "LED (Green) X" "LED (Green)" = Normal "X" /\
  forallb (fun '(pin, _) => negb (pinNameMatches "X" pin || pinDigitsMatch "X" pin))
          (Placed.absolutePins layoutData) = true /\
  (exists position,
     hd_error (Placed.absolutePins layoutData) = Some ("Anode", position) /\
     findConnectionPoint "LED (Green) X" Example.twoLeds <>
     Normal (Some (Endpoint.mk "LED (Green)" "Anode"
                     (Pos.x position) (Pos.y position)))) /\
  (exists point,
     findConnectionPoint "LED (Green) X" Example.twoLeds = Normal (Some point) /\
     Endpoint.component point = "LED (Red)" /\
     Endpoint.pin point = "Anode" /\
     Map_get (Placed.absolutePins (Example.led "LED (Red)" 150 200)) "Anode" =
     Some (Pos.mk (Endpoint.x point) (Endpoint.y point))).
Proof.
  cbv zeta. repeat split; try (vm_compute; reflexivity).
  - eexists. split; [vm_compute; reflexivity |]. vm_compute. discriminate.
  - eexists. split; [vm_compute; reflexivity |]. repeat split; vm_compute; reflexivity.
Qed.

(** The layout of the two LEDs is the one [layoutComponents] builds. *)
Lemma Example_twoLeds_layout :
  layoutComponents
    (loadComponentSVGs Example.fileSystem ["LED (Red)"; "LED (Green)"] [])
    ["LED (Red)"; "LED (Green)"] = Example.twoLeds.
Proof.
  vm_compute. reflexivity.
Qed.

(** The end-to-end scenario of the specification: four components are
    placed and the five lines give five wires, the first red, the second
    black. *)
Lemma Example_usage :
  map fst Example.layout = Example.componentsUsed /\
  match parseConnections Example.connections Example.layout with
  | Normal wires =>
    map (fun wire =>
           (Endpoint.component (ConnectionWire.from wire),
            Endpoint.pin (ConnectionWire.from wire),
            Endpoint.component (ConnectionWire.to wire),
            Endpoint.pin (ConnectionWire.to wire),
            ConnectionWire.color wire)) wires =
    [("9V Battery", "+", "Arduino Nano", "VIN", "#FF0000");
     ("9V Battery", "-", "Arduino Nano", "GND", "#000000");
     ("Arduino Nano", "D13", "Resistor (220Ω)", "A", "#00FF00");
     ("Resistor (220Ω)", "B", "LED (Red)", "Anode", "#888888");
     ("LED (Red)", "Cathode", "Arduino Nano", "GND", "#000000")]
  | Throw _ => False
  end.
Proof.
  vm_compute. split; reflexivity.
Qed.

(** The labels of the usage example find their folders, and jumper wires
    have none. *)
Lemma Example_folders :
  map (findComponentFolder (folders Example.fileSystem))
      ["Arduino Nano"; "LED (Red)"; "Resistor (220Ω)"; "9V Battery";
       "Jumper Wires"; "Potentiometer"] =
  [Some "arduino_nano"; Some "led_red"; Some "resistor_220"; Some "battery_9v";
   None; None].
Proof.
  vm_compute. reflexivity.
Qed.

(** ** Connection lines (C1) *)

Section Connections.

Context {RT : JSRuntime}.

Lemma isNonConnection_spec (connection : string) :
  isNonConnection connection = true <->
  mentions ["upload"; "code"; "program"] (toLowerCase connection).
Proof.
  rewrite <- mentions_existsb. unfold isNonConnection. simpl.
  now rewrite orb_false_r, orb_assoc.
Qed.

(** A line yields a wire exactly when it carries no annotation keyword,
    splits in two at the arrow, and both trimmed parts resolve; the wire
    is then made of the two points, the colour of the line and the line
    itself. *)
Lemma connectionWire_emits_iff (connection : string) (layout : Map Placed.t)
    (wire : ConnectionWire.t) :
  connectionWire connection layout = Normal (Some wire) <->
  ~ mentions ["upload"; "code"; "program"] (toLowerCase connection) /\
  exists part0 part1 fromPoint toPoint,
    split "→" connection = [part0; part1] /\
    findConnectionPoint (trim part0) layout = Normal (Some fromPoint) /\
    findConnectionPoint (trim part1) layout = Normal (Some toPoint) /\
    wire = ConnectionWire.mk fromPoint toPoint (getWireColor connection) connection.
Proof.
  unfold connectionWire. rewrite <- isNonConnection_spec.
  destruct (isNonConnection connection).
  { split; [discriminate | intros [N _]; now elim N]. }
  destruct (split "→" connection) as [|part0 [|part1 [|part2 rest]]]; simpl;
    try (split; [discriminate | intros [_ (? & ? & ? & ? & E & _)]; discriminate]).
  destruct (findConnectionPoint (trim part0) layout) as [[fromPoint|]|e] eqn:F;
    destruct (findConnectionPoint (trim part1) layout) as [[toPoint|]|e'] eqn:T;
    simpl;
    try (split; [discriminate |
                 intros [_ (p0 & p1 & f & t & E & Hf & Ht & _)];
                 injection E as <- <-; congruence]).
  split.
  - intros [= <-]. split; [discriminate|].
    exists part0, part1, fromPoint, toPoint. auto.
  - intros [_ (p0 & p1 & f & t & E & Hf & Ht & ->)].
    injection E as <- <-. congruence.
Qed.

(** When every line completes normally, so does the loop, and the wires
    are the contributions of the lines in order. *)
Lemma parseConnections_from_total (connections : list string)
    (layout : Map Placed.t) :
  (forall connection, In connection connections ->
                      connectionWire connection layout <> Throw SyntaxError) ->
  forall wires,
    parseConnections_from wires connections layout =
    Normal (wires ++ flat_map (contribution layout) connections).
Proof.
  induction connections as [|c connections IH]; intros H wires; simpl.
  - now rewrite app_nil_r.
  - unfold contribution at 1.
    destruct (connectionWire c layout) as [[wire|]|[]] eqn:E; simpl.
    + rewrite IH; [now rewrite <- app_assoc | intros; apply H; now right].
    + rewrite IH; [reflexivity | intros; apply H; now right].
    + exfalso. apply (H c); [now left | exact E].
Qed.

Lemma findConnectionPoint_no_throw (pointStr : string) (layout : Map Placed.t) :
  compilable layout -> findConnectionPoint pointStr layout <> Throw SyntaxError.
Proof.
  induction layout as [|[componentName layoutData] layout IH]; intros C; simpl.
  - discriminate.
  - assert (R : findConnectionPoint pointStr layout <> Throw SyntaxError).
    { apply IH. intros n d s I. apply (C n d s). now right. }
    destruct (componentMatches pointStr componentName); [| exact R].
    unfold extractPinName.
    destruct (RegExp_gi_remove componentName pointStr) eqn:E.
    + simpl. destruct (choosePin _ _) as [[pin position]|]; [discriminate | exact R].
    + exfalso. apply (C componentName layoutData pointStr); [now left | exact E].
Qed.

(** With component names that compile, [parseConnections] raises no
    error and returns, line by line, the wires of [connectionWire]. *)
Lemma parseConnections_compilable (connections : list string)
    (layout : Map Placed.t) :
  compilable layout ->
  parseConnections connections layout =
  Normal (flat_map (contribution layout) connections).
Proof.
  intros C. unfold parseConnections.
  rewrite parseConnections_from_total; [reflexivity|].
  intros connection _. unfold connectionWire.
  destruct (isNonConnection connection); [discriminate|].
  destruct (map trim (split "→" connection)) as [|part0 [|part1 [|part2 rest]]];
    try discriminate.
  pose proof (findConnectionPoint_no_throw part0 layout C) as F.
  pose proof (findConnectionPoint_no_throw part1 layout C) as T.
  destruct (findConnectionPoint part0 layout) as [[f|]|[]];
    destruct (findConnectionPoint part1 layout) as [[t|]|[]];
    simpl; congruence.
Qed.

End Connections.

(** C1, at the failing input.  The label [LED (Red] is loaded like any
    other (its normalised form is the name of the folder [led_red]) and
    placed;
    a line whose description matches it makes [findConnectionPoint] compile
    the label as a regular expression, the constructor throws, and the
    error leaves [parseConnections] and [generateCircuit]: the line yields
    no wire, but not silently, and the wire of the well-formed line before
    it is lost with it. *)
Theorem parseConnections_unbalanced_label_throws :
  let componentsUsed := ["Arduino Nano"; "LED (Red"] in
  let connections := ["Arduino D13 → Arduino GND"; "LED (Red Anode → Arduino GND"] in
  let layout :=
    layoutComponents (loadComponentSVGs Example.fileSystem componentsUsed [])
                     componentsUsed in
  findComponentFolder (folders Example.fileSystem) "LED (Red" = Some "led_red" /\
  map fst layout = componentsUsed /\
  isNonConnection "LED (Red Anode → Arduino GND" = false /\
  split "→" "LED (Red Anode → Arduino GND" = ["LED (Red Anode "; " Arduino GND"] /\
  findConnectionPoint "LED (Red Anode" layout = Throw SyntaxError /\
  parseConnections connections layout = Throw SyntaxError /\
  generateCircuit Example.fileSystem [] "Blink" componentsUsed connections =
    Throw SyntaxError.
Proof.
  vm_compute. repeat split; reflexivity.
Qed.

(** ** Binary64 (C3) *)

(** The sides of the parsed component are [normalisedSize] of the intrinsic
    ones, taken in the rationals. *)
Lemma parseSVG_normalisedSize {RT : JSRuntime} (componentName svgContent : string) :
  (ComponentSVGData.width (parseSVG componentName svgContent),
   ComponentSVGData.height (parseSVG componentName svgContent)) =
  normalisedSize (fst (intrinsicSize svgContent)) (snd (intrinsicSize svgContent)).
Proof.
  unfold parseSVG, normalisedSize.
  destruct (intrinsicSize svgContent) as [width height]. cbn [fst snd].
  destruct (oversized width height); reflexivity.
Qed.

(** C3, at two failing inputs, on the binary64 numbers of the program.
    An artwork 265 wide and 100 high is oversized, its factor is
    [200 / 265], and the new width [265 * (200 / 265)], rounded to
    binary64, is the number after 200: the width returned exceeds
    [MAX_WIDTH].  An artwork whose width [parseFloat] reads as [Infinity]
    (and whose height is missing, hence 150) is oversized, its factor is
    [200 / Infinity], which is 0, and the size returned is NaN by 0: the
    width is not a number, so it is not at most [MAX_WIDTH], and nothing
    divided by the factor gives a coordinate back. *)
Theorem normalisedSize_binary64_exceeds_bound :
  (let width : float := literal 265 in
   let height : float := literal 100 in
   intrinsicSize Example.wide = (265, 100)%Q /\
   oversized width height = true /\
   fst (normalisedSize width height) = 0x1.9000000000001p+7%float /\
   PrimFloat.leb (fst (normalisedSize width height)) MAX_WIDTH = false) /\
  (let width : float := Binary64.or150 infinity in
   let height : float := Binary64.or150 nan in
   option_map split_ws (viewBoxMatch Example.unbounded) =
     Some ["0"; "0"; "100"; "1e999"] /\
   width = infinity /\ height = literal 150 /\
   oversized width height = true /\
   scaleFactor width height = literal 0 /\
   Binary64.parsedSize infinity nan = (nan, literal 0) /\
   PrimFloat.leb (fst (Binary64.parsedSize infinity nan)) MAX_WIDTH = false /\
   PrimFloat.is_nan
     (divide (fst (Binary64.parsedSize infinity nan)) (scaleFactor width height)) = true).
Proof.
  vm_compute. repeat split; reflexivity.
Qed.

(** ** The canvas (C7) *)

Lemma append_assoc (a b c : string) : ((a ++ b) ++ c = a ++ (b ++ c))%string.
Proof.
  induction a as [|x a IH]; simpl; [reflexivity | now rewrite IH].
Qed.

Lemma startsWithText_append (prefix document more : string) :
  startsWithText prefix document -> startsWithText prefix (document ++ more).
Proof.
  intros [rest ->]. exists (rest ++ more)%string. apply append_assoc.
Qed.

Lemma startsWithText_fold {A : Type} (step : string -> A -> string) (l : list A)
    (prefix : string) :
  (forall svg a, startsWithText prefix svg -> startsWithText prefix (step svg a)) ->
  forall document,
    startsWithText prefix document ->
    startsWithText prefix (fold_left step l document).
Proof.
  intros Hstep. induction l as [|a l IH]; intros document H; simpl; [exact H|].
  apply IH. now apply Hstep.
Qed.

Lemma foldMax_spec (edge : Placed.t -> Q) (layout : Map Placed.t) (start : Q) :
  let extent := fold_left (fun m '(_, d) => Qmax m (edge d)) layout start in
  start <= extent /\
  (forall n d, In (n, d) layout -> edge d <= extent) /\
  (extent == start \/ exists n d, In (n, d) layout /\ extent == edge d).
Proof.
  revert start. induction layout as [|[n d] layout IH]; intros start; simpl.
  - split; [apply Qle_refl | split; [intros ? ? [] | left; reflexivity]].
  - destruct (IH (Qmax start (edge d))) as (L & U & A).
    pose proof (Q.le_max_l start (edge d)) as Ml.
    pose proof (Q.le_max_r start (edge d)) as Mr.
    split; [eapply Qle_trans; eauto|]. split.
    + intros n' d' [E|I]; [injection E as <- <-; eapply Qle_trans; eauto | eauto].
    + destruct A as [A | (n' & d' & I & A)].
      * destruct (Q.max_spec start (edge d)) as [[_ M]|[_ M]].
        -- right. exists n, d. split; [now left | now rewrite A, M].
        -- left. now rewrite A, M.
      * right. exists n', d'. split; [now right | exact A].
Qed.

Lemma canvas_fold_split (layout : Map Placed.t) (maxX maxY : Q) :
  fold_left
    (fun '(maxX, maxY) '(_, layoutData) =>
       (Qmax maxX (Placed.x layoutData +
                   ComponentSVGData.width (Placed.component layoutData)),
        Qmax maxY (Placed.y layoutData +
                   ComponentSVGData.height (Placed.component layoutData))))
    layout (maxX, maxY) =
  (fold_left (fun m '(_, d) => Qmax m (rightEdge d)) layout maxX,
   fold_left (fun m '(_, d) => Qmax m (bottomEdge d)) layout maxY).
Proof.
  revert maxX maxY. induction layout as [|[n d] layout IH]; intros; simpl;
    [reflexivity | apply IH].
Qed.

Section Canvas.

Context {RT : JSRuntime}.

Lemma canvasSize_spec (layout : Map Placed.t) :
  exists maxX maxY,
    boundingExtent rightEdge layout maxX /\
    boundingExtent bottomEdge layout maxY /\
    canvasSize layout = (Qmin (maxX + 200) 2000, Qmin (maxY + 250) 1500).
Proof.
  unfold canvasSize. rewrite canvas_fold_split.
  destruct (foldMax_spec rightEdge layout 0) as (Lx & Ux & Ax).
  destruct (foldMax_spec bottomEdge layout 0) as (Ly & Uy & Ay).
  do 2 eexists. split; [| split; [| reflexivity]]; repeat split; assumption.
Qed.

(** The canvas in exact arithmetic.  Whatever the layout of finite
    numbers, the canvas of [assembleFinalSVG] is the
    bounding box of the placements plus 200 in width and 250 in height,
    cut at 2000 by 1500; the document opens with an [svg] element whose
    [width] and [height] attributes are these two numbers, so neither
    exceeds its cap. *)
Theorem assembleFinalSVG_canvas_bounded (circuitName : string)
    (layout : Map Placed.t) (wires : list ConnectionWire.t) :
  exists maxX maxY canvasWidth canvasHeight,
    boundingExtent rightEdge layout maxX /\
    boundingExtent bottomEdge layout maxY /\
    canvasWidth = Qmin (maxX + 200) 2000 /\
    canvasHeight = Qmin (maxY + 250) 1500 /\
    canvasWidth <= 2000 /\ canvasHeight <= 1500 /\
    startsWithText
      (q "<?xml version=`1.0` encoding=`UTF-8`?>" ++ nl ++
       q "<svg width=`" ++ Number_toString canvasWidth ++
       q "` height=`" ++ Number_toString canvasHeight ++
       q "` xmlns=`http://www.w3.org/2000/svg`>")
      (assembleFinalSVG circuitName layout wires).
Proof.
  destruct (canvasSize_spec layout) as (maxX & maxY & Bx & By & E).
  exists maxX, maxY, (Qmin (maxX + 200) 2000), (Qmin (maxY + 250) 1500).
  split; [exact Bx |]. split; [exact By |].
  split; [reflexivity |]. split; [reflexivity |].
  split; [apply Q.le_min_r |]. split; [apply Q.le_min_r |].
  unfold assembleFinalSVG. rewrite E.
  apply startsWithText_append.
  apply startsWithText_fold.
  { intros svg [componentName layoutData] H.
    apply startsWithText_fold; [| exact H].
    intros svg' [pinName position] H'. now apply startsWithText_append. }
  apply startsWithText_append.
  apply startsWithText_fold.
  { intros svg wire H. now apply startsWithText_append. }
  apply startsWithText_append.
  apply startsWithText_fold.
  { intros svg [componentName layoutData] H. now apply startsWithText_append. }
  eexists. rewrite !append_assoc. reflexivity.
Qed.

End Canvas.

(** C7, at the failing input, on the binary64 numbers of the program.
    The artwork [Example.unbounded], whose [viewBox] is [0 0 100 1e999],
    has the token [1e999] for a width, which [parseFloat] reads as
    [Infinity], and no token for a height; [parseSVG] returns it NaN wide and
    0 high.  Placed at (150, 200), the first position of the layout, its
    right edge [150 + NaN] is NaN, [Math.max(0, NaN)] is NaN, and the
    canvas width [Math.min(NaN + 200, 2000)] is NaN: the cap does not hold
    it at 2000, and the document opens with a [width] attribute that is
    not a number.  The height is 450. *)
Theorem canvasSize_binary64_not_a_number :
  let size := Binary64.parsedSize infinity nan in
  let layout := [Binary64.mkBox 150 200 (fst size) (snd size)] in
  option_map split_ws (viewBoxMatch Example.unbounded) =
    Some ["0"; "0"; "100"; "1e999"] /\
  size = (nan, 0%float) /\
  Binary64.canvasSize layout = (nan, 450%float) /\
  PrimFloat.leb (fst (Binary64.canvasSize layout)) 2000 = false.
Proof.
  vm_compute. repeat split; reflexivity.
Qed.

(** ** Escaping (C6, C8) *)

(** C6, at the failing input.  A component named [LED Red <R&D>] (it
    loads from the folder [led_red]), a wire labelled with it and the title
    [Fan & <Motor>]: the name and the label reach the document escaped, the
    title reaches it as it is, and the document is not well-formed; it
    would be, had the title gone through the same chain of replacements. *)
Theorem assembleFinalSVG_title_not_escaped :
  let componentsUsed := ["LED Red <R&D>"] in
  let connections := ["LED Red <R&D> + → LED Red <R&D> -"] in
  let layout :=
    layoutComponents (loadComponentSVGs Example.fileSystem componentsUsed [])
                     componentsUsed in
  map fst layout = componentsUsed /\
  match parseConnections connections layout with
  | Throw _ => False
  | Normal wires =>
    List.length wires = 1%nat /\
    let document := assembleFinalSVG "Fan & <Motor>" layout wires in
    generateCircuit Example.fileSystem [] "Fan & <Motor>" componentsUsed connections =
      Normal document /\
    includes document "<!-- Component: LED Red &lt;R&amp;D&gt; -->" = true /\
    includes document
      "<!-- Wire: LED Red &lt;R&amp;D&gt; + → LED Red &lt;R&amp;D&gt; - -->" = true /\
    includes document
      (q "fill=`#333`>" ++ nl ++ "  Fan & <Motor>" ++ nl ++ "  </text>") = true /\
    Markup.wellFormed document = false /\
    Markup.wellFormed
      (assembleFinalSVG (escapeMarkup "Fan & <Motor>") layout wires) = true
  end.
Proof.
  vm_compute. repeat split; reflexivity.
Qed.

Section EmptyLayout.

Context {RT : JSRuntime}.

Lemma loadComponentSVGs_nothing (fs : FileSystem)
    (componentsUsed : list string) (loaded : Map ComponentSVGData.t) :
  (forall c, In c componentsUsed -> artworkFor fs c = None) ->
  loadComponentSVGs fs componentsUsed loaded = loaded.
Proof.
  unfold loadComponentSVGs. revert loaded.
  induction componentsUsed as [|c l IH]; intros loaded H; simpl; [reflexivity|].
  rewrite (H c) by now left. apply IH. intros; apply H; now right.
Qed.

Lemma placeOthers_nothing arduino currentY used layout currentX row :
  placeOthers [] arduino currentY used layout currentX row = layout.
Proof.
  revert layout currentX row. induction used as [|c used IH]; intros; simpl;
    [reflexivity|].
  destruct (match arduino with Some a => String.eqb c a | None => false end);
    apply IH.
Qed.

Lemma layoutComponents_nothing (componentsUsed : list string) :
  layoutComponents [] componentsUsed = [].
Proof.
  unfold layoutComponents.
  destruct (find _ componentsUsed) as [a|]; [| apply placeOthers_nothing].
  destruct (truthy a); simpl; apply placeOthers_nothing.
Qed.

(** X1.  A request in which no label has artwork completes normally,
    whatever its connections are, and returns the document of the empty
    layout: no connection line is resolved and none raises an error. *)
Lemma generateCircuit_nothing_resolves (fs : FileSystem)
    (circuitName : string) (componentsUsed connections : list string) :
  (forall c, In c componentsUsed -> artworkFor fs c = None) ->
  generateCircuit fs [] circuitName componentsUsed connections =
  Normal (assembleFinalSVG circuitName [] []).
Proof.
  intros H. unfold generateCircuit.
  rewrite loadComponentSVGs_nothing by exact H.
  rewrite layoutComponents_nothing.
  rewrite parseConnections_compilable by (intros ? ? ? []).
  assert (E : flat_map (contribution []) connections = []).
  { induction connections as [|c l IH]; simpl; [reflexivity|].
    rewrite IH, app_nil_r. unfold contribution, connectionWire.
    destruct (isNonConnection c); [reflexivity|].
    destruct (map trim (split "→" c)) as [|p0 [|p1 [|p2 r]]]; reflexivity. }
  rewrite E. reflexivity.
Qed.

End EmptyLayout.

(** C8, at the failing input.  No component resolves, the request
    completes and returns the near-empty canvas with background, title and
    legend; the title [Sensors & LEDs] is in it as it was given, so the
    document is not well-formed. *)
Theorem generateCircuit_empty_layout_raw_title :
  let document := assembleFinalSVG "Sensors & LEDs" [] [] in
  generateCircuit Example.fileSystem [] "Sensors & LEDs"
    ["Jumper Wires"] ["Battery + → Arduino VIN"] = Normal document /\
  includes document (q "<rect width=`100%` height=`100%` fill=`#FAFAFA`/>") = true /\
  includes document (nl ++ "  Sensors & LEDs" ++ nl ++ "  </text>") = true /\
  includes document (q "<g id=`legend` transform=`translate(20, 130)`>") = true /\
  Markup.wellFormed document = false.
Proof.
  vm_compute. repeat split; reflexivity.
Qed.

(** ** The empty canvas is well-formed around a plain title *)

Lemma run_app (st : Markup.state) (a b : string) :
  Markup.run st (a ++ b) =
  match Markup.run st a with
  | Some st' => Markup.run st' b
  | None => None
  end.
Proof.
  revert st. induction a as [|c a IH]; intros st; simpl; [reflexivity|].
  destruct (Markup.step st c); [apply IH | reflexivity].
Qed.

Lemma step_plain (open : string) (stack : list string) (k : nat) (c : ascii) :
  plainChar c = true ->
  exists k',
    Markup.step (Markup.mkState (open :: stack) false (Markup.Content k)) c =
    Some (Markup.mkState (open :: stack) false (Markup.Content k')).
Proof.
  unfold plainChar, Markup.step. cbn [Markup.current Markup.stack].
  rewrite !andb_true_iff, !negb_true_iff. intros [[[L A] G] C].
  rewrite L, A, G.
  destruct (code c =? 93)%N; [eexists; reflexivity|].
  destruct (Markup.isSpace c) eqn:S.
  - rewrite andb_false_r. eexists; reflexivity.
  - rewrite orb_false_r in C. apply N.leb_le in C.
    assert (E : (code c <? 32)%N = false) by (apply N.ltb_ge; exact C).
    rewrite E. eexists; reflexivity.
Qed.

Lemma run_plain (open : string) (stack : list string) (s : string) :
  plainText s ->
  forall k, exists k',
    Markup.run (Markup.mkState (open :: stack) false (Markup.Content k)) s =
    Some (Markup.mkState (open :: stack) false (Markup.Content k')).
Proof.
  unfold plainText. induction s as [|c s IH]; simpl; intros H k.
  - now exists k.
  - apply andb_true_iff in H. destruct H as [Hc Hs].
    destruct (step_plain open stack k c Hc) as [k1 ->]. now apply IH.
Qed.

Lemma emptyCanvas_shape (circuitName : string) :
  assembleFinalSVG circuitName [] [] =
  (beforeTitle ++ circuitName ++ afterTitle)%string.
Proof.
  unfold assembleFinalSVG. cbn [fold_left].
  change (canvasSize []) with (Qmin (0 + 200) 2000, Qmin (0 + 250) 1500).
  cbv iota beta. rewrite !append_assoc.
  vm_compute. reflexivity.
Qed.

(** With no component placed, the document is well-formed whenever the
    title needs no escaping. *)
Lemma emptyCanvas_wellFormed (circuitName : string) :
  plainText circuitName ->
  Markup.wellFormed (assembleFinalSVG circuitName [] []) = true.
Proof.
  intros P. rewrite emptyCanvas_shape. unfold Markup.wellFormed.
  rewrite run_app.
  assert (B : Markup.run Markup.init beforeTitle =
              Some (Markup.mkState ["text"; "svg"] false (Markup.Content 0)))
    by (vm_compute; reflexivity).
  rewrite B. cbv beta iota. rewrite run_app.
  destruct (run_plain "text" ["svg"] circuitName P 0%nat) as [k ->].
  destruct afterTitle as [|c rest] eqn:A; [discriminate A|].
  assert (C : c = ascii_of_nat 10) by (vm_compute in A; now injection A as <- _).
  subst c. cbn [Markup.run].
  assert (S : Markup.step (Markup.mkState ["text"; "svg"] false (Markup.Content k))
                (ascii_of_nat 10) =
              Some (Markup.mkState ["text"; "svg"] false (Markup.Content 0)))
    by reflexivity.
  rewrite S.
  assert (R : rest = JSString.drop 1 afterTitle) by (rewrite A; reflexivity).
  rewrite R. vm_compute. reflexivity.
Qed.

(** ** The title reaches the document as it is *)

Lemma occursIn_here (needle document : string) :
  startsWithText needle document -> occursIn needle document.
Proof.
  intros [rest ->]. now exists EmptyString, rest.
Qed.

Lemma occursIn_skip (needle piece document : string) :
  occursIn needle document -> occursIn needle (piece ++ document).
Proof.
  intros (before & after & ->). exists (piece ++ before)%string, after.
  now rewrite append_assoc.
Qed.

Lemma occursIn_append (needle document more : string) :
  occursIn needle document -> occursIn needle (document ++ more).
Proof.
  intros (before & after & ->). exists before, (after ++ more)%string.
  now rewrite !append_assoc.
Qed.

Lemma occursIn_fold {A : Type} (step : string -> A -> string) (l : list A)
    (needle : string) :
  (forall svg a, occursIn needle svg -> occursIn needle (step svg a)) ->
  forall document,
    occursIn needle document -> occursIn needle (fold_left step l document).
Proof.
  intros Hstep. induction l as [|a l IH]; intros document H; simpl; [exact H|].
  apply IH. now apply Hstep.
Qed.

(** X2.  Whatever the circuit name, the layout and the wires, the title
    element of the document holds the circuit name character for
    character, on a line of its own before the closing tag. *)
Lemma assembleFinalSVG_title_verbatim {RT : JSRuntime} (circuitName : string)
    (layout : Map Placed.t) (wires : list ConnectionWire.t) :
  occursIn (nl ++ "  " ++ circuitName ++ nl ++ "  </text>")
           (assembleFinalSVG circuitName layout wires).
Proof.
  unfold assembleFinalSVG. destruct (canvasSize layout) as [canvasWidth canvasHeight].
  apply occursIn_append.
  apply occursIn_fold.
  { intros svg [componentName layoutData] H.
    apply occursIn_fold; [| exact H].
    intros svg' [pinName position] H'. now apply occursIn_append. }
  apply occursIn_append.
  apply occursIn_fold.
  { intros svg wire H. now apply occursIn_append. }
  apply occursIn_append.
  apply occursIn_fold.
  { intros svg [componentName layoutData] H. now apply occursIn_append. }
  repeat first
    [ solve [apply occursIn_here; eexists; rewrite !append_assoc; reflexivity]
    | apply occursIn_skip ].
Qed.

(** ** What the escaping chain produces *)

Lemma append_nil_r_string (s : string) : (s ++ "")%string = s.
Proof.
  induction s as [|c s IH]; simpl; [reflexivity | now rewrite IH].
Qed.

Lemma replaceAll_char_cons (c : ascii) (by_ : string) (x : ascii) (r : string) :
  replaceAll (String c EmptyString) by_ (String x r) =
  if Ascii.eqb c x then (by_ ++ replaceAll (String c EmptyString) by_ r)%string
  else String x (replaceAll (String c EmptyString) by_ r).
Proof.
  unfold replaceAll. simpl. now rewrite andb_true_r.
Qed.

Lemma replaceAll_char_app (c : ascii) (by_ a b : string) :
  replaceAll (String c EmptyString) by_ (a ++ b) =
  (replaceAll (String c EmptyString) by_ a ++
   replaceAll (String c EmptyString) by_ b)%string.
Proof.
  induction a as [|x a IH]; [reflexivity|].
  simpl append. rewrite !replaceAll_char_cons, IH.
  destruct (Ascii.eqb c x); [now rewrite append_assoc | reflexivity].
Qed.

Lemma replaceAll_omega_hit (by_ r : string) :
  replaceAll "Ω" by_ (String (ascii_of_N 206) (String (ascii_of_N 169) r)) =
  (by_ ++ replaceAll "Ω" by_ r)%string.
Proof. reflexivity. Qed.

Lemma eqb_code (c x : ascii) : Ascii.eqb c x = (code x =? code c)%N.
Proof.
  destruct (Ascii.eqb_spec c x) as [<-|N]; [now rewrite N.eqb_refl|].
  symmetry. apply N.eqb_neq. intros C. apply N. unfold code in C.
  apply (f_equal ascii_of_N) in C. rewrite !ascii_N_embedding in C. congruence.
Qed.

Lemma code_inj (c : ascii) (n : N) : (code c =? n)%N = true -> c = ascii_of_N n.
Proof.
  intros H. apply N.eqb_eq in H. unfold code in H.
  now rewrite <- (ascii_N_embedding c), H.
Qed.

Lemma replaceAll_omega_miss (by_ : string) (x : ascii) (r : string) :
  (code x =? 206)%N &&
  match r with String b _ => (code b =? 169)%N | EmptyString => false end = false ->
  replaceAll "Ω" by_ (String x r) = String x (replaceAll "Ω" by_ r).
Proof.
  intros H. unfold replaceAll. cbn [replaceAll_go].
  assert (E : startsWith "Ω" (String x r) =
              (code x =? 206)%N &&
              match r with String b _ => (code b =? 169)%N | EmptyString => false end).
  { cbn [startsWith]. rewrite eqb_code.
    destruct r as [|b r']; [reflexivity|].
    cbn [startsWith]. rewrite eqb_code, andb_true_r. reflexivity. }
  rewrite E, H. reflexivity.
Qed.

Lemma laterPasses_app (a b : string) :
  laterPasses (a ++ b) = (laterPasses a ++ laterPasses b)%string.
Proof.
  unfold laterPasses, dq. now rewrite !replaceAll_char_app.
Qed.

Lemma laterPasses_char (c : ascii) :
  (code c =? 38)%N = false ->
  laterPasses (String c EmptyString) = escapeChar c.
Proof.
  destruct c as [[] [] [] [] [] [] [] []]; intros H;
    first [discriminate H | vm_compute; reflexivity].
Qed.

Lemma escapeMarkup_passes (s : string) :
  escapeMarkup s =
  laterPasses (replaceAll "Ω" "&#937;" (replaceAll "&" "&amp;" s)).
Proof. reflexivity. Qed.

Lemma amp_pass_head (r : string) :
  match replaceAll "&" "&amp;" r with
  | String b _ => (code b =? 169)%N
  | EmptyString => false
  end =
  match r with
  | String b _ => (code b =? 169)%N
  | EmptyString => false
  end.
Proof.
  destruct r as [|b r]; [reflexivity|].
  change "&" with (String (ascii_of_N 38) EmptyString).
  rewrite replaceAll_char_cons.
  destruct (Ascii.eqb_spec (ascii_of_N 38) b) as [<-|N]; reflexivity.
Qed.

(** The six replacements in a row amount to one pass. *)
Lemma escapeMarkup_escaped (s : string) : escapeMarkup s = escaped s.
Proof.
  assert (G : forall n s, (String.length s <= n)%nat -> escapeMarkup s = escaped s).
  { induction n as [|n IH]; intros t L.
    { destruct t; [reflexivity | simpl in L; lia]. }
    destruct t as [|a r]; [reflexivity|].
    simpl in L. assert (Lr : (String.length r <= n)%nat) by lia.
    rewrite escapeMarkup_passes.
    change "&" with (String (ascii_of_N 38) EmptyString).
    rewrite replaceAll_char_cons.
    destruct (Ascii.eqb_spec (ascii_of_N 38) a) as [<-|Na].
    - (* an ampersand *)
      change ("&amp;" ++ ?x)%string with
        (String "&" (String "a" (String "m" (String "p" (String ";" x))))).
      rewrite !replaceAll_omega_miss by reflexivity.
      change (String "&" (String "a" (String "m" (String "p" (String ";" ?x)))))
        with ("&amp;" ++ x)%string.
      rewrite laterPasses_app.
      change (String (ascii_of_N 38) EmptyString) with "&".
      rewrite <- escapeMarkup_passes, (IH r Lr).
      destruct r; [now rewrite append_nil_r_string | reflexivity].
    - assert (Ea : (code a =? 38)%N = false).
      { destruct (code a =? 38)%N eqn:C; [| reflexivity].
        apply code_inj in C. congruence. }
      destruct ((code a =? 206)%N &&
                match r with String b _ => (code b =? 169)%N | EmptyString => false end)
        eqn:Hit.
      + (* a capital omega *)
        apply andb_true_iff in Hit. destruct Hit as [Ha Hb].
        destruct r as [|b r']; [discriminate|].
        apply code_inj in Ha, Hb. subst a b.
        rewrite replaceAll_char_cons.
        change (Ascii.eqb (ascii_of_N 38) (ascii_of_N 169)) with false. cbv iota.
        rewrite replaceAll_omega_hit, laterPasses_app.
        change (String (ascii_of_N 38) EmptyString) with "&".
        rewrite <- escapeMarkup_passes, (IH r') by (simpl in Lr; lia).
        reflexivity.
      + rewrite replaceAll_omega_miss
          by (change (String (ascii_of_N 38) EmptyString) with "&";
              rewrite amp_pass_head; exact Hit).
        change (laterPasses (String a ?x)) with
          (laterPasses (String a EmptyString ++ x)).
        rewrite laterPasses_app, (laterPasses_char a Ea).
        change (String (ascii_of_N 38) EmptyString) with "&".
        rewrite <- escapeMarkup_passes, (IH r Lr).
        destruct r as [|b r'].
        * cbn [escaped]. now rewrite append_nil_r_string.
        * change (escaped (String a (String b r'))) with
            (if (code a =? 206)%N && (code b =? 169)%N
             then "&#937;" ++ escaped r'
             else escapeChar a ++ escaped (String b r'))%string.
          change ((code a =? 206)%N && (code b =? 169)%N = false) in Hit.
          rewrite Hit. reflexivity. }
  exact (G (String.length s) s (le_n _)).
Qed.

Lemma run_escapeChar (open : string) (stack : list string) (k : nat) (c : ascii) :
  (32 <=? code c)%N || Markup.isSpace c = true ->
  exists k',
    Markup.run (Markup.mkState (open :: stack) false (Markup.Content k))
               (escapeChar c) =
    Some (Markup.mkState (open :: stack) false (Markup.Content k')).
Proof.
  intros P. unfold escapeChar.
  destruct (code c =? 38)%N eqn:E38; [exists 0%nat; reflexivity|].
  destruct (code c =? 60)%N eqn:E60; [exists 0%nat; reflexivity|].
  destruct (code c =? 62)%N eqn:E62; [exists 0%nat; reflexivity|].
  destruct (code c =? 34)%N eqn:E34; [exists 0%nat; reflexivity|].
  destruct (code c =? 39)%N eqn:E39; [exists 0%nat; reflexivity|].
  assert (Pc : plainChar c = true).
  { unfold plainChar. now rewrite E60, E38, E62, P. }
  destruct (step_plain open stack k c Pc) as [k' S].
  exists k'. cbn [Markup.run]. now rewrite S.
Qed.

(** Escaped text is character data: read inside an element, it leaves the
    scanner inside that element. *)
Lemma run_escaped (open : string) (stack : list string) (s : string) :
  printable s ->
  forall k, exists k',
    Markup.run (Markup.mkState (open :: stack) false (Markup.Content k))
               (escaped s) =
    Some (Markup.mkState (open :: stack) false (Markup.Content k')).
Proof.
  unfold printable.
  assert (G : forall n s, (String.length s <= n)%nat ->
    Markup.all (fun c => (32 <=? code c)%N || Markup.isSpace c) s = true ->
    forall k, exists k',
      Markup.run (Markup.mkState (open :: stack) false (Markup.Content k))
                 (escaped s) =
      Some (Markup.mkState (open :: stack) false (Markup.Content k'))).
  { induction n as [|n IH]; intros t L P k.
    { destruct t; [now exists k | simpl in L; lia]. }
    destruct t as [|a r]; [now exists k|].
    simpl in L. cbn [Markup.all] in P. apply andb_true_iff in P.
    destruct P as [Pa Pr].
    destruct r as [|b r'].
    - cbn [escaped]. now apply run_escapeChar.
    - change (escaped (String a (String b r'))) with
        (if (code a =? 206)%N && (code b =? 169)%N
         then "&#937;" ++ escaped r'
         else escapeChar a ++ escaped (String b r'))%string.
      destruct ((code a =? 206)%N && (code b =? 169)%N).
      + rewrite run_app.
        change (Markup.run
                  (Markup.mkState (open :: stack) false (Markup.Content k)) "&#937;")
          with (Some (Markup.mkState (open :: stack) false (Markup.Content 0))).
        cbv beta iota. apply IH.
        * simpl in L. lia.
        * cbn [Markup.all] in Pr. apply andb_true_iff in Pr. tauto.
      + rewrite run_app.
        destruct (run_escapeChar open stack k a Pa) as [k1 ->].
        apply IH; [lia | exact Pr]. }
  intros P. exact (G (String.length s) s (le_n _) P).
Qed.

(** X3.  What [embedComponentSVG] and [drawWire] put into the document
    for a name or a label is character data: the escaped form of a text
    without control characters is read by the scanner from element content
    back to element content of the same element. *)
Lemma escapeMarkup_character_data (open : string) (stack : list string)
    (s : string) (k : nat) :
  printable s ->
  exists k',
    Markup.run (Markup.mkState (open :: stack) false (Markup.Content k))
               (escapeMarkup s) =
    Some (Markup.mkState (open :: stack) false (Markup.Content k')).
Proof.
  intros P. rewrite escapeMarkup_escaped. now apply run_escaped.
Qed.

(** * Further properties of the code *)

(** ** Escaping loses nothing and leaves no reserved character *)

Lemma escaped_cons (a : ascii) (r : string) :
  escaped (String a r) =
  match r with
  | String b r' =>
    if ((code a =? 206) && (code b =? 169))%N then ("&#937;" ++ escaped r')%string
    else (escapeChar a ++ escaped r)%string
  | EmptyString => escapeChar a
  end.
Proof. destruct r; reflexivity. Qed.

(** Induction two characters at a time, as [escaped] recurses. *)
Lemma escaped_induction (P : string -> Prop) :
  P EmptyString ->
  (forall a, P (String a EmptyString)) ->
  (forall a b r,
      ((code a =? 206) && (code b =? 169))%N = true -> P r -> P (String a (String b r))) ->
  (forall a b r,
      ((code a =? 206) && (code b =? 169))%N = false ->
      P (String b r) -> P (String a (String b r))) ->
  forall s, P s.
Proof.
  intros H0 H1 Hhit Hmiss.
  assert (both : forall s, P s /\ forall a, P (String a s)).
  { induction s as [|b r [IH1 IH2]].
    - split; [exact H0 | exact H1].
    - split; [apply IH2 |].
      intros a. destruct ((code a =? 206) && (code b =? 169))%N eqn:E.
      + now apply Hhit.
      + apply Hmiss; [exact E | apply IH2]. }
  intros s. apply both.
Qed.

Lemma unescape_escapeChar (a : ascii) (t : string) :
  unescape_go (escapeChar a ++ t) 0 = String a (unescape_go t 0).
Proof.
  unfold escapeChar.
  destruct (code a =? 38)%N eqn:E38; [apply code_inj in E38; subst a; reflexivity |].
  destruct (code a =? 60)%N eqn:E60; [apply code_inj in E60; subst a; reflexivity |].
  destruct (code a =? 62)%N eqn:E62; [apply code_inj in E62; subst a; reflexivity |].
  destruct (code a =? 34)%N eqn:E34; [apply code_inj in E34; subst a; reflexivity |].
  destruct (code a =? 39)%N eqn:E39; [apply code_inj in E39; subst a; reflexivity |].
  change (String a "" ++ t)%string with (String a t).
  assert (amp : Ascii.eqb "&" a = false) by (rewrite eqb_code; exact E38).
  cbn [unescape_go startsWith]. rewrite amp. reflexivity.
Qed.

Lemma unescape_escaped (s : string) : unescape_go (escaped s) 0 = s.
Proof.
  induction s as [| a | a b r hit IH | a b r miss IH] using escaped_induction.
  - reflexivity.
  - cbn [escaped]. rewrite <- (append_nil_r_string (escapeChar a)).
    now rewrite unescape_escapeChar.
  - rewrite escaped_cons, hit.
    apply andb_true_iff in hit as [Ha Hb].
    apply code_inj in Ha, Hb. subst a b.
    change (unescape_go ("&#937;" ++ escaped r) 0)
      with ("Ω" ++ unescape_go (escaped r) 0)%string.
    now rewrite IH.
  - rewrite escaped_cons, miss, unescape_escapeChar. now rewrite IH.
Qed.

Lemma all_app (p : ascii -> bool) (a b : string) :
  Markup.all p (a ++ b) = Markup.all p a && Markup.all p b.
Proof.
  induction a as [|c a IH]; [reflexivity |].
  cbn [append Markup.all]. now rewrite IH, andb_assoc.
Qed.

Lemma escapeChar_notReserved (a : ascii) :
  Markup.all notReserved (escapeChar a) = true.
Proof.
  unfold escapeChar.
  destruct (code a =? 38)%N eqn:E38; [reflexivity |].
  destruct (code a =? 60)%N eqn:E60; [reflexivity |].
  destruct (code a =? 62)%N eqn:E62; [reflexivity |].
  destruct (code a =? 34)%N eqn:E34; [reflexivity |].
  destruct (code a =? 39)%N eqn:E39; [reflexivity |].
  cbn [Markup.all]. unfold notReserved. now rewrite E60, E62, E34, E39.
Qed.

Lemma escapeMarkup_no_reserved_all (s : string) :
  Markup.all notReserved (escapeMarkup s) = true.
Proof.
  rewrite escapeMarkup_escaped.
  induction s as [| a | a b r hit IH | a b r miss IH] using escaped_induction.
  - reflexivity.
  - apply escapeChar_notReserved.
  - rewrite escaped_cons, hit, all_app, IH. reflexivity.
  - rewrite escaped_cons, miss, all_app, escapeChar_notReserved, IH. reflexivity.
Qed.

(** X4.  The chain of six replace calls loses nothing, escapes nothing
    twice and leaves no reserved character: reading the references of the
    escaped text back gives the text that was escaped, and the escaped text
    holds no [<], no [>] and no quote of either kind, for every text. *)
Theorem escapeMarkup_round_trip (s : string) :
  unescape (escapeMarkup s) = s /\
  Markup.all notReserved (escapeMarkup s) = true.
Proof.
  split; [| apply escapeMarkup_no_reserved_all].
  unfold unescape. rewrite escapeMarkup_escaped. apply unescape_escaped.
Qed.

(** ** Maps: lookup after insertion *)

Lemma Map_set_keys_iff {V : Type} (m : Map V) (k : string) (v : V) (n : string) :
  In n (map fst (Map_set m k v)) <-> n = k \/ In n (map fst m).
Proof.
  induction m as [|[k' v'] m IH]; simpl.
  - intuition.
  - destruct (String.eqb_spec k' k) as [->|N]; simpl.
    + intuition.
    + rewrite IH. intuition.
Qed.

Lemma Map_get_Some_In {V : Type} (m : Map V) (k : string) (v : V) :
  Map_get m k = Some v -> In (k, v) m.
Proof.
  induction m as [|[k' v'] m IH]; simpl; [discriminate|].
  destruct (String.eqb_spec k' k) as [->|N].
  - intros [= ->]. now left.
  - intros H. right. now apply IH.
Qed.

Lemma Map_get_keys {V : Type} (m : Map V) (k : string) :
  Map_has m k = true <-> In k (map fst m).
Proof.
  unfold Map_has. induction m as [|[k' v'] m IH]; simpl.
  - split; [discriminate | intros []].
  - destruct (String.eqb_spec k' k) as [->|N].
    + split; [now left | reflexivity].
    + rewrite IH. split; [now right | intros [E|I]; [contradiction | exact I]].
Qed.

Lemma Map_get_set_same {V : Type} (m : Map V) (k : string) (v : V) :
  Map_get (Map_set m k v) k = Some v.
Proof.
  induction m as [|[k' v'] m IH]; simpl.
  - now rewrite String.eqb_refl.
  - destruct (String.eqb_spec k' k) as [->|N]; simpl.
    + now rewrite String.eqb_refl.
    + destruct (String.eqb_spec k' k); [contradiction | exact IH].
Qed.

Lemma Map_get_set_other {V : Type} (m : Map V) (k k' : string) (v : V) :
  k' <> k -> Map_get (Map_set m k v) k' = Map_get m k'.
Proof.
  intros N. induction m as [|[k0 v0] m IH]; simpl.
  - destruct (String.eqb_spec k k'); [congruence | reflexivity].
  - destruct (String.eqb_spec k0 k) as [->|N0]; simpl.
    + destruct (String.eqb_spec k k'); [congruence | reflexivity].
    + destruct (String.eqb_spec k0 k'); [reflexivity | exact IH].
Qed.

Lemma Map_set_hd {V : Type} (m : Map V) (k : string) (v : V) (e : string * V) :
  hd_error m = Some e -> k <> fst e -> hd_error (Map_set m k v) = Some e.
Proof.
  destruct m as [|[k' v'] m]; simpl; [discriminate|].
  intros [= <-] N. simpl in N.
  destruct (String.eqb_spec k' k); [congruence | reflexivity].
Qed.

(** ** The layout engine *)

Section Layout.

Context {RT : JSRuntime}.

Lemma placeOthers_keys loaded arduino currentY used :
  forall layout currentX row n,
    In n (map fst (placeOthers loaded arduino currentY used layout currentX row)) <->
    In n (map fst layout) \/
    (In n used /\ Map_has loaded n = true /\
     match arduino with Some a => String.eqb n a | None => false end = false).
Proof.
  induction used as [|c used IH]; intros layout currentX row n; simpl.
  - intuition.
  - destruct (match arduino with Some a => String.eqb c a | None => false end) eqn:A.
    + rewrite IH. split; intros [H | (I & L & B)]; auto.
      destruct I as [-> | I]; [congruence | auto].
    + assert (step : forall layout' currentX' row',
        (forall m, In m (map fst layout') <-> m = c /\ Map_has loaded c = true
                                               \/ In m (map fst layout)) ->
        In n (map fst (placeOthers loaded arduino currentY used layout' currentX' row')) <->
        In n (map fst layout) \/
        ((c = n \/ In n used) /\ Map_has loaded n = true /\
         match arduino with Some a => String.eqb n a | None => false end = false)).
      { intros layout' currentX' row' K. rewrite IH, K. split.
        - intros [[[-> L] | H] | (I & L & B)]; auto 6.
        - intros [H | ([-> | I] & L & B)]; auto 6. }
      destruct (Map_get loaded c) as [data|] eqn:G.
      * assert (L : Map_has loaded c = true) by (unfold Map_has; now rewrite G).
        destruct (Qle_bool 3 (row + 1)); apply step; intros m;
          rewrite Map_set_keys_iff; intuition.
      * assert (L : Map_has loaded c = false) by (unfold Map_has; now rewrite G).
        apply step. intros m. rewrite L. intuition discriminate.
Qed.

Lemma layoutComponents_keys_used loaded used n :
  In n (map fst (layoutComponents loaded used)) ->
  In n used /\ Map_has loaded n = true.
Proof.
  unfold layoutComponents.
  destruct (find (fun c => includes (toLowerCase c) "arduino") used) as [a|] eqn:F.
  - apply find_some in F. destruct F as [Fa _].
    assert (rest : forall X,
      In n (map fst (placeOthers loaded (Some a) 200 used [] X 0)) ->
      In n used /\ Map_has loaded n = true).
    { intros X I. apply placeOthers_keys in I. destruct I as [[] | (I & L & _)]. auto. }
    destruct (truthy a); [| apply rest].
    destruct (Map_get loaded a) as [data|] eqn:G; [| apply rest].
    cbv zeta. rewrite placeOthers_keys. simpl.
    intros [[<- | []] | (I & L & _)]; [| auto].
    split; [exact Fa |]. unfold Map_has. now rewrite G.
  - cbv zeta. rewrite placeOthers_keys. simpl. intros [[] | (I & L & _)]. auto.
Qed.

(** X5.  A label gets a place exactly when it is requested and its
    artwork is loaded: every key of the layout is a requested label with
    an entry in the cache, and every requested, loaded, non-empty label is
    a key of the layout. *)
Theorem layoutComponents_placed_iff
    (loadedComponents : Map ComponentSVGData.t) (componentsUsed : list string)
    (componentName : string) :
  let layout := layoutComponents loadedComponents componentsUsed in
  (In componentName (map fst layout) ->
   In componentName componentsUsed /\ Map_has loadedComponents componentName = true) /\
  (In componentName componentsUsed ->
   Map_has loadedComponents componentName = true ->
   componentName <> "" ->
   In componentName (map fst layout)).
Proof.
  split; [apply layoutComponents_keys_used |].
  intros I L N. unfold layoutComponents.
  assert (rest : forall a X,
    componentName <> a ->
    In componentName (map fst (placeOthers loadedComponents (Some a) 200
                                 componentsUsed [] X 0))).
  { intros a X D. apply placeOthers_keys. right. repeat split; auto.
    now apply String.eqb_neq. }
  destruct (find (fun c => includes (toLowerCase c) "arduino") componentsUsed)
    as [a|] eqn:F.
  - destruct (String.eqb_spec componentName a) as [<-|D].
    + assert (T : truthy componentName = true).
      { unfold truthy. apply negb_true_iff. now apply String.eqb_neq. }
      rewrite T. unfold Map_has in L.
      destruct (Map_get loadedComponents componentName) as [data|]; [| discriminate].
      cbv zeta. apply placeOthers_keys. left. now left.
    + destruct (truthy a); [| now apply rest].
      destruct (Map_get loadedComponents a) as [data|]; [| now apply rest].
      cbv zeta. apply placeOthers_keys. right. repeat split; auto.
      now apply String.eqb_neq.
  - cbv zeta. apply placeOthers_keys. right. auto.
Qed.

Lemma placeOthers_hd loaded a currentY used :
  forall layout currentX row e,
    hd_error layout = Some e -> fst e = a ->
    hd_error (placeOthers loaded (Some a) currentY used layout currentX row) = Some e.
Proof.
  induction used as [|c used IH]; intros layout currentX row e H E; simpl; [exact H|].
  destruct (String.eqb_spec c a) as [->|N]; [now apply IH|].
  destruct (Map_get loaded c) as [data|]; [| now apply IH].
  destruct (Qle_bool 3 (row + 1)); apply IH; auto; apply Map_set_hd; auto; congruence.
Qed.

(** X6.  The board comes first: when a requested label holds the word
    arduino (case aside) and the first such label is loaded, it is the
    first entry of the layout, placed at (150, 200), wherever it stands in
    the list of requested labels. *)
Theorem layoutComponents_board_first
    (loadedComponents : Map ComponentSVGData.t) (componentsUsed : list string)
    (board : string) (data : ComponentSVGData.t) :
  find (fun c => includes (toLowerCase c) "arduino") componentsUsed = Some board ->
  board <> "" ->
  Map_get loadedComponents board = Some data ->
  hd_error (layoutComponents loadedComponents componentsUsed) =
  Some (board, place data 150 200).
Proof.
  intros F N G. unfold layoutComponents. rewrite F, G.
  assert (T : truthy board = true).
  { unfold truthy. apply negb_true_iff. now apply String.eqb_neq. }
  rewrite T. cbv zeta. apply placeOthers_hd; reflexivity.
Qed.

Lemma gridInvariant_step loaded currentY currentX row layout c data :
  gridInvariant loaded currentY currentX row layout ->
  Map_get loaded c = Some data ->
  gridInvariant loaded currentY
    (if Qle_bool 3 (row + 1) then currentX + spacingX else currentX)
    (if Qle_bool 3 (row + 1) then 0 else row + 1)
    (Map_set layout c (place data currentX (currentY + row * spacingY))).
Proof.
  unfold gridInvariant, placedBefore, apart, spacingX, spacingY.
  intros (R & X & E & P) G.
  assert (new : forall n d,
    In (n, d) (Map_set layout c (place data currentX (currentY + row * 200))) ->
    (n = c /\ Placed.x d = currentX /\ Placed.y d = currentY + row * 200 /\
     Placed.component d = data) \/ In (n, d) layout).
  { intros n d I. apply Map_set_In in I. destruct I as [[= -> ->] | I]; [left | now right].
    repeat split. }
  assert (row3 : Qle_bool 3 (row + 1) = true <-> row == 2).
  { rewrite Qle_bool_iff. split; [| intros ->; lra]. destruct R as [-> | [-> | ->]]; lra. }
  split; [| split; [| split]].
  - destruct (Qle_bool 3 (row + 1)) eqn:B; [left; reflexivity |].
    destruct R as [R | [R | R]].
    + right; left. rewrite R. reflexivity.
    + right; right. rewrite R. reflexivity.
    + apply row3 in R. congruence.
  - destruct (Qle_bool 3 (row + 1)); lra.
  - intros n d I. destruct (new n d I) as [(-> & Ex & Ey & Ec) | I'].
    + rewrite Ex, Ey, Ec. repeat split; [| exact X | | exact G].
      * destruct (Qle_bool 3 (row + 1)); [left; lra | right; split; lra].
      * destruct R as [-> | [-> | ->]]; [left | right; left | right; right]; lra.
    + destruct (E n d I') as (B & Xd & Yd & Gd). repeat split; auto.
      destruct (Qle_bool 3 (row + 1)); destruct B as [B | [B1 B2]];
        first [left; lra | right; split; lra].
  - intros n1 d1 n2 d2 I1 I2 D.
    destruct (new n1 d1 I1) as [(-> & Ex1 & Ey1 & _) | I1'],
             (new n2 d2 I2) as [(-> & Ex2 & Ey2 & _) | I2'].
    + contradiction.
    + destruct (E n2 d2 I2') as ([B | [B1 B2]] & _); rewrite Ex1, Ey1.
      * right; left. lra.
      * right; right; right. lra.
    + destruct (E n1 d1 I1') as ([B | [B1 B2]] & _); rewrite Ex2, Ey2.
      * left. lra.
      * right; right; left. lra.
    + eapply P; eauto.
Qed.

Lemma placeOthers_grid loaded arduino currentY used :
  forall layout currentX row,
    gridInvariant loaded currentY currentX row layout ->
    exists currentX' row',
      gridInvariant loaded currentY currentX' row'
        (placeOthers loaded arduino currentY used layout currentX row).
Proof.
  induction used as [|c used IH]; intros layout currentX row I; simpl.
  - now exists currentX, row.
  - destruct (match arduino with Some a => String.eqb c a | None => false end);
      [now apply IH|].
    destruct (Map_get loaded c) as [data|] eqn:G; [| now apply IH].
    pose proof (gridInvariant_step _ _ _ _ _ _ _ I G) as S.
    destruct (Qle_bool 3 (row + 1)); now apply IH.
Qed.

Lemma layoutComponents_grid loaded used :
  exists currentX row,
    gridInvariant loaded 200 currentX row (layoutComponents loaded used).
Proof.
  unfold layoutComponents.
  assert (empty : gridInvariant loaded 200 150 0 []).
  { unfold gridInvariant. repeat split; try (intros; contradiction); lra. }
  destruct (find _ used) as [a|]; [| now apply placeOthers_grid].
  destruct (truthy a); [| now apply placeOthers_grid].
  destruct (Map_get loaded a) as [data|] eqn:G; [| now apply placeOthers_grid].
  apply placeOthers_grid.
  unfold gridInvariant, placedBefore, spacingX, spacingY. simpl.
  split; [left; reflexivity |]. split; [lra |]. split.
  - intros n d [[= <- <-] | []]. cbn. repeat split; try lra. exact G.
  - intros n1 d1 n2 d2 [[= <- <-] | []] [[= <- <-] | []] D. contradiction.
Qed.

(** X7.  Every placed component stands on the grid, at a column of
    x >= 150 and in one of the three rows y = 200, 400 and 600, and two
    components with different labels never share a cell: they are at least
    250 apart in x or at least 200 apart in y. *)
Theorem layoutComponents_apart
    (loadedComponents : Map ComponentSVGData.t) (componentsUsed : list string) :
  let layout := layoutComponents loadedComponents componentsUsed in
  (forall n d, In (n, d) layout ->
     150 <= Placed.x d /\
     (Placed.y d == 200 \/ Placed.y d == 400 \/ Placed.y d == 600)) /\
  (forall n1 d1 n2 d2,
     In (n1, d1) layout -> In (n2, d2) layout -> n1 <> n2 -> apart d1 d2).
Proof.
  destruct (layoutComponents_grid loadedComponents componentsUsed)
    as (X & row & _ & _ & E & P).
  split; [| exact P].
  intros n d I. destruct (E n d I) as (_ & Xd & Yd & _).
  split; [exact Xd |]. unfold spacingY in Yd.
  destruct Yd as [Y | [Y | Y]]; rewrite Y; [left | right; left | right; right]; lra.
Qed.

End Layout.

(** ** Loaded artwork *)

Section Loading.

Context {RT : JSRuntime}.

Lemma getComponentPinPositions_insideBox (componentName : string) (width height : Q) :
  0 <= width -> 0 <= height ->
  Forall (insideBox width height)
         (getComponentPinPositions componentName width height).
Proof.
  intros Hw Hh. unfold getComponentPinPositions. cbv zeta.
  repeat match goal with
         | |- context [if ?b then _ else _] => destruct b
         end;
    cbn [Map_set String.eqb Ascii.eqb Bool.eqb];
    pose proof (Qhalf_bounds width Hw); pose proof (Qhalf_bounds height Hh);
    repeat (apply Forall_cons; [split; cbn [snd Pos.x Pos.y]; lra |]);
    apply Forall_nil.
Qed.

Lemma oversized_spec (width height : Q) :
  oversized width height = true <-> 200 < width \/ 200 < height.
Proof.
  unfold oversized, MAX_WIDTH, MAX_HEIGHT. cbn [literal greaterThan exact].
  change (inject_Z 200) with 200.
  rewrite orb_true_iff, !Qgtb_spec. reflexivity.
Qed.

Lemma oversized_false (width height : Q) :
  oversized width height = false <-> width <= 200 /\ height <= 200.
Proof.
  unfold oversized, MAX_WIDTH, MAX_HEIGHT. cbn [literal greaterThan exact].
  change (inject_Z 200) with 200.
  rewrite orb_false_iff, !Qgtb_false. reflexivity.
Qed.

(** In exact arithmetic no parsed component is wider or higher than 200. *)
Lemma parseSVG_size_le (componentName svgContent : string) :
  ComponentSVGData.width (parseSVG componentName svgContent) <= 200 /\
  ComponentSVGData.height (parseSVG componentName svgContent) <= 200.
Proof.
  unfold parseSVG. destruct (intrinsicSize svgContent) as [width height].
  destruct (oversized width height) eqn:O; cbn.
  - apply oversized_spec in O.
    destruct (scaleFactor_bounds width height O) as (_ & _ & W & H). now split.
  - now apply oversized_false in O.
Qed.

(** X8.  In exact arithmetic, on an artwork whose size is finite: the
    pins of a parsed component lie inside the box it is returned
    with, also after an oversized artwork has been scaled down, provided
    the intrinsic width and height read from the artwork are not negative;
    and the component has at least one pin. *)
Theorem parseSVG_pins_inside (componentName svgContent : string) :
  0 <= fst (intrinsicSize svgContent) ->
  0 <= snd (intrinsicSize svgContent) ->
  pinsInside (parseSVG componentName svgContent) /\
  ComponentSVGData.pins (parseSVG componentName svgContent) <> [].
Proof.
  unfold pinsInside, parseSVG.
  destruct (intrinsicSize svgContent) as [width height]. cbn [fst snd].
  intros Hw Hh.
  pose proof (getComponentPinPositions_insideBox componentName width height Hw Hh)
    as Inside.
  assert (Some_pin : getComponentPinPositions componentName width height <> []).
  { intros E. apply (f_equal (map fst)) in E.
    rewrite getComponentPinPositions_names in E.
    destruct (classOf componentName); discriminate. }
  destruct (oversized width height) eqn:O;
    cbn [ComponentSVGData.width ComponentSVGData.height ComponentSVGData.pins];
    [| now split].
  apply oversized_spec in O.
  destruct (scaleFactor_bounds width height O) as (S0 & _).
  rewrite scalePins_map. split.
  - apply Forall_map. eapply Forall_impl; [| exact Inside].
    intros [pinName pos] [[X0 X1] [Y0 Y1]]. cbn [snd] in *.
    unfold insideBox. cbn [snd Pos.x Pos.y].
    assert (0 <= scaleFactor width height) by lra.
    repeat split;
      first [apply Qmult_le_0_compat; assumption
            | apply Qmult_le_compat_r; assumption].
  - destruct (getComponentPinPositions componentName width height);
      [contradiction | discriminate].
Qed.

Lemma loadComponentSVGs_get (fs : FileSystem) (componentsUsed : list string) :
  forall (loadedComponents : Map ComponentSVGData.t) (componentName : string),
    Map_get (loadComponentSVGs fs componentsUsed loadedComponents) componentName =
    match artworkFor fs componentName with
    | Some svgContent =>
      if existsb (String.eqb componentName) componentsUsed
      then Some (parseSVG componentName svgContent)
      else Map_get loadedComponents componentName
    | None => Map_get loadedComponents componentName
    end.
Proof.
  unfold loadComponentSVGs.
  induction componentsUsed as [|c used IH]; intros loaded k; simpl.
  - destruct (artworkFor fs k); reflexivity.
  - rewrite IH. destruct (String.eqb_spec k c) as [->|N]; simpl.
    + destruct (artworkFor fs c) as [svg|]; [| reflexivity].
      rewrite Map_get_set_same. now destruct (existsb _ used).
    + destruct (artworkFor fs k) as [svg|], (artworkFor fs c) as [svg'|];
        try reflexivity; now rewrite Map_get_set_other.
Qed.

(** X9.  Looking a label up after loading: a requested label whose
    artwork is found is stored with the parse of that artwork, whatever
    the cache held for it before; every other entry of the cache is as it
    was, and no other label appears. *)
Theorem loadComponentSVGs_lookup (fs : FileSystem) (componentsUsed : list string)
    (loadedComponents : Map ComponentSVGData.t) (componentName : string) :
  let loaded := loadComponentSVGs fs componentsUsed loadedComponents in
  (forall svgContent,
     In componentName componentsUsed ->
     artworkFor fs componentName = Some svgContent ->
     Map_get loaded componentName = Some (parseSVG componentName svgContent)) /\
  (~ In componentName componentsUsed \/ artworkFor fs componentName = None ->
   Map_get loaded componentName = Map_get loadedComponents componentName).
Proof.
  cbv zeta. rewrite loadComponentSVGs_get. split.
  - intros svg I A. rewrite A.
    assert (E : existsb (String.eqb componentName) componentsUsed = true).
    { apply existsb_exists. exists componentName. split; [exact I | apply String.eqb_refl]. }
    now rewrite E.
  - intros [N | A]; [| now rewrite A].
    destruct (artworkFor fs componentName); [| reflexivity].
    destruct (existsb (String.eqb componentName) componentsUsed) eqn:E; [| reflexivity].
    apply existsb_exists in E. destruct E as (c & I & E).
    apply String.eqb_eq in E. subst c. contradiction.
Qed.

(** Starting from an empty cache, everything loaded is a parse. *)
Lemma loadComponentSVGs_parsed (fs : FileSystem) (componentsUsed : list string)
    (componentName : string) (data : ComponentSVGData.t) :
  Map_get (loadComponentSVGs fs componentsUsed []) componentName = Some data ->
  exists svgContent,
    artworkFor fs componentName = Some svgContent /\
    data = parseSVG componentName svgContent.
Proof.
  rewrite loadComponentSVGs_get.
  destruct (artworkFor fs componentName) as [svg|]; [| discriminate].
  destruct (existsb _ componentsUsed); [| discriminate].
  intros [= <-]. now exists svg.
Qed.

(** X10.  No two components of a diagram overlap: in the layout of a
    request that starts from an empty cache, the rectangles of two
    components with different labels share no inner point. *)
Theorem layoutComponents_no_overlap (fs : FileSystem) (componentsUsed : list string)
    (n1 n2 : string) (d1 d2 : Placed.t) :
  let layout :=
    layoutComponents (loadComponentSVGs fs componentsUsed []) componentsUsed in
  In (n1, d1) layout -> In (n2, d2) layout -> n1 <> n2 -> disjoint d1 d2.
Proof.
  intros layout I1 I2 D.
  destruct (layoutComponents_grid (loadComponentSVGs fs componentsUsed []) componentsUsed)
    as (X & row & _ & _ & E & P).
  fold layout in E, P.
  destruct (E n1 d1 I1) as (_ & _ & _ & G1), (E n2 d2 I2) as (_ & _ & _ & G2).
  apply loadComponentSVGs_parsed in G1, G2.
  destruct G1 as (svg1 & _ & C1), G2 as (svg2 & _ & C2).
  destruct (parseSVG_size_le n1 svg1) as [W1 H1], (parseSVG_size_le n2 svg2) as [W2 H2].
  rewrite <- C1 in W1, H1. rewrite <- C2 in W2, H2.
  specialize (P n1 d1 n2 d2 I1 I2 D).
  unfold apart, spacingX, spacingY in P.
  unfold disjoint, rightEdge, bottomEdge.
  destruct P as [P | [P | [P | P]]];
    [left | right; left | right; right; left | right; right; right]; lra.
Qed.

(** X11.  A resolved endpoint lies on the component it names: for a cache
    whose components have their pins inside their boxes, a point returned
    by [findConnectionPoint] on the layout lies in the rectangle that the
    layout gives the named component. *)
Theorem findConnectionPoint_inside_component
    (loadedComponents : Map ComponentSVGData.t) (componentsUsed : list string)
    (pointStr : string) (point : Endpoint.t) :
  let layout := layoutComponents loadedComponents componentsUsed in
  (forall n data, In (n, data) loadedComponents -> pinsInside data) ->
  findConnectionPoint pointStr layout = Normal (Some point) ->
  exists layoutData,
    Map_get layout (Endpoint.component point) = Some layoutData /\
    Placed.x layoutData <= Endpoint.x point <= rightEdge layoutData /\
    Placed.y layoutData <= Endpoint.y point <= bottomEdge layoutData.
Proof.
  intros layout Inside H.
  destruct (layoutComponents_wellPlaced loadedComponents componentsUsed) as [K W].
  destruct (layoutComponents_grid loadedComponents componentsUsed)
    as (X & row & _ & _ & E & _).
  fold layout in K, W, E.
  destruct (findConnectionPoint_In _ _ _ H) as (layoutData & I & P).
  rewrite (W _ _ I) in P.
  destruct (calculateAbsolutePins_In _ _ _ _ _ P) as (local & L & [= Ex Ey]).
  destruct (E _ _ I) as (_ & _ & _ & G).
  apply Map_get_Some_In, Inside in G.
  unfold pinsInside in G. rewrite Forall_forall in G.
  destruct (G _ L) as [[X0 X1] [Y0 Y1]]. cbn [snd] in *.
  exists layoutData. split; [now apply Map_get_In |].
  unfold rightEdge, bottomEdge. rewrite Ex, Ey. repeat split; lra.
Qed.

End Loading.

(** ** The canvas holds a small diagram whole *)

Section Fit.

Context {RT : JSRuntime}.

Lemma count_cons {A : Type} (a : A) (l : list A) :
  inject_Z (Z.of_nat (List.length (a :: l))) == inject_Z (Z.of_nat (List.length l)) + 1.
Proof.
  cbn [List.length]. rewrite Nat2Z.inj_succ. unfold Z.succ.
  now rewrite inject_Z_plus.
Qed.

(** The columns the second loop of [layoutComponents] can reach with the
    labels it has left: a component it places stands at most a third of
    [row] plus the labels left, less one, columns to the right. *)
Lemma placeOthers_columns loaded arduino currentY used :
  forall layout currentX row n d,
    row == 0 \/ row == 1 \/ row == 2 ->
    In (n, d) (placeOthers loaded arduino currentY used layout currentX row) ->
    In (n, d) layout \/
    3 * (Placed.x d - currentX) <=
      spacingX * (row + inject_Z (Z.of_nat (List.length used)) - 1).
Proof.
  unfold spacingX.
  induction used as [|c used IH]; intros layout currentX row n d R I; [now left |].
  pose proof (count_cons c used) as Count.
  assert (Pos : 0 <= inject_Z (Z.of_nat (List.length used))).
  { change 0 with (inject_Z 0). rewrite <- Zle_Qle. lia. }
  set (m := inject_Z (Z.of_nat (List.length used))) in *.
  set (m' := inject_Z (Z.of_nat (List.length (c :: used)))) in *.
  assert (skip :
    In (n, d) (placeOthers loaded arduino currentY used layout currentX row) ->
    In (n, d) layout \/ 3 * (Placed.x d - currentX) <= 250 * (row + m' - 1)).
  { intros I'. destruct (IH _ _ _ _ _ R I') as [L | B]; [now left | right].
    fold m in B. destruct R as [R | [R | R]]; rewrite R in *; lra. }
  simpl in I.
  destruct (match arduino with Some a => String.eqb c a | None => false end);
    [now apply skip |].
  destruct (Map_get loaded c) as [data|]; [| now apply skip].
  assert (row3 : Qle_bool 3 (row + 1) = true <-> row == 2).
  { rewrite Qle_bool_iff. split; [| intros ->; lra]. destruct R as [-> | [-> | ->]]; lra. }
  assert (placed :
    In (n, d) (Map_set layout c (place data currentX (currentY + row * spacingY))) ->
    In (n, d) layout \/ 3 * (Placed.x d - currentX) <= 250 * (row + m' - 1)).
  { intros I'. apply Map_set_In in I'. destruct I' as [[= -> ->] | I']; [right | now left].
    cbn [place Placed.x]. destruct R as [R | [R | R]]; rewrite R; lra. }
  destruct (Qle_bool 3 (row + 1)) eqn:B.
  - assert (B' : row == 2) by (now apply row3).
    destruct (IH _ _ _ _ _ (or_introl (Qeq_refl 0)) I) as [L | Bd];
      [now apply placed |].
    right. fold m in Bd. unfold spacingX in Bd. rewrite B'. lra.
  - assert (R' : row + 1 == 0 \/ row + 1 == 1 \/ row + 1 == 2).
    { destruct R as [R | [R | R]];
        [right; left; rewrite R; lra | right; right; rewrite R; lra
        | apply row3 in R; discriminate]. }
    destruct (IH _ _ _ _ _ R' I) as [L | Bd]; [now apply placed |].
    right. fold m in Bd. lra.
Qed.

Lemma layoutComponents_columns loaded used n d :
  In (n, d) (layoutComponents loaded used) ->
  3 * (Placed.x d - 400) <= 250 * (inject_Z (Z.of_nat (List.length used)) - 1) \/
  Placed.x d == 150.
Proof.
  unfold layoutComponents. intros I.
  assert (start : forall currentX,
    currentX == 150 \/ currentX == 400 ->
    In (n, d) (placeOthers loaded
                 (find (fun c => includes (toLowerCase c) "arduino") used)
                 200 used [] currentX 0) ->
    3 * (Placed.x d - 400) <= 250 * (inject_Z (Z.of_nat (List.length used)) - 1)).
  { intros X HX I'.
    destruct (placeOthers_columns _ _ _ _ _ _ _ _ _ (or_introl (Qeq_refl 0)) I')
      as [[] | B].
    unfold spacingX in B. destruct HX as [HX | HX]; rewrite HX in B; lra. }
  destruct (find (fun c => includes (toLowerCase c) "arduino") used) as [a|];
    [| left; apply (start 150); [left; reflexivity | exact I]].
  destruct (truthy a); [| left; apply (start 150); [left; reflexivity | exact I]].
  destruct (Map_get loaded a) as [data|];
    [| left; apply (start 150); [left; reflexivity | exact I]].
  cbv zeta in I.
  destruct (placeOthers_columns _ _ _ _ _ _ _ _ _ (or_introl (Qeq_refl 0)) I)
    as [[[= <- <-] | []] | B].
  - right. reflexivity.
  - left. unfold spacingX in B. lra.
Qed.

(** X12.  A request of at most fifteen labels is drawn whole: in exact
    arithmetic the canvas is not capped, and every placed component has
    200 units of canvas to its right and 250 below it.  Below, that holds
    for any number of labels, since a column has three rows. *)
Theorem assembleFinalSVG_canvas_holds_layout (fs : FileSystem)
    (componentsUsed : list string) (componentName : string) (layoutData : Placed.t) :
  let layout :=
    layoutComponents (loadComponentSVGs fs componentsUsed []) componentsUsed in
  In (componentName, layoutData) layout ->
  bottomEdge layoutData + 250 <= snd (canvasSize layout) /\
  ((List.length componentsUsed <= 15)%nat ->
   rightEdge layoutData + 200 <= fst (canvasSize layout)).
Proof.
  intros layout I.
  assert (sizes : forall n d, In (n, d) layout ->
    rightEdge d <= Placed.x d + 200 /\ bottomEdge d <= 800).
  { intros n d Id.
    destruct (layoutComponents_grid (loadComponentSVGs fs componentsUsed [])
                componentsUsed) as (X & row & _ & _ & E & _).
    destruct (E n d Id) as (_ & _ & Y & G).
    apply loadComponentSVGs_parsed in G. destruct G as (svg & _ & C).
    destruct (parseSVG_size_le n svg) as [W H]. rewrite <- C in W, H.
    unfold rightEdge, bottomEdge, spacingY in *.
    split; [lra |]. destruct Y as [Y | [Y | Y]]; rewrite Y; lra. }
  destruct (canvasSize_spec layout) as (maxX & maxY & BX & BY & ->). cbn [fst snd].
  destruct BX as (X0 & Xall & Xsome), BY as (Y0 & Yall & Ysome).
  split.
  - apply Q.min_glb.
    + specialize (Yall _ _ I). lra.
    + destruct Ysome as [Z | (n & d & Id & Z)].
      * destruct (sizes _ _ I). lra.
      * destruct (sizes _ _ Id). destruct (sizes _ _ I). lra.
  - intros Few. apply Q.min_glb.
    + specialize (Xall _ _ I). lra.
    + assert (Count : inject_Z (Z.of_nat (List.length componentsUsed)) <= 15).
      { change 15 with (inject_Z 15). rewrite <- Zle_Qle. lia. }
      assert (column : forall n d, In (n, d) layout -> rightEdge d + 200 <= 2000).
      { intros n d Id. destruct (sizes _ _ Id) as [W _].
        destruct (layoutComponents_columns _ _ _ _ Id) as [B | B]; [| rewrite B in W]; lra. }
      destruct Xsome as [Z | (n & d & Id & Z)].
      * pose proof (column _ _ I). specialize (Xall _ _ I). lra.
      * pose proof (column _ _ Id). pose proof (column _ _ I).
        specialize (Xall _ _ I). lra.
Qed.

End Fit.

(** ** Resolving descriptions *)

Lemma includes_empty (s : string) : includes s "" = true.
Proof. destruct s; reflexivity. Qed.

Section Resolver.

Context {RT : JSRuntime}.

Lemma choosePin_some (pinName : string) (absolutePins : Map Pos.t) :
  absolutePins <> [] -> choosePin pinName absolutePins <> None.
Proof.
  unfold choosePin. intros N.
  destruct (find (fun '(pin, _) => pinNameMatches pinName pin) absolutePins);
    [discriminate |].
  destruct (find (fun '(pin, _) => pinDigitsMatch pinName pin) absolutePins);
    [discriminate |].
  destruct absolutePins; [contradiction | discriminate].
Qed.

(** X13.  On a layout whose components all have a pin, a description
    resolves to null exactly when none of the three matching strategies
    accepts any placed component; a description that matches a component
    gives a point or raises, never null. *)
Theorem findConnectionPoint_null_iff (pointStr : string) (layout : Map Placed.t) :
  (forall n d, In (n, d) layout -> Placed.absolutePins d <> []) ->
  (findConnectionPoint pointStr layout = Normal None <->
   matchedComponent pointStr layout = None).
Proof.
  unfold matchedComponent.
  induction layout as [|[n d] layout IH]; intros Pins; simpl; [tauto |].
  destruct (componentMatches pointStr n).
  - split; [| discriminate].
    destruct (extractPinName pointStr n) as [pinName|e]; simpl; [| discriminate].
    pose proof (choosePin_some pinName (Placed.absolutePins d)
                  (Pins n d (or_introl eq_refl))) as C.
    destruct (choosePin pinName (Placed.absolutePins d)) as [[pin position]|];
      [discriminate | contradiction].
  - apply IH. intros n' d' I. apply (Pins n' d'). now right.
Qed.

(** X14.  An empty description is resolved, not refused: it matches the
    first placed component by the third strategy and is given that
    component's first pin. *)
Theorem findConnectionPoint_empty_description
    (componentName : string) (layoutData : Placed.t) (rest : Map Placed.t)
    (pin : string) (position : Pos.t) (pins : Map Pos.t) :
  toLowerCase "" = "" ->
  RegExp_gi_remove componentName "" = Some "" ->
  Placed.absolutePins layoutData = (pin, position) :: pins ->
  findConnectionPoint "" ((componentName, layoutData) :: rest) =
  Normal (Some (Endpoint.mk componentName pin (Pos.x position) (Pos.y position))).
Proof.
  intros L R P. cbn [findConnectionPoint].
  assert (M : componentMatches "" componentName = true).
  { unfold componentMatches. rewrite L.
    change (firstWord (removeParens "")) with "".
    now rewrite includes_empty, !orb_true_r. }
  rewrite M. unfold extractPinName. rewrite R.
  change (trim (removeWord_gi "green" _)) with "".
  cbn [bind]. rewrite P. unfold choosePin. cbn [find].
  assert (N : pinNameMatches "" pin = true).
  { unfold pinNameMatches. rewrite L. now rewrite includes_empty, !orb_true_r. }
  now rewrite N.
Qed.

(** X15.  The one error the resolver can raise has one cause: when
    [findConnectionPoint] throws, the description was matched to a placed
    component whose label the [RegExp] constructor rejects. *)
Theorem findConnectionPoint_throw_cause (pointStr : string) (layout : Map Placed.t)
    (e : JSError) :
  findConnectionPoint pointStr layout = Throw e ->
  exists componentName layoutData,
    In (componentName, layoutData) layout /\
    componentMatches pointStr componentName = true /\
    RegExp_gi_remove componentName pointStr = None.
Proof.
  induction layout as [|[n d] layout IH]; simpl; [discriminate |].
  assert (later : findConnectionPoint pointStr layout = Throw e ->
    exists componentName layoutData,
      ((n, d) = (componentName, layoutData) \/ In (componentName, layoutData) layout) /\
      componentMatches pointStr componentName = true /\
      RegExp_gi_remove componentName pointStr = None).
  { intros H. destruct (IH H) as (n' & d' & I & M & R). exists n', d'. auto. }
  destruct (componentMatches pointStr n) eqn:M; [| exact later].
  unfold extractPinName.
  destruct (RegExp_gi_remove n pointStr) as [pinName|] eqn:R; simpl.
  - destruct (choosePin _ (Placed.absolutePins d)) as [[pin position]|];
      [discriminate | exact later].
  - intros _. exists n, d. auto.
Qed.

(** ** Connections *)

Lemma parseConnections_from_normal (connections : list string) (layout : Map Placed.t) :
  forall wires out,
    parseConnections_from wires connections layout = Normal out ->
    out = wires ++ flat_map (contribution layout) connections.
Proof.
  induction connections as [|c l IH]; intros wires out; simpl.
  - intros [= <-]. now rewrite app_nil_r.
  - unfold contribution at 1.
    destruct (connectionWire c layout) as [[wire|]|e]; simpl; [| | discriminate].
    + intros H. apply IH in H. now rewrite <- app_assoc in H.
    + apply IH.
Qed.

Lemma contribution_length (layout : Map Placed.t) (connections : list string) :
  (List.length (flat_map (contribution layout) connections) <=
   List.length connections)%nat.
Proof.
  induction connections as [|c l IH]; simpl; [lia |].
  rewrite length_app. unfold contribution at 1.
  destruct (connectionWire c layout) as [[wire|]|e]; simpl; lia.
Qed.

(** What a wire that some line contributes looks like. *)
Lemma contribution_shape (layout : Map Placed.t) (connections : list string)
    (wire : ConnectionWire.t) :
  In wire (flat_map (contribution layout) connections) ->
  exists connection fromPoint toPoint,
    In connection connections /\
    wire = ConnectionWire.mk fromPoint toPoint (getWireColor connection) connection /\
    In (Endpoint.component fromPoint) (map fst layout) /\
    In (Endpoint.component toPoint) (map fst layout).
Proof.
  intros I. apply in_flat_map in I. destruct I as (c & Ic & Iw).
  unfold contribution in Iw.
  destruct (connectionWire c layout) as [[wire'|]|e] eqn:E; try contradiction.
  destruct Iw as [<- | []].
  apply connectionWire_emits_iff in E.
  destruct E as (_ & part0 & part1 & fromPoint & toPoint & _ & F & T & ->).
  apply findConnectionPoint_In in F, T.
  destruct F as (d0 & F & _), T as (d1 & T & _).
  exists c, fromPoint, toPoint. repeat split; [exact Ic | |].
  - apply in_map_iff. now exists (Endpoint.component fromPoint, d0).
  - apply in_map_iff. now exists (Endpoint.component toPoint, d1).
Qed.

(** X16.  When [parseConnections] completes, its wires are what the lines
    contribute one by one, in the order of the lines: at most one wire per
    line, none invented.  Each wire carries its line as label and the
    colour [getWireColor] gives that line, and both its ends name placed
    components. *)
Theorem parseConnections_wires (connections : list string) (layout : Map Placed.t)
    (wires : list ConnectionWire.t) :
  parseConnections connections layout = Normal wires ->
  wires = flat_map (contribution layout) connections /\
  (List.length wires <= List.length connections)%nat /\
  Forall (fun wire =>
            In (ConnectionWire.label wire) connections /\
            ConnectionWire.color wire = getWireColor (ConnectionWire.label wire) /\
            In (Endpoint.component (ConnectionWire.from wire)) (map fst layout) /\
            In (Endpoint.component (ConnectionWire.to wire)) (map fst layout))
         wires.
Proof.
  intros H. apply parseConnections_from_normal in H. simpl in H. subst wires.
  split; [reflexivity |]. split; [apply contribution_length |].
  apply Forall_forall. intros wire I.
  destruct (contribution_shape _ _ _ I) as (c & fromPoint & toPoint & Ic & -> & F & T).
  cbn [ConnectionWire.label ConnectionWire.color ConnectionWire.from ConnectionWire.to].
  auto.
Qed.

(** X17.  A line is passed over without a wire and without an error,
    whatever the layout, when its lower-case text holds upload, code or
    program anywhere (also inside a word), and when splitting it at the
    arrow does not give exactly two parts. *)
Theorem connectionWire_skipped (connection : string) (layout : Map Placed.t) :
  mentions ["upload"; "code"; "program"] (toLowerCase connection) \/
  List.length (split "→" connection) <> 2%nat ->
  connectionWire connection layout = Normal None.
Proof.
  intros H. unfold connectionWire.
  destruct (isNonConnection connection) eqn:N; [reflexivity |].
  destruct H as [M | S].
  - apply isNonConnection_spec in M. congruence.
  - destruct (split "→" connection) as [|p0 [|p1 [|p2 r]]]; try reflexivity.
    now contradiction S.
Qed.

End Resolver.

(** ** The whole request *)

Section Completion.

Context {RT : JSRuntime}.

(** X18.  A request completes with a document whenever every requested
    label is accepted by the [RegExp] constructor, whatever the
    connections, the artwork and the cache are; the document is the
    rendering of the layout with the wires the lines contribute. *)
Theorem generateCircuit_completes (fs : FileSystem)
    (loadedComponents : Map ComponentSVGData.t) (circuitName : string)
    (componentsUsed connections : list string) :
  (forall c subject, In c componentsUsed -> RegExp_gi_remove c subject <> None) ->
  let layout :=
    layoutComponents (loadComponentSVGs fs componentsUsed loadedComponents)
                     componentsUsed in
  generateCircuit fs loadedComponents circuitName componentsUsed connections =
  Normal (assembleFinalSVG circuitName layout
            (flat_map (contribution layout) connections)).
Proof.
  intros H layout. unfold generateCircuit. fold layout.
  rewrite parseConnections_compilable; [reflexivity |].
  intros n d subject I. apply H.
  apply (layoutComponents_keys_used
           (loadComponentSVGs fs componentsUsed loadedComponents) componentsUsed).
  apply in_map_iff. now exists (n, d).
Qed.

End Completion.

(** ** What the document holds *)

Lemma occursIn_fold_In {A : Type} (step : string -> A -> string) (l : list A)
    (a : A) (needle : string) :
  (forall svg x, occursIn needle svg -> occursIn needle (step svg x)) ->
  (forall svg, occursIn needle (step svg a)) ->
  In a l ->
  forall document, occursIn needle (fold_left step l document).
Proof.
  intros Keep Here. induction l as [|x l IH]; intros [] document; simpl.
  - subst x. apply occursIn_fold; [exact Keep | apply Here].
  - now apply IH.
Qed.

Lemma occursIn_end (needle document : string) :
  occursIn needle (document ++ needle).
Proof.
  exists document, EmptyString. now rewrite append_nil_r_string.
Qed.

Section Document.

Context {RT : JSRuntime}.

(** X19.  Nothing placed or resolved is left out of the drawing: the
    document holds the group of every component of the layout, the
    drawing of every wire, and the marker and label of every absolute pin
    of every placed component. *)
Theorem assembleFinalSVG_renders_all (circuitName : string)
    (layout : Map Placed.t) (wires : list ConnectionWire.t) :
  let document := assembleFinalSVG circuitName layout wires in
  (forall componentName layoutData,
     In (componentName, layoutData) layout ->
     occursIn (embedComponentSVG componentName layoutData) document) /\
  (forall wire, In wire wires -> occursIn (drawWire wire) document) /\
  (forall componentName layoutData pinName position,
     In (componentName, layoutData) layout ->
     In (pinName, position) (Placed.absolutePins layoutData) ->
     occursIn (pinLabel pinName position) document).
Proof.
  unfold assembleFinalSVG. destruct (canvasSize layout) as [canvasWidth canvasHeight].
  cbv zeta.
  assert (pins_keep : forall needle svg (entry : string * Placed.t),
    occursIn needle svg ->
    occursIn needle
      (let '(componentName, layoutData) := entry in
       fold_left (fun svg '(pinName, position) => (svg ++ pinLabel pinName position)%string)
                 (Placed.absolutePins layoutData) svg)).
  { intros needle svg [n d] H. apply occursIn_fold; [| exact H].
    intros svg' [p pos] H'. now apply occursIn_append. }
  assert (wires_keep : forall needle svg wire,
    occursIn needle svg -> occursIn needle (svg ++ drawWire wire)%string).
  { intros. now apply occursIn_append. }
  assert (components_keep : forall needle svg (entry : string * Placed.t),
    occursIn needle svg ->
    occursIn needle
      (let '(componentName, layoutData) := entry in
       (svg ++ embedComponentSVG componentName layoutData)%string)).
  { intros needle svg [n d] H. now apply occursIn_append. }
  split; [| split].
  - intros n d I.
    apply occursIn_append.
    apply occursIn_fold; [apply pins_keep |].
    apply occursIn_append.
    apply occursIn_fold; [apply wires_keep |].
    apply occursIn_append.
    apply (occursIn_fold_In _ _ (n, d)); [apply components_keep | | exact I].
    intros svg. apply occursIn_end.
  - intros wire I.
    apply occursIn_append.
    apply occursIn_fold; [apply pins_keep |].
    apply occursIn_append.
    apply (occursIn_fold_In _ _ wire); [apply wires_keep | | exact I].
    intros svg. apply occursIn_end.
  - intros n d p pos I P.
    apply occursIn_append.
    apply (occursIn_fold_In _ _ (n, d)); [apply pins_keep | | exact I].
    intros svg.
    apply (occursIn_fold_In _ _ (p, pos)); [| | exact P].
    + intros svg' [p' pos'] H. now apply occursIn_append.
    + intros svg'. apply occursIn_end.
Qed.

(** X20.  The legend explains every wire: whatever the line, the colour
    [getWireColor] gives it is the stroke of one of the six sample lines
    that every document carries in its legend. *)
Theorem assembleFinalSVG_legend_covers (connection circuitName : string)
    (layout : Map Placed.t) (wires : list ConnectionWire.t) :
  occursIn (q "stroke=`" ++ getWireColor connection ++ q "` stroke-width=`4`/>")
           (assembleFinalSVG circuitName layout wires).
Proof.
  unfold assembleFinalSVG. destruct (canvasSize layout) as [canvasWidth canvasHeight].
  cbv zeta. apply occursIn_skip.
  unfold getWireColor. cbv zeta.
  repeat match goal with
         | |- context [if ?b then _ else _] => destruct b
         end;
    repeat first
      [ solve [apply occursIn_append; apply includes_spec; vm_compute; reflexivity]
      | apply occursIn_skip ].
Qed.

End Document.

(** ** The file name of the diagram *)

Lemma keepWordChars_all (s : string) :
  Markup.all isWordChar (keepWordChars s) = true.
Proof.
  induction s as [|c s IH]; simpl; [reflexivity |].
  destruct (isWordChar c) eqn:W; [| exact IH].
  simpl. now rewrite W, IH.
Qed.

Lemma includes_wordChars (stem tail sub : string) (c : ascii) (rest : string) :
  Markup.all isWordChar stem = true ->
  sub = String c rest -> isWordChar c = false ->
  includes (stem ++ tail) sub = includes tail sub.
Proof.
  intros A -> W. induction stem as [|x stem IH]; [reflexivity |].
  simpl in A. apply andb_true_iff in A. destruct A as [Wx A].
  cbn [append includes startsWith].
  destruct (Ascii.eqb_spec c x) as [->|N]; [congruence |].
  cbn [andb orb]. now apply IH.
Qed.

(** X21.  The diagram is written inside the output directory, whatever
    the circuit name: the file name is a run of letters, digits and
    underscores followed by [.svg], so it holds no slash, no backslash and
    no dot-dot. *)
Theorem diagramFilename_stays_inside (circuitName : string) :
  (exists stem,
      diagramFilename circuitName = (stem ++ ".svg")%string /\
      Markup.all isWordChar stem = true) /\
  includes (diagramFilename circuitName) "/" = false /\
  includes (diagramFilename circuitName) "\" = false /\
  includes (diagramFilename circuitName) ".." = false.
Proof.
  unfold diagramFilename.
  pose proof (keepWordChars_all (underscoreSpaces circuitName)) as A.
  split; [eexists; split; [reflexivity | exact A] |].
  repeat split;
    (erewrite includes_wordChars; [| exact A | reflexivity | reflexivity]);
    reflexivity.
Qed.

(** ** The view box of an artwork *)

Lemma length_append_string (a b : string) :
  String.length (a ++ b) = (String.length a + String.length b)%nat.
Proof.
  induction a as [|c a IH]; simpl; [reflexivity | now rewrite IH].
Qed.

Lemma ws_len_numberChar (c : ascii) (r : string) :
  isNumberChar c = true -> ws_len (String c r) = 0%nat.
Proof.
  unfold isNumberChar, isDigit, ws_len. intros H.
  assert (B : (45 <= code c <= 57)%N).
  { rewrite !orb_true_iff, andb_true_iff, !N.eqb_eq, !N.leb_le in H. lia. }
  cbv zeta.
  repeat match goal with
         | |- context [(?a <=? ?b)%N] => destruct (N.leb_spec a b); try lia
         | |- context [(?a =? ?b)%N] => destruct (N.eqb_spec a b); try lia
         end; cbn [andb orb];
    destruct r as [|b [|b' r']]; reflexivity.
Qed.

Lemma ws_len_numeral (t rest : string) :
  numeral t -> ws_len (t ++ rest) = 0%nat.
Proof.
  intros [N A]. destruct t as [|c t]; [contradiction |].
  simpl in A. apply andb_true_iff in A. now apply ws_len_numberChar.
Qed.

Lemma split_ws_go_last (t cur : string) (fuel : nat) :
  Markup.all isNumberChar t = true -> (String.length t <= fuel)%nat ->
  split_ws_go fuel t cur = [(cur ++ t)%string].
Proof.
  revert cur fuel. induction t as [|c t IH]; intros cur fuel A L.
  - rewrite append_nil_r_string. now destruct fuel.
  - simpl in A. apply andb_true_iff in A. destruct A as [Hc A].
    destruct fuel as [|fuel]; [simpl in L; lia |].
    cbn [split_ws_go]. rewrite (ws_len_numberChar c t Hc).
    rewrite IH; [| exact A | simpl in L; lia].
    now rewrite append_assoc.
Qed.

Lemma trimStart_space (s : string) :
  ws_len s = 0%nat -> trimStart (String " " s) = s.
Proof.
  intros W. unfold trimStart. cbn [String.length trimStart_go].
  change (ws_len (String " " s)) with 1%nat. cbn [drop].
  destruct (String.length s); cbn [trimStart_go]; [reflexivity | now rewrite W].
Qed.

Lemma split_ws_go_token (t rest cur : string) (fuel : nat) :
  Markup.all isNumberChar t = true -> ws_len rest = 0%nat ->
  (String.length t < fuel)%nat ->
  split_ws_go fuel (t ++ String " " rest) cur =
  (cur ++ t)%string :: split_ws_go (fuel - String.length t - 1) rest EmptyString.
Proof.
  revert cur fuel. induction t as [|c t IH]; intros cur fuel A W L.
  - rewrite append_nil_r_string.
    destruct fuel as [|fuel]; [simpl in L; lia |].
    cbn [append split_ws_go]. change (ws_len (String " " rest)) with 1%nat.
    cbn iota. rewrite trimStart_space by exact W.
    cbn [String.length]. now replace (S fuel - 0 - 1)%nat with fuel by lia.
  - simpl in A. apply andb_true_iff in A. destruct A as [Hc A].
    destruct fuel as [|fuel]; [simpl in L; lia |].
    cbn [append split_ws_go].
    rewrite (ws_len_numberChar c _ Hc).
    rewrite IH; [| exact A | exact W | simpl in L; lia].
    now rewrite append_assoc.
Qed.

Section ViewBox.

Context {RT : JSRuntime}.

(** X22.  Of a view box written as four numerals with single blanks
    between them, the usual form min-x min-y width height, [parseSVG]
    reads the width from the fourth numeral and finds no fifth one for the
    height, which then is 150; the third numeral is not read. *)
Theorem intrinsicSize_four_numerals (svgContent a b c d : string) :
  numeral a -> numeral b -> numeral c -> numeral d ->
  viewBoxMatch svgContent = Some (a ++ " " ++ b ++ " " ++ c ++ " " ++ d)%string ->
  intrinsicSize svgContent = (parseFloatOr150 (Some d), 150).
Proof.
  intros Na Nb Nc Nd V. unfold intrinsicSize. rewrite V.
  assert (S : split_ws (a ++ " " ++ b ++ " " ++ c ++ " " ++ d) = [a; b; c; d]).
  { unfold split_ws.
    assert (La : String.length (a ++ " " ++ b ++ " " ++ c ++ " " ++ d) =
                 (String.length a + 1 + (String.length b + 1 +
                    (String.length c + 1 + String.length d)))%nat).
    { repeat (rewrite length_append_string; cbn [String.length]). lia. }
    rewrite La.
    cbn [append].
    rewrite split_ws_go_token;
      [| apply Na | apply (ws_len_numeral b); exact Nb | lia].
    rewrite split_ws_go_token;
      [| apply Nb | apply (ws_len_numeral c); exact Nc | lia].
    rewrite split_ws_go_token;
      [| apply Nc | rewrite <- (append_nil_r_string d); now apply ws_len_numeral | lia].
    rewrite split_ws_go_last; [reflexivity | apply Nd | lia]. }
  rewrite S. reflexivity.
Qed.

End ViewBox.

(** ** Finding the folder of a label *)

Section Folders.

Context {RT : JSRuntime}.

(** X23.  [findComponentFolder] never makes a folder up: what it returns
    is one of the folders listed in the components directory, and it
    returns none for a label that the alias table maps to null or that is
    the name of a property every object inherits. *)
Theorem findComponentFolder_listed (folders : list string)
    (componentName folder : string) :
  findComponentFolder folders componentName = Some folder ->
  In folder folders /\
  Map_get componentNameMap componentName <> Some None /\
  ~ In componentName inheritedProperties.
Proof.
  unfold findComponentFolder.
  destruct (existsb (String.eqb componentName) inheritedProperties) eqn:E;
    [discriminate |].
  assert (Own : ~ In componentName inheritedProperties).
  { intros I. rewrite <- not_true_iff_false in E. apply E.
    apply existsb_exists. exists componentName. split; [exact I | apply String.eqb_refl]. }
  destruct (Map_get componentNameMap componentName) as [[mappedName|]|];
    [destruct (truthy mappedName); [| discriminate] | discriminate |];
    intros F; apply find_some in F; destruct F as [I _];
    (split; [exact I | split; [discriminate | exact Own]]).
Qed.

(** X24.  An empty label is not refused: its normalised form is empty,
    every folder name contains it, and the first folder of the directory
    is returned for it. *)
Theorem findComponentFolder_empty_label (folder : string) (folders : list string) :
  toLowerCase "" = "" ->
  findComponentFolder (folder :: folders) "" = Some folder.
Proof.
  intros L. unfold findComponentFolder.
  change (existsb (String.eqb "") inheritedProperties) with false.
  change (Map_get componentNameMap "") with (@None (option string)).
  cbv iota beta zeta. rewrite L.
  change (trim (collapseUnderscores (removeParensOmega
            (replaceAll "-" "_" (underscoreSpaces ""))))) with "".
  cbn [find]. now rewrite includes_empty, orb_true_r.
Qed.

End Folders.

(** ** What escaping does not do: hyphens in comments *)

Lemma escaped_hyphen_cons (r : string) :
  escaped (String "-" r) = String "-" (escaped r).
Proof. destruct r; reflexivity. Qed.

Lemma escaped_app_hyphen (s r : string) :
  escaped (s ++ String "-" r) = (escaped s ++ escaped (String "-" r))%string.
Proof.
  induction s as [| a | a b s hit IH | a b s miss IH] using escaped_induction.
  - reflexivity.
  - cbn [append]. rewrite escaped_cons.
    replace ((code a =? 206) && (code "-" =? 169))%N with false
      by (now rewrite andb_false_r).
    reflexivity.
  - cbn [append]. rewrite (escaped_cons a), (escaped_cons a (String b s)), hit.
    cbn [append] in IH. rewrite IH. now rewrite append_assoc.
  - cbn [append]. rewrite (escaped_cons a), (escaped_cons a (String b s)), miss.
    cbn [append] in IH. rewrite IH. now rewrite append_assoc.
Qed.

Lemma escapeMarkup_hyphens (s : string) :
  occursIn "--" s ->
  exists before after,
    escapeMarkup s = (before ++ "--" ++ after)%string.
Proof.
  intros (before & after & ->). rewrite escapeMarkup_escaped.
  exists (escaped before), (escaped after).
  change ("--" ++ after)%string with (String "-" (String "-" after)).
  now rewrite escaped_app_hyphen, !escaped_hyphen_cons.
Qed.

Lemma notReserved_not_gt (c : ascii) : notReserved c = true -> (code c =? 62)%N = false.
Proof.
  unfold notReserved. rewrite !andb_true_iff, !negb_true_iff. tauto.
Qed.

(** Inside a comment, text without [>] leaves the scanner inside the
    comment, if it does not stop it. *)
Lemma comment_stays (s : string) :
  Markup.all notReserved s = true ->
  forall stack rootDone dashes,
    Markup.run (Markup.mkState stack rootDone (Markup.Comment dashes)) s = None \/
    exists dashes',
      Markup.run (Markup.mkState stack rootDone (Markup.Comment dashes)) s =
      Some (Markup.mkState stack rootDone (Markup.Comment dashes')).
Proof.
  induction s as [|c s IH]; intros A stack rootDone dashes.
  - right. now exists dashes.
  - simpl in A. apply andb_true_iff in A. destruct A as [Hc A].
    apply notReserved_not_gt in Hc.
    cbn [Markup.run]. unfold Markup.step. cbn [Markup.current].
    destruct (code c =? 45)%N.
    + destruct (2 <=? dashes)%nat; [now left | apply IH; exact A].
    + destruct (2 <=? dashes)%nat; [rewrite Hc; now left | apply IH; exact A].
Qed.

(** Inside a comment, two hyphens that are not followed by [>] stop the
    scanner. *)
Lemma comment_hyphens (c : ascii) (t : string) :
  (code c =? 62)%N = false ->
  forall stack rootDone dashes,
    Markup.run (Markup.mkState stack rootDone (Markup.Comment dashes))
               ("--" ++ String c t) = None.
Proof.
  intros Hc stack rootDone dashes.
  destruct dashes as [|[|dashes]]; cbn; [| reflexivity | reflexivity].
  unfold Markup.step. cbn [Markup.current]. rewrite Hc.
  now destruct (code c =? 45)%N.
Qed.

Lemma comment_rejects (label tail : string) :
  occursIn "--" label ->
  forall stack rootDone,
    Markup.run (Markup.mkState stack rootDone (Markup.Comment 0))
               (escapeMarkup label ++ " -->" ++ tail) = None.
Proof.
  intros H stack rootDone.
  pose proof (escapeMarkup_no_reserved_all label) as A.
  destruct (escapeMarkup_hyphens label H) as (before & after & E).
  rewrite E in *. rewrite !all_app in A.
  apply andb_true_iff in A. destruct A as [Ab A].
  apply andb_true_iff in A. destruct A as [_ Aa].
  rewrite !append_assoc, run_app.
  destruct (comment_stays before Ab stack rootDone 0%nat) as [-> | [d ->]];
    [reflexivity |].
  destruct after as [|c after].
  - apply comment_hyphens. reflexivity.
  - simpl in Aa. apply andb_true_iff in Aa. destruct Aa as [Hc _].
    apply comment_hyphens. now apply notReserved_not_gt.
Qed.

(** X25.  Escaping leaves hyphens alone, and the label of a wire and the
    name of a component are also written into comments: when one of them
    holds two hyphens in a row, the comment written for it is not one the
    scanner for well-formed markup accepts, wherever in element content
    the fragment stands. *)
Theorem comment_double_hyphen {RT : JSRuntime}
    (open : string) (stack : list string) (brackets : nat) :
  (forall wire,
     occursIn "--" (ConnectionWire.label wire) ->
     Markup.run (Markup.mkState (open :: stack) false (Markup.Content brackets))
                (drawWire wire) = None) /\
  (forall componentName layoutData,
     occursIn "--" componentName ->
     Markup.run (Markup.mkState (open :: stack) false (Markup.Content brackets))
                (embedComponentSVG componentName layoutData) = None).
Proof.
  split.
  - intros wire H. unfold drawWire. cbv zeta.
    rewrite (run_app _ nl).
    change (Markup.run (Markup.mkState (open :: stack) false (Markup.Content brackets)) nl)
      with (Some (Markup.mkState (open :: stack) false (Markup.Content 0))).
    cbv iota beta. rewrite (run_app _ "    <!-- Wire: ").
    change (Markup.run (Markup.mkState (open :: stack) false (Markup.Content 0))
              "    <!-- Wire: ")
      with (Some (Markup.mkState (open :: stack) false (Markup.Comment 0))).
    cbv iota beta. now apply comment_rejects.
  - intros componentName layoutData H. unfold embedComponentSVG. cbv zeta.
    rewrite (run_app _ nl).
    change (Markup.run (Markup.mkState (open :: stack) false (Markup.Content brackets)) nl)
      with (Some (Markup.mkState (open :: stack) false (Markup.Content 0))).
    cbv iota beta. rewrite (run_app _ "  <!-- Component: ").
    change (Markup.run (Markup.mkState (open :: stack) false (Markup.Content 0))
              "  <!-- Component: ")
      with (Some (Markup.mkState (open :: stack) false (Markup.Comment 0))).
    cbv iota beta. now apply comment_rejects.
Qed.

(** ** When the document is well-formed *)

Lemma lands_piece (st st' : Markup.state) (piece rest : string)
    (stack : list string) (rootDone : bool) :
  Markup.run st piece = Some st' ->
  lands st' rest stack rootDone -> lands st (piece ++ rest) stack rootDone.
Proof.
  intros E [k H]. exists k. now rewrite run_app, E.
Qed.

Lemma lands_last (st : Markup.state) (piece : string)
    (stack : list string) (rootDone : bool) (k : nat) :
  Markup.run st piece = Some (Markup.mkState stack rootDone (Markup.Content k)) ->
  lands st piece stack rootDone.
Proof. intros E. now exists k. Qed.

Lemma run_attrSafe (stack : list string) (rootDone : bool) (name s : string) :
  attrSafe s ->
  Markup.run (Markup.mkState stack rootDone (Markup.AttrValue name (ascii_of_nat 34))) s =
  Some (Markup.mkState stack rootDone (Markup.AttrValue name (ascii_of_nat 34))).
Proof.
  unfold attrSafe. induction s as [|c s IH]; intros A; [reflexivity |].
  simpl in A. apply andb_true_iff in A. destruct A as [Hc A].
  unfold attrChar in Hc. rewrite !andb_true_iff, !negb_true_iff in Hc.
  destruct Hc as [[Q L] M].
  cbn [Markup.run]. unfold Markup.step. cbn [Markup.current].
  assert (E : Ascii.eqb c (ascii_of_nat 34) = false).
  { rewrite eqb_code. change (code (ascii_of_nat 34)) with 34%N.
    rewrite N.eqb_sym. exact Q. }
  rewrite E, L, M. now apply IH.
Qed.

Lemma lands_attr (stack : list string) (rd : bool) (name s rest : string)
    (target : list string) (rootDone : bool) :
  attrSafe s ->
  lands (Markup.mkState stack rd (Markup.AttrValue name (ascii_of_nat 34)))
        rest target rootDone ->
  lands (Markup.mkState stack rd (Markup.AttrValue name (ascii_of_nat 34)))
        (s ++ rest) target rootDone.
Proof.
  intros A. apply lands_piece. now apply run_attrSafe.
Qed.

(** After text in element content, what follows is read as from a fresh
    start, if it does not begin with [>] or a closing bracket. *)
Lemma run_opensPiece (stack : list string) (rootDone : bool) (k : nat)
    (piece : string) :
  opensPiece piece = true ->
  Markup.run (Markup.mkState stack rootDone (Markup.Content k)) piece =
  Markup.run (Markup.mkState stack rootDone (Markup.Content 0)) piece.
Proof.
  destruct piece as [|c piece]; [discriminate |].
  unfold opensPiece. rewrite andb_true_iff, !negb_true_iff. intros [G B].
  cbn [Markup.run]. unfold Markup.step. cbn [Markup.current Markup.stack].
  now rewrite G, B.
Qed.

Lemma lands_neutral (stack : list string) (k : nat) (text piece rest : string)
    (st' : Markup.state) (target : list string) (rootDone : bool) :
  neutral stack text ->
  opensPiece piece = true ->
  Markup.run (Markup.mkState stack false (Markup.Content 0)) piece = Some st' ->
  lands st' rest target rootDone ->
  lands (Markup.mkState stack false (Markup.Content k)) (text ++ piece ++ rest)
        target rootDone.
Proof.
  intros N O E [k' H]. exists k'.
  destruct (N k) as [k1 E1]. rewrite run_app, E1, run_app.
  now rewrite run_opensPiece, E.
Qed.

Lemma lands_neutral_last (stack : list string) (k : nat) (text piece : string)
    (target : list string) (rootDone : bool) (k' : nat) :
  neutral stack text ->
  opensPiece piece = true ->
  Markup.run (Markup.mkState stack false (Markup.Content 0)) piece =
    Some (Markup.mkState target rootDone (Markup.Content k')) ->
  lands (Markup.mkState stack false (Markup.Content k)) (text ++ piece)
        target rootDone.
Proof.
  intros N O E. exists k'.
  destruct (N k) as [k1 E1]. rewrite run_app, E1.
  now rewrite run_opensPiece, E.
Qed.

Lemma neutral_plain (open : string) (stack : list string) (s : string) :
  plainText s -> neutral (open :: stack) s.
Proof. intros P k. now apply run_plain. Qed.

Lemma neutral_escapeMarkup (open : string) (stack : list string) (s : string) :
  printable s -> neutral (open :: stack) (escapeMarkup s).
Proof. intros P k. rewrite escapeMarkup_escaped. now apply run_escaped. Qed.

(** *** Comments *)

Lemma run_comment (stack : list string) (rootDone : bool) (s : string) :
  forall afterHyphen,
    hyphensApart afterHyphen s = true ->
    exists dashes,
      (dashes <= 1)%nat /\
      Markup.run (Markup.mkState stack rootDone
                    (Markup.Comment (if afterHyphen then 1 else 0))) s =
      Some (Markup.mkState stack rootDone (Markup.Comment dashes)).
Proof.
  induction s as [|c s IH]; intros b H.
  - exists (if b then 1 else 0)%nat. split; [destruct b; lia | reflexivity].
  - cbn [hyphensApart] in H. cbn [Markup.run]. unfold Markup.step.
    cbn [Markup.current]. destruct (code c =? 45)%N.
    + apply andb_true_iff in H. destruct H as [B H].
      apply negb_true_iff in B. subst b. cbn. exact (IH true H).
    + assert (E : (2 <=? (if b then 1 else 0))%nat = false) by now destruct b.
      rewrite E. exact (IH false H).
Qed.

Lemma hyphensApart_escapeChar (b : bool) (a : ascii) (t : string) :
  hyphensApart b (escapeChar a ++ t) = hyphensApart b (String a t).
Proof.
  unfold escapeChar.
  destruct (code a =? 38)%N eqn:E38; [apply code_inj in E38; subst a; reflexivity |].
  destruct (code a =? 60)%N eqn:E60; [apply code_inj in E60; subst a; reflexivity |].
  destruct (code a =? 62)%N eqn:E62; [apply code_inj in E62; subst a; reflexivity |].
  destruct (code a =? 34)%N eqn:E34; [apply code_inj in E34; subst a; reflexivity |].
  destruct (code a =? 39)%N eqn:E39; [apply code_inj in E39; subst a; reflexivity |].
  reflexivity.
Qed.

Lemma hyphensApart_escaped (s : string) :
  forall b, hyphensApart b (escaped s) = hyphensApart b s.
Proof.
  induction s as [| a | a c r hit IH | a c r miss IH] using escaped_induction;
    intros b.
  - reflexivity.
  - cbn [escaped]. rewrite <- (append_nil_r_string (escapeChar a)).
    apply hyphensApart_escapeChar.
  - rewrite escaped_cons, hit.
    apply andb_true_iff in hit as [Ha Hc]. apply code_inj in Ha, Hc. subst a c.
    change (hyphensApart b ("&#937;" ++ escaped r)) with (hyphensApart false (escaped r)).
    rewrite IH. reflexivity.
  - rewrite escaped_cons, miss, hyphensApart_escapeChar.
    cbn [hyphensApart]. now rewrite !IH.
Qed.

Lemma hyphensApart_includes (s : string) :
  forall b,
    includes s "--" = false ->
    (b = true -> startsWith "-" s = false) ->
    hyphensApart b s = true.
Proof.
  induction s as [|c s IH]; intros b I S; [reflexivity |].
  cbn [includes] in I. apply orb_false_iff in I. destruct I as [I0 I].
  cbn [hyphensApart]. destruct (code c =? 45)%N eqn:E.
  - apply code_inj in E. subst c.
    assert (B : b = false).
    { destruct b; [| reflexivity]. specialize (S eq_refl). discriminate S. }
    subst b. cbn [negb andb]. apply IH; [exact I |].
    intros _. destruct s as [|d s]; [reflexivity |].
    cbn [startsWith] in *. cbn in I0. now rewrite andb_true_r in *.
  - apply IH; [exact I | discriminate].
Qed.

Lemma hyphensApart_escapeMarkup (s : string) :
  ~ occursIn "--" s -> hyphensApart false (escapeMarkup s) = true.
Proof.
  intros N. rewrite escapeMarkup_escaped, hyphensApart_escaped.
  apply hyphensApart_includes; [| discriminate].
  destruct (includes s "--") eqn:I; [| reflexivity].
  apply includes_spec in I. contradiction.
Qed.

Lemma lands_comment (stack : list string) (rd : bool) (text piece rest : string)
    (st' : Markup.state) (target : list string) (rootDone : bool) :
  hyphensApart false text = true ->
  startsWith " " piece = true ->
  Markup.run (Markup.mkState stack rd (Markup.Comment 0)) piece = Some st' ->
  lands st' rest target rootDone ->
  lands (Markup.mkState stack rd (Markup.Comment 0)) (text ++ piece ++ rest)
        target rootDone.
Proof.
  intros H S E [k L]. exists k.
  destruct (run_comment stack rd text false H) as (d & D & R).
  cbn iota in R. rewrite run_app, R, run_app.
  destruct piece as [|c piece]; [discriminate |].
  cbn [startsWith] in S. rewrite andb_true_r in S. apply Ascii.eqb_eq in S. subst c.
  assert (F : Markup.run (Markup.mkState stack rd (Markup.Comment d)) (String " " piece) =
              Markup.run (Markup.mkState stack rd (Markup.Comment 0)) (String " " piece)).
  { destruct d as [|[|d]]; [reflexivity | reflexivity | lia]. }
  now rewrite F, E.
Qed.

(** *** Reading a template piece by piece *)

Ltac piece_state st piece :=
  let r := eval vm_compute in (Markup.run st piece) in
  lazymatch r with
  | Some ?st' => st'
  end.

(** A piece of a template that is written out in the source. *)
Ltac literal_piece piece :=
  lazymatch piece with
  | q _ => idtac
  | nl => idtac
  | String _ _ => idtac
  | EmptyString => idtac
  end.

Ltac land_literal :=
  lazymatch goal with
  | |- lands ?st (?piece ++ ?rest) _ _ =>
    literal_piece piece;
    let st' := piece_state st piece in
    apply (lands_piece st st' piece); [vm_compute; reflexivity | ]
  | |- lands ?st ?piece _ _ =>
    literal_piece piece;
    let st' := piece_state st piece in
    lazymatch st' with
    | Markup.mkState _ _ (Markup.Content ?k') =>
      apply (lands_last st piece _ _ k'); vm_compute; reflexivity
    end
  end.

Ltac land_with side :=
  first
    [ land_literal
    | lazymatch goal with
      | |- lands (Markup.mkState ?stack false (Markup.Content ?k))
                 (?text ++ ?piece ++ ?rest) _ _ =>
        let st' := piece_state (Markup.mkState stack false (Markup.Content 0%nat)) piece in
        apply (lands_neutral stack k text piece rest st');
        [ side | reflexivity | vm_compute; reflexivity | ]
      | |- lands (Markup.mkState ?stack false (Markup.Content ?k)) (?text ++ ?piece) _ _ =>
        let st' := piece_state (Markup.mkState stack false (Markup.Content 0%nat)) piece in
        lazymatch st' with
        | Markup.mkState _ _ (Markup.Content ?k') =>
          apply (lands_neutral_last stack k text piece _ _ k');
          [ side | reflexivity | vm_compute; reflexivity ]
        end
      | |- lands (Markup.mkState ?stack ?rd (Markup.Comment 0))
                 (?text ++ ?piece ++ ?rest) _ _ =>
        let st' := piece_state (Markup.mkState stack rd (Markup.Comment 0%nat)) piece in
        apply (lands_comment stack rd text piece rest st');
        [ side | reflexivity | vm_compute; reflexivity | ]
      | |- lands (Markup.mkState _ _ (Markup.AttrValue _ _)) (_ ++ _) _ _ =>
        apply lands_attr; [ side | ]
      end ].

Lemma all_impl (p p' : ascii -> bool) (s : string) :
  (forall c, p c = true -> p' c = true) ->
  Markup.all p s = true -> Markup.all p' s = true.
Proof.
  intros I. induction s as [|c s IH]; [reflexivity |].
  cbn [Markup.all]. rewrite !andb_true_iff. intros [Hc H]. auto.
Qed.

Lemma attrSafe_app (a b : string) : attrSafe a -> attrSafe b -> attrSafe (a ++ b).
Proof.
  unfold attrSafe. intros A B. now rewrite all_app, A, B.
Qed.

Lemma wordChar_attrChar (c : ascii) : isWordChar c = true -> attrChar c = true.
Proof.
  unfold isWordChar, isDigit, isUpper, isLower, attrChar.
  rewrite !orb_true_iff, !andb_true_iff, !negb_true_iff, !N.leb_le, !N.eqb_eq, !N.eqb_neq.
  lia.
Qed.

Lemma digit_attrChar (c : ascii) : isDigit c = true -> attrChar c = true.
Proof.
  intros D. apply wordChar_attrChar. unfold isWordChar. now rewrite D.
Qed.

Lemma lands_after (document suffix : string) (stack target : list string)
    (rootDone : bool) :
  lands Markup.init document stack false ->
  (forall k, lands (Markup.mkState stack false (Markup.Content k)) suffix
                   target rootDone) ->
  lands Markup.init (document ++ suffix) target rootDone.
Proof.
  intros [k E] S. destruct (S k) as [k' E']. exists k'. now rewrite run_app, E.
Qed.

Lemma lands_neutral_after (document fragment : string) (stack : list string) :
  lands Markup.init document stack false ->
  neutral stack fragment ->
  lands Markup.init (document ++ fragment) stack false.
Proof.
  intros L N. apply (lands_after _ _ stack); [exact L | exact N].
Qed.

Lemma lands_fold {A : Type} (step : string -> A -> string) (l : list A)
    (stack : list string) :
  (forall svg x, In x l -> lands Markup.init svg stack false ->
                 lands Markup.init (step svg x) stack false) ->
  forall document,
    lands Markup.init document stack false ->
    lands Markup.init (fold_left step l document) stack false.
Proof.
  induction l as [|x l IH]; intros Step document L; [exact L |].
  cbn [fold_left]. apply IH.
  - intros svg y I. apply Step. now right.
  - apply Step; [now left | exact L].
Qed.

Section WellFormed.

Context {RT : JSRuntime}.

Hypothesis numbers : forall v, attrSafe (Number_toString v).

Lemma pinLabel_neutral (open : string) (stack : list string)
    (pinName : string) (position : Pos.t) :
  plainText pinName -> neutral (open :: stack) (pinLabel pinName position).
Proof.
  intros P k.
  change (lands (Markup.mkState (open :: stack) false (Markup.Content k))
                (pinLabel pinName position) (open :: stack) false).
  unfold pinLabel.
  repeat land_with ltac:(first [apply numbers | apply neutral_plain; assumption]).
Qed.

Lemma drawWire_neutral (open : string) (stack : list string)
    (wire : ConnectionWire.t) :
  printable (ConnectionWire.label wire) ->
  ~ occursIn "--" (ConnectionWire.label wire) ->
  attrSafe (ConnectionWire.color wire) ->
  neutral (open :: stack) (drawWire wire).
Proof.
  intros P H C k.
  change (lands (Markup.mkState (open :: stack) false (Markup.Content k))
                (drawWire wire) (open :: stack) false).
  apply hyphensApart_escapeMarkup in H.
  unfold drawWire. cbv zeta.
  match goal with
  | |- context [(q "    <path d=`" ++ ?p ++ _)%string] => set (path := p)
  end.
  assert (Path : attrSafe path).
  { unfold path.
    repeat match goal with
           | |- context [if ?b then _ else _] => destruct b
           end;
      repeat (apply attrSafe_app; [first [apply numbers | reflexivity] |]);
      apply numbers. }
  clearbody path.
  repeat land_with ltac:(first [apply numbers | assumption]).
Qed.

Lemma embedComponentSVG_neutral (open : string) (stack : list string)
    (componentName : string) (layoutData : Placed.t) :
  printable componentName ->
  ~ occursIn "--" componentName ->
  balanced (innerArtwork (ComponentSVGData.svgContent (Placed.component layoutData))) ->
  neutral (open :: stack) (embedComponentSVG componentName layoutData).
Proof.
  intros P H B k.
  change (lands (Markup.mkState (open :: stack) false (Markup.Content k))
                (embedComponentSVG componentName layoutData) (open :: stack) false).
  apply hyphensApart_escapeMarkup in H.
  assert (Id : attrSafe (keepWordChars (underscoreSpaces componentName))).
  { eapply all_impl; [apply wordChar_attrChar | apply keepWordChars_all]. }
  pose proof (neutral_escapeMarkup "text" ("g" :: open :: stack) componentName P) as Label.
  unfold embedComponentSVG. cbv zeta.
  fold (innerArtwork (ComponentSVGData.svgContent (Placed.component layoutData))).
  repeat land_with ltac:(first [apply numbers | assumption | apply B]).
Qed.

Lemma assembleFinalSVG_lands (circuitName : string) (layout : Map Placed.t)
    (wires : list ConnectionWire.t) :
  plainText circuitName ->
  (forall n d, In (n, d) layout ->
     printable n /\ ~ occursIn "--" n /\
     balanced (innerArtwork (ComponentSVGData.svgContent (Placed.component d))) /\
     forall p pos, In (p, pos) (Placed.absolutePins d) -> plainText p) ->
  (forall wire, In wire wires ->
     printable (ConnectionWire.label wire) /\
     ~ occursIn "--" (ConnectionWire.label wire) /\
     attrSafe (ConnectionWire.color wire)) ->
  Markup.wellFormed (assembleFinalSVG circuitName layout wires) = true.
Proof.
  intros Title Components Wires.
  assert (L : lands Markup.init (assembleFinalSVG circuitName layout wires) [] true).
  { pose proof (neutral_plain "text" ["svg"] circuitName Title) as T.
    unfold assembleFinalSVG. destruct (canvasSize layout) as [canvasWidth canvasHeight].
    cbv zeta.
    apply (lands_after _ _ ["g"; "svg"]).
    - apply lands_fold.
      { intros svg [n d] I S. apply lands_fold; [| exact S].
        intros svg' [p pos] Ip S'. apply lands_neutral_after; [exact S' |].
        apply pinLabel_neutral. destruct (Components n d I) as (_ & _ & _ & Pins).
        now apply (Pins p pos). }
      apply (lands_after _ _ ["g"; "svg"]).
      + apply lands_fold.
        { intros svg wire I S. apply lands_neutral_after; [exact S |].
          destruct (Wires wire I) as (P & H & C). now apply drawWire_neutral. }
        apply (lands_after _ _ ["g"; "svg"]).
        * apply lands_fold.
          { intros svg [n d] I S. apply lands_neutral_after; [exact S |].
            destruct (Components n d I) as (P & H & B & _).
            now apply embedComponentSVG_neutral. }
          repeat land_with ltac:(first [apply numbers | assumption]).
        * intros k. repeat land_with ltac:(first [apply numbers | assumption]).
      + intros k. repeat land_with ltac:(first [apply numbers | assumption]).
    - intros k. repeat land_with ltac:(first [apply numbers | assumption]). }
  destruct L as [k E]. unfold Markup.wellFormed. now rewrite E.
Qed.

End WellFormed.

Section RequestWellFormed.

Context {RT : JSRuntime}.

Lemma parseSVG_svgContent (componentName svgContent : string) :
  ComponentSVGData.svgContent (parseSVG componentName svgContent) = svgContent.
Proof.
  unfold parseSVG. destruct (intrinsicSize svgContent) as [width height].
  now destruct (oversized width height).
Qed.

Lemma parseSVG_pin_names (componentName svgContent : string) :
  map fst (ComponentSVGData.pins (parseSVG componentName svgContent)) =
  pinNames (classOf componentName).
Proof.
  unfold parseSVG. destruct (intrinsicSize svgContent) as [width height].
  destruct (oversized width height); cbn [ComponentSVGData.pins].
  - rewrite scalePins_map, map_map.
    rewrite <- (getComponentPinPositions_names componentName width height).
    apply map_ext. now intros [pinName pos].
  - apply getComponentPinPositions_names.
Qed.

Lemma pinNames_plain (c : componentClass) (pinName : string) :
  In pinName (pinNames c) -> plainText pinName.
Proof.
  destruct c; cbn [pinNames In]; intuition (subst; reflexivity).
Qed.

Lemma getWireColor_attrSafe (connection : string) : attrSafe (getWireColor connection).
Proof.
  unfold getWireColor. cbv zeta.
  repeat match goal with
         | |- context [if ?b then _ else _] => destruct b
         end; reflexivity.
Qed.

(** X26.  When the request is harmless the document is well-formed: for
    a title without [<], [>], [&] and control characters, labels and
    connection lines without control characters and without two hyphens
    in a row, and artwork that is well nested once its outer [svg] tags
    are taken off, every document [generateCircuit] returns from an empty
    cache is accepted by the scanner, on any runtime that prints numbers
    without quotes, [<] and [&]. *)
Theorem generateCircuit_wellFormed (fs : FileSystem) (circuitName : string)
    (componentsUsed connections : list string) (document : string) :
  (forall v, attrSafe (Number_toString v)) ->
  plainText circuitName ->
  (forall c, In c componentsUsed -> printable c /\ ~ occursIn "--" c) ->
  (forall c svgContent,
     In c componentsUsed -> artworkFor fs c = Some svgContent ->
     balanced (innerArtwork svgContent)) ->
  (forall line, In line connections -> printable line /\ ~ occursIn "--" line) ->
  generateCircuit fs [] circuitName componentsUsed connections = Normal document ->
  Markup.wellFormed document = true.
Proof.
  intros Numbers Title Labels Artwork Lines.
  unfold generateCircuit.
  set (loaded := loadComponentSVGs fs componentsUsed []).
  set (layout := layoutComponents loaded componentsUsed).
  destruct (parseConnections connections layout) as [wires|e] eqn:W;
    cbn [bind]; [| discriminate].
  intros [= <-].
  apply parseConnections_from_normal in W. cbn [app] in W.
  apply assembleFinalSVG_lands; [exact Numbers | exact Title | |].
  - intros n d I.
    assert (Used : In n componentsUsed).
    { apply (layoutComponents_keys_used loaded componentsUsed).
      apply in_map_iff. now exists (n, d). }
    destruct (Labels n Used) as [P H].
    destruct (layoutComponents_grid loaded componentsUsed) as (X & row & _ & _ & E & _).
    destruct (E n d I) as (_ & _ & _ & G).
    apply loadComponentSVGs_parsed in G. destruct G as (svg & A & C).
    destruct (layoutComponents_wellPlaced loaded componentsUsed) as [_ Placed].
    specialize (Placed n d I). unfold wellPlaced in Placed.
    repeat split; [exact P | exact H | |].
    + rewrite C, parseSVG_svgContent. now apply (Artwork n).
    + intros p pos Ip. rewrite Placed in Ip.
      apply calculateAbsolutePins_In in Ip. destruct Ip as (local & Il & _).
      apply (pinNames_plain (classOf n)).
      rewrite <- (parseSVG_pin_names n svg), <- C.
      apply in_map_iff. now exists (p, local).
  - intros wire I. rewrite W in I.
    destruct (contribution_shape _ _ _ I) as (c & fromPoint & toPoint & Ic & -> & _).
    cbn [ConnectionWire.label ConnectionWire.color].
    destruct (Lines c Ic) as [P H].
    repeat split; [exact P | exact H | apply getWireColor_attrSafe].
Qed.

End RequestWellFormed.

(** The numbers of [nodeRuntime] are digits, a point and a sign. *)

Lemma digit_char (m : Z) :
  (0 <= m <= 9)%Z -> isDigit (ascii_of_N (Z.to_N (48 + m))) = true.
Proof.
  intros B.
  assert (C : (m = 0 \/ m = 1 \/ m = 2 \/ m = 3 \/ m = 4 \/ m = 5 \/ m = 6 \/
               m = 7 \/ m = 8 \/ m = 9)%Z) by lia.
  repeat (destruct C as [-> | C]; [reflexivity |]). subst m. reflexivity.
Qed.

Lemma natDigits_digits (fuel : nat) :
  forall n acc,
    Markup.all isDigit acc = true ->
    Markup.all isDigit (Node.natDigits fuel n acc) = true.
Proof.
  induction fuel as [|fuel IH]; intros n acc A; [exact A |].
  cbn [Node.natDigits].
  assert (D : Markup.all isDigit
                (String (ascii_of_N (Z.to_N (48 + n mod 10))) acc) = true).
  { cbn [Markup.all]. rewrite A, andb_true_r. apply digit_char.
    pose proof (Z.mod_pos_bound n 10). lia. }
  destruct (n <? 10)%Z; [exact D | now apply IH].
Qed.

Lemma fractionDigits_digits (fuel : nat) :
  forall num den,
    (0 <= num < den)%Z ->
    Markup.all isDigit (Node.fractionDigits fuel num den) = true.
Proof.
  induction fuel as [|fuel IH]; intros num den B; [reflexivity |].
  cbn [Node.fractionDigits]. destruct (num =? 0)%Z; [reflexivity |].
  cbn [Markup.all]. rewrite IH by (apply Z.mod_pos_bound; lia).
  rewrite andb_true_r. apply digit_char. split.
  - apply Z.div_pos; lia.
  - assert (10 * num / den < 10)%Z by (apply Z.div_lt_upper_bound; lia). lia.
Qed.

Lemma Node_numbers (v : Q) : attrSafe (Node.Number_toString v).
Proof.
  unfold Node.Number_toString. cbv zeta.
  set (num := Z.abs (Qnum (Qred v))). set (den := Zpos (Qden (Qred v))).
  assert (Whole : attrSafe (Node.printNat (num / den))).
  { eapply all_impl; [apply digit_attrChar |]. now apply natDigits_digits. }
  assert (Fraction : attrSafe (Node.fractionDigits 16 (num mod den) den)).
  { eapply all_impl; [apply digit_attrChar |]. apply fractionDigits_digits.
    apply Z.mod_pos_bound. reflexivity. }
  assert (Sign : attrSafe (if (Qnum (Qred v) <? 0)%Z then "-" else ""))
    by (destruct (Qnum (Qred v) <? 0)%Z; reflexivity).
  destruct (Node.fractionDigits 16 (num mod den) den) as [|c digits].
  - now apply attrSafe_app.
  - repeat apply attrSafe_app; try assumption. reflexivity.
Qed.

Lemma generateCircuit_wellFormed_witness :
  match generateCircuit Example.fileSystem [] "Two LEDs" ["LED (Red)"; "LED (Green)"]
          ["LED (Red) Anode → LED (Green) Cathode"] with
  | Normal document => Markup.wellFormed document = true
  | Throw _ => False
  end.
Proof.
  destruct (generateCircuit Example.fileSystem [] "Two LEDs"
              ["LED (Red)"; "LED (Green)"]
              ["LED (Red) Anode → LED (Green) Cathode"]) as [document|e] eqn:E.
  - apply (generateCircuit_wellFormed Example.fileSystem "Two LEDs"
             ["LED (Red)"; "LED (Green)"]
             ["LED (Red) Anode → LED (Green) Cathode"] document).
    + exact Node_numbers.
    + reflexivity.
    + intros c [<- | [<- | []]];
        (split; [reflexivity |]); intros H; apply includes_spec in H; discriminate H.
    + intros c svg [<- | [<- | []]] A; vm_compute in A; injection A as <-;
        intros open stack k; exists 0%nat; reflexivity.
    + intros line [<- | []].
      split; [reflexivity |]. intros H. apply includes_spec in H. discriminate H.
    + exact E.
  - vm_compute in E. discriminate.
Defined.

(** ** The earlier revision *)

Lemma Earlier_choosePin_In (pinName : string) (absolutePins : Map Pos.t)
    (entry : string * Pos.t) :
  Earlier.choosePin pinName absolutePins = Some entry -> In entry absolutePins.
Proof.
  unfold Earlier.choosePin.
  destruct (find (fun '(pin, _) => Earlier.pinNameMatches pinName pin) absolutePins)
    as [found|] eqn:F.
  - intros [= <-]. now apply find_some in F.
  - destruct absolutePins; simpl; [discriminate |]. intros [= <-]. now left.
Qed.

Lemma Earlier_choosePin_some (pinName : string) (absolutePins : Map Pos.t) :
  absolutePins <> [] -> Earlier.choosePin pinName absolutePins <> None.
Proof.
  unfold Earlier.choosePin. intros N.
  destruct (find (fun '(pin, _) => Earlier.pinNameMatches pinName pin) absolutePins);
    [discriminate |].
  destruct absolutePins; [contradiction | discriminate].
Qed.

(** X27.  The resolver of the earlier revision matches labels as they are
    written: on a layout whose components all have a pin, a returned point
    names a placed component whose label occurs in the description
    character for character, with one of that component's absolute pins,
    and null is returned exactly when no placed label occurs in the
    description. *)
Theorem Earlier_findConnectionPoint_verbatim (pointStr : string)
    (layout : Map Placed.t) :
  (forall n d, In (n, d) layout -> Placed.absolutePins d <> []) ->
  (forall point,
     Earlier.findConnectionPoint pointStr layout = Some point ->
     occursIn (Endpoint.component point) pointStr /\
     exists layoutData,
       In (Endpoint.component point, layoutData) layout /\
       In (Endpoint.pin point, Pos.mk (Endpoint.x point) (Endpoint.y point))
          (Placed.absolutePins layoutData)) /\
  (Earlier.findConnectionPoint pointStr layout = None <->
   forall n d, In (n, d) layout -> ~ occursIn n pointStr).
Proof.
  induction layout as [|[n d] layout IH]; intros Pins.
  - split; [discriminate |]. split; [intros _ ? ? [] | reflexivity].
  - assert (Pins' : forall n' d', In (n', d') layout -> Placed.absolutePins d' <> []).
    { intros n' d' I. apply (Pins n' d'). now right. }
    destruct (IH Pins') as [Some_ None_]. clear IH.
    cbn [Earlier.findConnectionPoint].
    destruct (includes pointStr n) eqn:M.
    + pose proof (Earlier_choosePin_some (trim (Earlier.removeFirst n pointStr))
                    (Placed.absolutePins d) (Pins n d (or_introl eq_refl))) as C.
      cbv zeta.
      destruct (Earlier.choosePin _ (Placed.absolutePins d)) as [[pin position]|] eqn:E;
        [| contradiction].
      apply includes_spec in M. split.
      * intros point [= <-]. cbn. split; [exact M |].
        exists d. split; [now left |].
        apply Earlier_choosePin_In in E. now destruct position.
      * split; [discriminate |]. intros H. exfalso.
        apply (H n d); [now left | exact M].
    + split.
      * intros point H. destruct (Some_ point H) as (O & d' & I & P).
        split; [exact O |]. exists d'. split; [now right | exact P].
      * rewrite None_. split.
        -- intros H n' d' [[= <- <-] | I]; [| now apply (H n' d')].
           intros O. apply includes_spec in O. congruence.
        -- intros H n' d' I. apply (H n' d'). now right.
Qed.

(** X28.  The canvas of the earlier revision is not capped: whatever the
    layout, every placed component has 100 units of canvas to the right of
    its right edge and 150 below its bottom edge. *)
Theorem Earlier_canvas_holds_layout (layout : Map Placed.t)
    (componentName : string) (layoutData : Placed.t) :
  In (componentName, layoutData) layout ->
  rightEdge layoutData + 100 <= fst (Earlier.canvasSize layout) /\
  bottomEdge layoutData + 150 <= snd (Earlier.canvasSize layout).
Proof.
  intros I. unfold Earlier.canvasSize. rewrite canvas_fold_split. cbn [fst snd].
  destruct (foldMax_spec rightEdge layout 0) as (_ & X & _).
  destruct (foldMax_spec bottomEdge layout 0) as (_ & Y & _).
  specialize (X _ _ I). specialize (Y _ _ I). cbv zeta in X, Y. split; lra.
Qed.

Lemma Earlier_findConnectionPoint_verbatim_witness :
  Earlier.findConnectionPoint "led (red) anode" Example.twoLeds = None /\
  Earlier.findConnectionPoint "LED (Red) Cathode" Example.twoLeds <> None.
Proof.
  assert (Pins : forall n d, In (n, d) Example.twoLeds -> Placed.absolutePins d <> []).
  { intros n d [[= <- <-] | [[= <- <-] | []]]; vm_compute; discriminate. }
  split.
  - apply (proj2 (proj2 (Earlier_findConnectionPoint_verbatim "led (red) anode"
                           Example.twoLeds Pins))).
    intros n d [[= <- <-] | [[= <- <-] | []]] O;
      apply includes_spec in O; discriminate O.
  - intros N.
    apply (proj1 (proj2 (Earlier_findConnectionPoint_verbatim "LED (Red) Cathode"
                           Example.twoLeds Pins)) N
             "LED (Red)" (Example.led "LED (Red)" 150 200)); [now left |].
    apply includes_spec. reflexivity.
Defined.

Lemma Earlier_canvas_holds_layout_witness :
  rightEdge (Example.led "LED (Red)" 150 200) + 100 <=
  fst (Earlier.canvasSize Example.twoLeds).
Proof.
  exact (proj1 (Earlier_canvas_holds_layout Example.twoLeds "LED (Red)"
                  (Example.led "LED (Red)" 150 200) (or_introl eq_refl))).
Defined.

(** ** Wires end on the border of a component *)

Section Border.

Context {RT : JSRuntime}.

Lemma getComponentPinPositions_onBorder (componentName : string) (width height : Q) :
  Forall (onBorder width height)
         (getComponentPinPositions componentName width height).
Proof.
  unfold getComponentPinPositions. cbv zeta.
  repeat match goal with
         | |- context [if ?b then _ else _] => destruct b
         end;
    cbn [Map_set String.eqb Ascii.eqb Bool.eqb];
    repeat (apply Forall_cons;
            [unfold onBorder; cbn [snd Pos.x Pos.y];
             first [ left; reflexivity
                   | right; left; reflexivity
                   | right; right; left; reflexivity
                   | right; right; right; reflexivity ] |]);
    apply Forall_nil.
Qed.

Lemma parseSVG_onBorder (componentName svgContent : string) :
  Forall (onBorder (ComponentSVGData.width (parseSVG componentName svgContent))
                   (ComponentSVGData.height (parseSVG componentName svgContent)))
         (ComponentSVGData.pins (parseSVG componentName svgContent)).
Proof.
  unfold parseSVG. destruct (intrinsicSize svgContent) as [width height].
  pose proof (getComponentPinPositions_onBorder componentName width height) as B.
  destruct (oversized width height);
    cbn [ComponentSVGData.width ComponentSVGData.height ComponentSVGData.pins];
    [| exact B].
  rewrite scalePins_map. apply Forall_map. eapply Forall_impl; [| exact B].
  intros [pinName pos]. unfold onBorder. cbn [snd Pos.x Pos.y].
  intros [E | [E | [E | E]]]; rewrite E;
    [left | right; left | right; right; left | right; right; right]; ring.
Qed.

(** X29.  In exact arithmetic, on artwork whose sizes are finite, every
    wire ends on the border of a component: in a request
    that starts from an empty cache, a point returned by
    [findConnectionPoint] lies on one of the four sides of the rectangle
    the layout gives the component it names (the lines along its left,
    right, top or bottom edge), scaled artwork included. *)
Theorem findConnectionPoint_on_border (fs : FileSystem) (componentsUsed : list string)
    (pointStr : string) (point : Endpoint.t) :
  let layout :=
    layoutComponents (loadComponentSVGs fs componentsUsed []) componentsUsed in
  findConnectionPoint pointStr layout = Normal (Some point) ->
  exists layoutData,
    Map_get layout (Endpoint.component point) = Some layoutData /\
    (Endpoint.x point == Placed.x layoutData \/
     Endpoint.x point == rightEdge layoutData \/
     Endpoint.y point == Placed.y layoutData \/
     Endpoint.y point == bottomEdge layoutData).
Proof.
  intros layout H.
  set (loaded := loadComponentSVGs fs componentsUsed []) in *.
  destruct (layoutComponents_wellPlaced loaded componentsUsed) as [K W].
  destruct (layoutComponents_grid loaded componentsUsed) as (X & row & _ & _ & E & _).
  fold layout in K, W, E.
  destruct (findConnectionPoint_In _ _ _ H) as (layoutData & I & P).
  rewrite (W _ _ I) in P.
  destruct (calculateAbsolutePins_In _ _ _ _ _ P) as (local & L & [= Ex Ey]).
  destruct (E _ _ I) as (_ & _ & _ & G).
  apply loadComponentSVGs_parsed in G. destruct G as (svg & _ & C).
  pose proof (parseSVG_onBorder (Endpoint.component point) svg) as B.
  rewrite <- C in B. rewrite Forall_forall in B. specialize (B _ L).
  unfold onBorder in B. cbn [snd] in B.
  exists layoutData. split; [now apply Map_get_In |].
  unfold rightEdge, bottomEdge. rewrite Ex, Ey.
  destruct B as [B | [B | [B | B]]]; rewrite B;
    [left | right; left | right; right; left | right; right; right]; ring.
Qed.

End Border.

Lemma findConnectionPoint_on_border_witness :
  let layout :=
    layoutComponents (loadComponentSVGs Example.fileSystem ["LED (Red)"] [])
                     ["LED (Red)"] in
  match findConnectionPoint "LED Cathode" layout with
  | Normal (Some point) =>
    exists layoutData,
      Map_get layout (Endpoint.component point) = Some layoutData /\
      (Endpoint.x point == Placed.x layoutData \/
       Endpoint.x point == rightEdge layoutData \/
       Endpoint.y point == Placed.y layoutData \/
       Endpoint.y point == bottomEdge layoutData)
  | _ => False
  end.
Proof.
  intros layout.
  destruct (findConnectionPoint "LED Cathode" layout) as [[point|]|e] eqn:E.
  - exact (findConnectionPoint_on_border Example.fileSystem ["LED (Red)"]
             "LED Cathode" point E).
  - vm_compute in E. discriminate.
  - vm_compute in E. discriminate.
Defined.

(** ** The properties at work on the examples *)

Lemma escapeMarkup_character_data_witness :
  printable "LED <R&D>" /\
  exists k,
    Markup.run (Markup.mkState ["text"] false (Markup.Content 0))
               (escapeMarkup "LED <R&D>") =
    Some (Markup.mkState ["text"] false (Markup.Content k)).
Proof.
  assert (P : printable "LED <R&D>") by reflexivity.
  split; [exact P |].
  exact (escapeMarkup_character_data "text" [] "LED <R&D>" 0 P).
Defined.

Lemma generateCircuit_nothing_resolves_witness :
  generateCircuit Example.fileSystem [] "Blink" ["Jumper Wires"; "Potentiometer"]
    ["Battery + → Arduino VIN"] =
  Normal (assembleFinalSVG "Blink" [] []).
Proof.
  apply (generateCircuit_nothing_resolves Example.fileSystem "Blink"
           ["Jumper Wires"; "Potentiometer"] ["Battery + → Arduino VIN"]).
  intros c [<- | [<- | []]]; vm_compute; reflexivity.
Defined.

Lemma layoutComponents_board_first_witness :
  hd_error (layoutComponents Example.loadedComponents ["LED (Red)"; "Arduino Nano"]) =
  Some ("Arduino Nano", place (parseSVG "Arduino Nano" Example.artwork) 150 200).
Proof.
  apply (layoutComponents_board_first Example.loadedComponents
           ["LED (Red)"; "Arduino Nano"] "Arduino Nano").
  - vm_compute. reflexivity.
  - discriminate.
  - vm_compute. reflexivity.
Defined.

Lemma parseSVG_pins_inside_witness :
  0 <= fst (intrinsicSize "<svg width='400' height='100'><rect/></svg>") /\
  0 <= snd (intrinsicSize "<svg width='400' height='100'><rect/></svg>") /\
  pinsInside (parseSVG "LED (Red)" "<svg width='400' height='100'><rect/></svg>").
Proof.
  assert (W : 0 <= fst (intrinsicSize "<svg width='400' height='100'><rect/></svg>"))
    by (vm_compute; discriminate).
  assert (H : 0 <= snd (intrinsicSize "<svg width='400' height='100'><rect/></svg>"))
    by (vm_compute; discriminate).
  split; [exact W |]. split; [exact H |].
  exact (proj1 (parseSVG_pins_inside "LED (Red)" _ W H)).
Defined.

Lemma layoutComponents_no_overlap_witness :
  disjoint (Example.led "LED (Red)" 150 200)
           (Example.led "LED (Green)" 150 (200 + 1 * 200)).
Proof.
  apply (layoutComponents_no_overlap Example.fileSystem ["LED (Red)"; "LED (Green)"]
           "LED (Red)" "LED (Green)").
  - rewrite Example_twoLeds_layout. left. reflexivity.
  - rewrite Example_twoLeds_layout. right. left. reflexivity.
  - discriminate.
Defined.

Lemma findConnectionPoint_inside_component_witness :
  let loaded := loadComponentSVGs Example.fileSystem ["LED (Red)"] [] in
  let layout := layoutComponents loaded ["LED (Red)"] in
  match findConnectionPoint "LED Cathode" layout with
  | Normal (Some point) =>
    exists layoutData,
      Map_get layout (Endpoint.component point) = Some layoutData /\
      Placed.x layoutData <= Endpoint.x point <= rightEdge layoutData /\
      Placed.y layoutData <= Endpoint.y point <= bottomEdge layoutData
  | _ => False
  end.
Proof.
  intros loaded layout.
  assert (Inside : forall n data, In (n, data) loaded -> pinsInside data).
  { intros n data I. vm_compute in I. destruct I as [[= <- <-] | []].
    unfold pinsInside.
    repeat (apply Forall_cons; [vm_compute; repeat split; discriminate |]).
    apply Forall_nil. }
  destruct (findConnectionPoint "LED Cathode" layout) as [[point|]|e] eqn:E.
  - exact (findConnectionPoint_inside_component loaded ["LED (Red)"]
             "LED Cathode" point Inside E).
  - vm_compute in E. discriminate.
  - vm_compute in E. discriminate.
Defined.

Lemma assembleFinalSVG_canvas_holds_layout_witness :
  let layout :=
    layoutComponents
      (loadComponentSVGs Example.fileSystem ["LED (Red)"; "LED (Green)"] [])
      ["LED (Red)"; "LED (Green)"] in
  rightEdge (Example.led "LED (Red)" 150 200) + 200 <= fst (canvasSize layout).
Proof.
  intros layout.
  assert (I : In ("LED (Red)", Example.led "LED (Red)" 150 200) layout).
  { unfold layout. rewrite Example_twoLeds_layout. left. reflexivity. }
  apply (proj2 (assembleFinalSVG_canvas_holds_layout Example.fileSystem
                  ["LED (Red)"; "LED (Green)"] "LED (Red)" _ I)).
  simpl. lia.
Defined.

Lemma findConnectionPoint_throw_cause_witness :
  let layout := [("LED (Red", Example.led "LED (Red" 150 200)] in
  findConnectionPoint "LED (Red Anode" layout = Throw SyntaxError /\
  exists componentName layoutData,
    In (componentName, layoutData) layout /\
    componentMatches "LED (Red Anode" componentName = true /\
    RegExp_gi_remove componentName "LED (Red Anode" = None.
Proof.
  intros layout.
  assert (T : findConnectionPoint "LED (Red Anode" layout = Throw SyntaxError)
    by (vm_compute; reflexivity).
  split; [exact T |].
  exact (findConnectionPoint_throw_cause "LED (Red Anode" layout SyntaxError T).
Defined.

Lemma findConnectionPoint_null_iff_witness :
  findConnectionPoint "Battery +" Example.twoLeds = Normal None.
Proof.
  apply (findConnectionPoint_null_iff "Battery +" Example.twoLeds).
  - intros n d [[= <- <-] | [[= <- <-] | []]]; vm_compute; discriminate.
  - vm_compute. reflexivity.
Defined.

Lemma findConnectionPoint_empty_description_witness :
  match Placed.absolutePins (Example.led "LED (Red)" 150 200) with
  | (pin, position) :: _ =>
    findConnectionPoint "" Example.twoLeds =
    Normal (Some (Endpoint.mk "LED (Red)" pin (Pos.x position) (Pos.y position)))
  | [] => False
  end.
Proof.
  destruct (Placed.absolutePins (Example.led "LED (Red)" 150 200))
    as [|[pin position] pins] eqn:P.
  - vm_compute in P. discriminate.
  - apply (findConnectionPoint_empty_description "LED (Red)"
             (Example.led "LED (Red)" 150 200) _ pin position pins);
      [reflexivity | reflexivity | exact P].
Defined.

Lemma parseConnections_wires_witness :
  match parseConnections ["LED (Red) Anode → LED (Green) Cathode"; "Upload the code"]
                         Example.twoLeds with
  | Normal wires =>
    (List.length wires <= 2)%nat /\
    Forall (fun wire =>
              In (ConnectionWire.label wire)
                 ["LED (Red) Anode → LED (Green) Cathode"; "Upload the code"] /\
              ConnectionWire.color wire = getWireColor (ConnectionWire.label wire) /\
              In (Endpoint.component (ConnectionWire.from wire))
                 (map fst Example.twoLeds) /\
              In (Endpoint.component (ConnectionWire.to wire))
                 (map fst Example.twoLeds))
           wires
  | Throw _ => False
  end.
Proof.
  destruct (parseConnections
              ["LED (Red) Anode → LED (Green) Cathode"; "Upload the code"]
              Example.twoLeds) as [wires|e] eqn:E.
  - exact (proj2 (parseConnections_wires _ _ _ E)).
  - vm_compute in E. discriminate.
Defined.

Lemma connectionWire_skipped_witness :
  mentions ["upload"; "code"; "program"]
           (toLowerCase "Rotary Encoder A → Arduino D2") /\
  connectionWire "Rotary Encoder A → Arduino D2" Example.layout = Normal None.
Proof.
  assert (M : mentions ["upload"; "code"; "program"]
                       (toLowerCase "Rotary Encoder A → Arduino D2")).
  { apply mentions_existsb. vm_compute. reflexivity. }
  split; [exact M |].
  exact (connectionWire_skipped "Rotary Encoder A → Arduino D2" Example.layout
           (or_introl M)).
Defined.

Lemma generateCircuit_completes_witness :
  exists document,
    generateCircuit Example.fileSystem [] "Blink" ["LED (Red)"]
      ["LED Anode → LED Cathode"] = Normal document.
Proof.
  eexists.
  apply (generateCircuit_completes Example.fileSystem [] "Blink" ["LED (Red)"]
           ["LED Anode → LED Cathode"]).
  intros c subject [<- | []]. lazy -[Node.removeLiteral_go String.length]. discriminate.
Defined.

Lemma intrinsicSize_four_numerals_witness :
  viewBoxMatch "<svg viewBox='0 0 100 80'></svg>" = Some "0 0 100 80" /\
  intrinsicSize "<svg viewBox='0 0 100 80'></svg>" =
  (parseFloatOr150 (Some "80"), 150).
Proof.
  assert (V : viewBoxMatch "<svg viewBox='0 0 100 80'></svg>" = Some "0 0 100 80")
    by (vm_compute; reflexivity).
  split; [exact V |].
  apply (intrinsicSize_four_numerals _ "0" "0" "100" "80");
    first [exact V | split; [discriminate | reflexivity]].
Defined.

Lemma findComponentFolder_listed_witness :
  findComponentFolder (folders Example.fileSystem) "LED (Red)" = Some "led_red" /\
  In "led_red" (folders Example.fileSystem).
Proof.
  assert (F : findComponentFolder (folders Example.fileSystem) "LED (Red)" =
              Some "led_red") by (vm_compute; reflexivity).
  split; [exact F |].
  exact (proj1 (findComponentFolder_listed _ _ _ F)).
Defined.

Lemma findComponentFolder_empty_label_witness :
  findComponentFolder (folders Example.fileSystem) "" = Some "arduino_nano".
Proof.
  apply (findComponentFolder_empty_label "arduino_nano"). reflexivity.
Defined.
